(** * SecuraMem code-symbol indexing and hybrid search: a shallow embedding

    The development follows the TypeScript sources:
    - [UnifiedVectorBackend.ts] (VecBackend, VssBackend, UnifiedVectorBackend),
    - [HybridSearchDatabase.ts] (the constructor, indexFile, the hybrid
      search and its text-only fallback) and [HybridSearchMigration.ts],
    - [SearchCode.ts] (handleSearchCode, the re-ranking fusion),
    - [EnhancedCodeIndexer.ts], [TreeSitterLoader.ts] and
      [TreeSitterIndexer.ts] (symbol extraction and chunking).

    Conventions.  JavaScript numbers that are integers (ids, line numbers,
    dimensions) are [Z]; scores and distances are exact rationals [Q]
    (rounding of IEEE doubles is not modelled), and a score that is [NULL]
    in SQL is [None]; strings are [string] seen as byte sequences; an
    exception is a [Throw] completion carrying the message of the
    [Error]. *)

From Stdlib Require Import ZArith QArith Qminmax List String Ascii Lia Bool.
From Stdlib Require Import DecimalString DecimalPos Lqa.
From stdpp Require Import gmap strings list fin_maps.
From Stdlib Require Import Sorted DecimalZ.
Import ListNotations.

Open Scope Z_scope.

(** ** JavaScript helpers *)

Module Js.

(** A normal or an abrupt (throw) completion. *)
Inductive completion (A : Type) : Type :=
| Normal (a : A)
| Throw (message : string).
Arguments Normal {A} a.
Arguments Throw {A} message.

Definition is_throw {A} (c : completion A) : bool :=
  match c with Throw _ => true | Normal _ => false end.

(** An integer in plain decimal digits, with its sign. *)
Definition decimal (n : Z) : string := NilZero.string_of_int (Z.to_int n).

(** The digits of [s] up to its last digit that is not [0]. *)
Fixpoint strip_zeros (s : string) : string :=
  match s with
  | EmptyString => EmptyString
  | String c s' =>
      match strip_zeros s' with
      | EmptyString => if Ascii.eqb c "0" then EmptyString else String c EmptyString
      | t => String c t
      end
  end.

(** Exponent notation of the natural number whose digits are [ds]: the
    first digit, the digits after it up to the last that is not [0] behind
    a point, and the exponent, as in [1e+21] and [1.5e+21]. *)
Definition exponent_notation (ds : string) : string :=
  match ds with
  | EmptyString => EmptyString
  | String d rest =>
      String d (match strip_zeros rest with
                | EmptyString => EmptyString
                | frac => String "." frac
                end
                +:+ "e+" +:+ decimal (Z.of_nat (String.length rest)))
  end.

(** [String(n)] for a number that is an integer: plain digits below 1e21
    in absolute value, exponent notation from there on.  A number is
    written [n] here by the integer that the digits of [String] spell, so
    that of two numbers beyond 2^53 only those digits are told apart. *)
Definition Number_toString (n : Z) : string :=
  if Z.abs n <? 10 ^ 21 then decimal n
  else (if n <? 0 then "-" else EmptyString) +:+ exponent_notation (decimal (Z.abs n)).

(** [s.startsWith(p)] *)
Fixpoint startsWith (s p : string) {struct p} : bool :=
  match p, s with
  | EmptyString, _ => true
  | String c p', String d s' => if Ascii.eqb c d then startsWith s' p' else false
  | String _ _, EmptyString => false
  end.

(** [s.includes(p)] *)
Fixpoint includes (s p : string) : bool :=
  if startsWith s p then true
  else match s with
       | EmptyString => false
       | String _ s' => includes s' p
       end.

Fixpoint drop (n : nat) (s : string) : string :=
  match n, s with
  | O, _ => s
  | S n', String _ s' => drop n' s'
  | S _, EmptyString => EmptyString
  end.

(** [s.replace(p, r)] with a string pattern: the first occurrence only. *)
Fixpoint replace (s p r : string) : string :=
  if startsWith s p then r +:+ drop (String.length p) s
  else match s with
       | EmptyString => EmptyString
       | String c s' => String c (replace s' p r)
       end.

(** White space of [trim] and of the regular expression class [\s],
    restricted to the ASCII range. *)
Definition is_space (c : ascii) : bool :=
  let n := nat_of_ascii c in
  ((n =? 32) || (n =? 9) || (n =? 10) || (n =? 11) || (n =? 12) || (n =? 13))%nat.

(** The class [\w]: letters, digits and the underscore. *)
Definition is_word (c : ascii) : bool :=
  let n := nat_of_ascii c in
  (((48 <=? n) && (n <=? 57)) || ((65 <=? n) && (n <=? 90))
   || ((97 <=? n) && (n <=? 122)) || (n =? 95))%nat.

Definition digit_of (c : ascii) : option Z :=
  let n := nat_of_ascii c in
  if ((48 <=? n) && (n <=? 57))%nat then Some (Z.of_nat n - 48) else None.

Definition is_digit (c : ascii) : bool :=
  match digit_of c with Some _ => true | None => false end.

(** The characters [String] writes for a number that is an integer. *)
Definition number_char (c : ascii) : bool :=
  is_digit c || existsb (Ascii.eqb c) ["-"; "."; "e"; "+"]%char.

Fixpoint trimStart (s : string) : string :=
  match s with
  | String c s' => if is_space c then trimStart s' else s
  | EmptyString => EmptyString
  end.

Fixpoint trimEnd (s : string) : string :=
  match s with
  | EmptyString => EmptyString
  | String c s' =>
      match trimEnd s' with
      | EmptyString => if is_space c then EmptyString else String c EmptyString
      | t => String c t
      end
  end.

Definition trim (s : string) : string := trimEnd (trimStart s).

(** A JavaScript number that is either an integer or [NaN]. *)
Inductive number : Type :=
| Int (z : Z)
| NaN.

(** Reads decimal digits, accumulating their value; stops at the first
    character that is not a digit. *)
Fixpoint parse_digits (s : string) (acc : Z) : Z :=
  match s with
  | String c s' =>
      match digit_of c with
      | Some d => parse_digits s' (10 * acc + d)
      | None => acc
      end
  | EmptyString => acc
  end.

Definition starts_with_digit (s : string) : bool :=
  match s with
  | String c _ => match digit_of c with Some _ => true | None => false end
  | EmptyString => false
  end.

(** [parseInt(s)] in base ten: leading white space, an optional sign,
    then the longest run of digits; [NaN] when there is no digit.  The
    prefix [0x] of a hexadecimal number is not read as such. *)
Definition parseInt (s : string) : number :=
  match trimStart s with
  | String "-" t => if starts_with_digit t then Int (- parse_digits t 0) else NaN
  | String "+" t => if starts_with_digit t then Int (parse_digits t 0) else NaN
  | t => if starts_with_digit t then Int (parse_digits t 0) else NaN
  end.

(** [s.split(sep)[0]] for a one-character separator. *)
Fixpoint before_char (sep : ascii) (s : string) : string :=
  match s with
  | EmptyString => EmptyString
  | String c s' => if Ascii.eqb c sep then EmptyString else String c (before_char sep s')
  end.

(** [text.split(/\r?\n/)] *)
Fixpoint split_lines (s : string) : list string :=
  match s with
  | EmptyString => [EmptyString]
  | String c s' =>
      if Ascii.eqb c "010" then EmptyString :: split_lines s'
      else
        match s' with
        | String d s'' =>
            if Ascii.eqb c "013" && Ascii.eqb d "010"
            then EmptyString :: split_lines s''
            else match split_lines s' with
                 | l :: ls => String c l :: ls
                 | [] => [String c EmptyString]
                 end
        | EmptyString => [String c EmptyString]
        end
  end.

(** [text.split('\n')] *)
Fixpoint split_newline (s : string) : list string :=
  match s with
  | EmptyString => [EmptyString]
  | String c s' =>
      if Ascii.eqb c "010" then EmptyString :: split_newline s'
      else match split_newline s' with
           | l :: ls => String c l :: ls
           | [] => [String c EmptyString]
           end
  end.

(** [lines.join('\n')] *)
Fixpoint join_lines (ls : list string) : string :=
  match ls with
  | [] => EmptyString
  | [l] => l
  | l :: ls' => l +:+ String "010" (join_lines ls')
  end.

(** The index arithmetic of [slice]: a negative index counts from the
    end, and both ends are clamped to the length. *)
Definition clamp_index (len i : Z) : Z :=
  if i <? 0 then Z.max (len + i) 0 else Z.min i len.

(** [xs.slice(i, j)] on an array. *)
Definition slice {A} (xs : list A) (i j : Z) : list A :=
  let len := Z.of_nat (length xs) in
  let i' := clamp_index len i in
  let j' := clamp_index len j in
  firstn (Z.to_nat (j' - i')) (skipn (Z.to_nat i') xs).

(** Code that runs on a store [S] and may throw: whatever was written
    before the throw stays written. *)
Definition Eff (S A : Type) : Type := S -> completion A * S.

Definition ret {S A} (a : A) : Eff S A := fun s => (Normal a, s).

Definition throw {S A} (msg : string) : Eff S A := fun s => (Throw msg, s).

Definition and_then {S A B} (m : Eff S A) (k : A -> Eff S B) : Eff S B :=
  fun s => match m s with
           | (Normal a, s') => k a s'
           | (Throw e, s') => (Throw e, s')
           end.

Definition lift {S A} (c : completion A) : Eff S A := fun s => (c, s).

End Js.
Import Js.

(** ** The SQLite handle shared by the vector backends *)

Module Sqlite.

(** A [Float32Array]; only its length and its elements' order matter. *)
Definition Float32Array := list Q.

Inductive VModule : Type := vec0 | vss0.

(** A virtual vector table: its declared dimension and its rows. *)
Record VTable : Type := {
  vt_module : VModule;
  vt_dim : Z;
  vt_rows : list (Z * Float32Array)
}.

(** A row of the key-mapping table
    [(id INTEGER PRIMARY KEY, key TEXT UNIQUE, payload BLOB)]. *)
Record ItemRow : Type := {
  item_id : Z;
  item_key : string;
  item_payload : option string
}.

(** The statements the backends send to the database. *)
Inductive Stmt : Type :=
| LoadExtension (path : string)
| Pragma (setting : string)
| CreateItemsTable (table : string)
| CreateVirtualTable (table : string) (m : VModule) (dim : Z)
| UpsertItemReturning (table key : string)
| InsertItemOrIgnore (table key : string)
| SelectItemId (table key : string)
| InsertOrReplaceVector (table : string) (id : Z) (v : Float32Array)
| SelectKnnJoinItems (table items : string) (q : Float32Array) (k : Z)
| SelectKnn (table : string) (q : Float32Array) (k : Z)
| SelectCount (table : string).

Record Database : Type := {
  extensions : list string;
  items_tables : gmap string (list ItemRow);
  vtables : gmap string VTable;
  journal : list Stmt
}.

Definition empty_db : Database :=
  {| extensions := []; items_tables := ∅; vtables := ∅; journal := [] |}.

(** What lies outside the program: the platform, the file system, the
    distance of the native module, and which statements the native side
    rejects (a message means the statement throws and changes nothing). *)
Record Env : Type := {
  platform : string;
  arch : string;
  existsSync : string -> bool;
  native_error : Stmt -> Database -> option string;
  distance : Float32Array -> Float32Array -> Q
}.

Definition log (s : Stmt) (db : Database) : Database :=
  {| extensions := extensions db; items_tables := items_tables db;
     vtables := vtables db; journal := journal db ++ [s] |}.

Definition set_extensions (e : list string) (db : Database) : Database :=
  {| extensions := e; items_tables := items_tables db;
     vtables := vtables db; journal := journal db |}.

Definition set_items (t : string) (rows : list ItemRow) (db : Database) : Database :=
  {| extensions := extensions db; items_tables := <[t := rows]> (items_tables db);
     vtables := vtables db; journal := journal db |}.

Definition set_vtable (t : string) (vt : VTable) (db : Database) : Database :=
  {| extensions := extensions db; items_tables := items_tables db;
     vtables := <[t := vt]> (vtables db); journal := journal db |}.

(** Every statement is journalled, then either rejected by the native
    side or run. *)
Definition attempt {A} (env : Env) (s : Stmt)
    (run : Database -> completion A * Database) (db : Database)
    : completion A * Database :=
  match native_error env s db with
  | Some msg => (Throw msg, log s db)
  | None => run (log s db)
  end.

Definition no_such_table (t : string) : string := "no such table: " +:+ t.

Definition loadExtension (env : Env) (path : string) :=
  attempt env (LoadExtension path)
    (fun db => (Normal tt, set_extensions (extensions db ++ [path]) db)).

Definition pragma (env : Env) (setting : string) :=
  attempt env (Pragma setting) (fun db => (Normal tt, db)).

(** [CREATE TABLE IF NOT EXISTS t (id INTEGER PRIMARY KEY, key TEXT UNIQUE, payload BLOB)] *)
Definition create_items_table (env : Env) (t : string) :=
  attempt env (CreateItemsTable t)
    (fun db => match items_tables db !! t with
               | Some _ => (Normal tt, db)
               | None => (Normal tt, set_items t [] db)
               end).

(** [CREATE VIRTUAL TABLE IF NOT EXISTS t USING m(... dim ...)]: an
    existing table is left as it is, whatever its dimension. *)
Definition create_virtual_table (env : Env) (t : string) (m : VModule) (dim : Z) :=
  attempt env (CreateVirtualTable t m dim)
    (fun db => match vtables db !! t with
               | Some _ => (Normal tt, db)
               | None => (Normal tt, set_vtable t {| vt_module := m; vt_dim := dim; vt_rows := [] |} db)
               end).

Definition find_item (key : string) (rows : list ItemRow) : option ItemRow :=
  List.find (fun r => String.eqb (item_key r) key) rows.

(** The rowid SQLite gives to a new row: one more than the largest. *)
Definition next_rowid (ids : list Z) : Z := 1 + fold_right Z.max 0 ids.

Definition coalesce {A} (a b : option A) : option A :=
  match a with Some _ => a | None => b end.

Definition update_payload (key : string) (payload : option string) (r : ItemRow) : ItemRow :=
  if String.eqb (item_key r) key
  then {| item_id := item_id r; item_key := item_key r;
          item_payload := coalesce payload (item_payload r) |}
  else r.

(** [INSERT INTO t(key, payload) VALUES(?, ?) ON CONFLICT(key) DO UPDATE
    SET payload = coalesce(excluded.payload, t.payload) RETURNING id] *)
Definition upsert_item_returning (env : Env) (t key : string) (payload : option string) :=
  attempt env (UpsertItemReturning t key)
    (fun db => match items_tables db !! t with
               | None => (Throw (no_such_table t), db)
               | Some rows =>
                   match find_item key rows with
                   | Some r => (Normal (item_id r),
                                set_items t (map (update_payload key payload) rows) db)
                   | None =>
                       let id := next_rowid (map item_id rows) in
                       (Normal id,
                        set_items t (rows ++ [{| item_id := id; item_key := key;
                                                 item_payload := payload |}]) db)
                   end
               end).

(** [INSERT OR IGNORE INTO t(key, payload) VALUES(?, ?)] *)
Definition insert_item_or_ignore (env : Env) (t key : string) (payload : option string) :=
  attempt env (InsertItemOrIgnore t key)
    (fun db => match items_tables db !! t with
               | None => (Throw (no_such_table t), db)
               | Some rows =>
                   match find_item key rows with
                   | Some _ => (Normal tt, db)
                   | None =>
                       let id := next_rowid (map item_id rows) in
                       (Normal tt,
                        set_items t (rows ++ [{| item_id := id; item_key := key;
                                                 item_payload := payload |}]) db)
                   end
               end).

(** [SELECT id FROM t WHERE key = ?]; [None] is the [undefined] of
    [Statement.get] when no row matches. *)
Definition select_item_id (env : Env) (t key : string) :=
  attempt env (SelectItemId t key)
    (fun db => match items_tables db !! t with
               | None => (Throw (no_such_table t), db)
               | Some rows => (Normal (item_id <$> find_item key rows), db)
               end).

Definition replace_row (id : Z) (v : Float32Array) (rows : list (Z * Float32Array))
    : list (Z * Float32Array) :=
  List.filter (fun r => negb (fst r =? id)) rows ++ [(id, v)].

(** [INSERT OR REPLACE INTO t(id, embedding) VALUES(id, ?)] *)
Definition insert_or_replace_vector (env : Env) (t : string) (id : Z) (v : Float32Array) :=
  attempt env (InsertOrReplaceVector t id v)
    (fun db => match vtables db !! t with
               | None => (Throw (no_such_table t), db)
               | Some vt =>
                   (Normal tt,
                    set_vtable t {| vt_module := vt_module vt; vt_dim := vt_dim vt;
                                    vt_rows := replace_row id v (vt_rows vt) |} db)
               end).

(** [ORDER BY distance]: a stable insertion sort on the distance. *)
Fixpoint insert_by_distance {A} (x : A * Q) (l : list (A * Q)) : list (A * Q) :=
  match l with
  | [] => [x]
  | y :: l' => if Qle_bool (snd x) (snd y) then x :: l
               else y :: insert_by_distance x l'
  end.

Definition order_by_distance {A} (l : list (A * Q)) : list (A * Q) :=
  fold_right insert_by_distance [] l.

(** [LIMIT n]: a negative limit is no limit. *)
Definition sql_limit {A} (n : Z) (l : list A) : list A :=
  if n <? 0 then l else firstn (Z.to_nat n) l.

(** The [k] nearest rows of a vector table. *)
Definition nearest (env : Env) (vt : VTable) (q : Float32Array) (k : Z) : list (Z * Q) :=
  firstn (Z.to_nat k)
    (order_by_distance (map (fun r => (fst r, distance env q (snd r))) (vt_rows vt))).

(** [SELECT rowid AS id, distance FROM t WHERE vss_search(embedding, ?)
    ORDER BY distance LIMIT ?] *)
Definition select_knn (env : Env) (t : string) (q : Float32Array) (k : Z) :=
  attempt env (SelectKnn t q k)
    (fun db => match vtables db !! t with
               | None => (Throw (no_such_table t), db)
               | Some vt =>
                   (Normal (sql_limit k
                              (order_by_distance
                                 (map (fun r => (fst r, distance env q (snd r)))
                                      (vt_rows vt)))), db)
               end).

(** [SELECT items.key, vec.distance FROM t vec JOIN items ON items.id = vec.id
    WHERE vec.embedding MATCH ? AND k = ? ORDER BY vec.distance LIMIT ?] *)
Definition select_knn_join_items (env : Env) (t items : string) (q : Float32Array) (k : Z) :=
  attempt env (SelectKnnJoinItems t items q k)
    (fun db => match vtables db !! t, items_tables db !! items with
               | Some vt, Some rows =>
                   let joined :=
                     flat_map (fun h => map (fun r => (item_key r, snd h))
                                          (List.filter (fun r => item_id r =? fst h) rows))
                              (nearest env vt q k) in
                   (Normal (sql_limit k (order_by_distance joined)), db)
               | None, _ => (Throw (no_such_table t), db)
               | _, None => (Throw (no_such_table items), db)
               end).

(** [SELECT COUNT( * ) AS count FROM t] *)
Definition select_count (env : Env) (t : string) :=
  attempt env (SelectCount t)
    (fun db => match vtables db !! t with
               | None => (Throw (no_such_table t), db)
               | Some vt => (Normal (Z.of_nat (length (vt_rows vt))), db)
               end).

(** A sequence of statements on the handle. *)
Definition Sql (A : Type) : Type := Eff Database A.

(** [path.join(...)] on segments that need no normalisation. *)
Fixpoint path_join (parts : list string) : string :=
  match parts with
  | [] => "."
  | [p] => p
  | p :: ps => p +:+ "/" +:+ path_join ps
  end.

End Sqlite.
Import Sqlite.

Notation "x <- m ;; k" := (and_then m (fun x => k))
  (at level 100, m at next level, right associativity, only parsing).

(** ** UnifiedVectorBackend.ts *)

Inductive BackendType : Type := vec | vss | local_js.

(** A hit of [queryNearest]. *)
Record Hit : Type := { hit_id : number; hit_distance : Q }.

(** [assertDim(v, expected)] *)
Definition assertDim (v : Float32Array) (expected : Z) : completion unit :=
  if Z.of_nat (length v) =? expected then Normal tt
  else Throw ("Vector dimension " +:+ Number_toString (Z.of_nat (length v))
              +:+ " != " +:+ Number_toString expected).

(** [platform === 'win32' ? 'dll' : platform === 'darwin' ? 'dylib' : 'so'] *)
Definition library_ext (env : Env) : string :=
  if String.eqb (platform env) "win32" then "dll"
  else if String.eqb (platform env) "darwin" then "dylib" else "so".

Definition platform_arch (env : Env) : string :=
  platform env +:+ "-" +:+ arch env.

(** [new Float32Array(384).fill(0.1)] *)
Definition testVec : Float32Array := repeat (1 # 10)%Q 384.

Module VecBackend.

Record t : Type := {
  loaded : bool;
  table : string;
  itemsTable : string;
  dim : option Z;
  extensionPath : option string
}.

Definition backend (_ : t) : BackendType := vec.

Definition new (table : string) (extensionPath : option string) : t :=
  {| loaded := false; table := table; itemsTable := "memory_items";
     dim := None; extensionPath := extensionPath |}.

Definition set_loaded (l : bool) (b : t) : t :=
  {| loaded := l; table := table b; itemsTable := itemsTable b;
     dim := dim b; extensionPath := extensionPath b |}.

Definition set_dim (d : option Z) (b : t) : t :=
  {| loaded := loaded b; table := table b; itemsTable := itemsTable b;
     dim := d; extensionPath := extensionPath b |}.

Definition set_extensionPath (p : option string) (b : t) : t :=
  {| loaded := loaded b; table := table b; itemsTable := itemsTable b;
     dim := dim b; extensionPath := p |}.

Definition isAvailable (b : t) : bool := loaded b.

(** [this.dim === dim] *)
Definition dim_is (b : t) (d : Z) : bool :=
  match dim b with Some d' => d' =? d | None => false end.

(** The body of the [try] of [ensureTable]. *)
Definition create_tables (env : Env) (b : t) (d : Z) : Sql unit :=
  _ <- pragma env "journal_mode = WAL" ;;
  _ <- pragma env "synchronous = NORMAL" ;;
  _ <- pragma env "mmap_size = 268435456" ;;
  _ <- pragma env "temp_store = MEMORY" ;;
  _ <- pragma env "cache_size = -200000" ;;
  _ <- create_items_table env (itemsTable b) ;;
  create_virtual_table env (table b) vec0 d.

Definition ensureTable (env : Env) (d : Z) (b : t) (db : Database) : t * Database :=
  if negb (loaded b) then (b, db)
  else if dim_is b d then (b, db)
  else match create_tables env b d db with
       | (Normal _, db') => (set_dim (Some d) b, db')
       | (Throw _, db') => (set_loaded false b, db')
       end.

(** [getOrCreateIdForKey(key, payload)]: the statement with [RETURNING],
    and on any error the two-statement path for an older SQLite. *)
Definition getOrCreateIdForKey (env : Env) (b : t) (key : string)
    (payload : option string) : Sql Z :=
  fun db =>
    match upsert_item_returning env (itemsTable b) key payload db with
    | (Normal id, db') => (Normal id, db')
    | (Throw _, db') =>
        (_ <- insert_item_or_ignore env (itemsTable b) key payload ;;
         row <- select_item_id env (itemsTable b) key ;;
         match row with
         | Some id => ret id
         | None => throw "Cannot read properties of undefined (reading 'id')"
         end) db'
    end.

(** The key [memory_${id}] of an external id that is an integer.  The
    guard of [upsert] tests the floor of the id while the key is made of
    the id itself, so a number with a fraction, which has no counterpart
    here, keeps the fraction in its key. *)
Definition memory_key (id : Z) : string := "memory_" +:+ Number_toString id.

(** The body of the [try] of [upsert]. *)
Definition upsert_body (env : Env) (id : Z) (v : Float32Array) (b : t) (d : Z) : Sql unit :=
  _ <- lift (assertDim v d) ;;
  _ <- (if id <? 0
        then throw ("Invalid ID for sqlite-vec: " +:+ Number_toString id
                    +:+ " (must be positive integer)")
        else ret tt) ;;
  mappedId <- getOrCreateIdForKey env b (memory_key id) None ;;
  insert_or_replace_vector env (table b) mappedId v.

Definition upsert (env : Env) (id : Z) (v : Float32Array) (b : t) (db : Database)
    : completion unit * Database :=
  if negb (loaded b) then (Normal tt, db)
  else match dim b with
       | None => (Normal tt, db)
       | Some d =>
           match upsert_body env id v b d db with
           | (Throw e, db') =>
               if includes e "dimension" then (Throw e, db') else (Normal tt, db')
           | (Normal _, db') => (Normal tt, db')
           end
       end.

Definition hit_of_row (r : string * Q) : Hit :=
  {| hit_id := parseInt (replace (fst r) "memory_" ""); hit_distance := snd r |}.

Definition queryNearest (env : Env) (query : Float32Array) (topk : Z) (b : t)
    (db : Database) : list Hit * Database :=
  if negb (loaded b) then ([], db)
  else match dim b with
       | None => ([], db)
       | Some d =>
           match (_ <- lift (assertDim query d) ;;
                  select_knn_join_items env (table b) (itemsTable b) query topk) db with
           | (Normal rows, db') => (map hit_of_row rows, db')
           | (Throw _, db') => ([], db')
           end
       end.

Definition count (env : Env) (b : t) (db : Database) : Z * Database :=
  if negb (loaded b) then (0, db)
  else match select_count env (table b) db with
       | (Normal n, db') => (n, db')
       | (Throw _, db') => (0, db')
       end.

(** The self-test of [tryLoad]: the inner [try] and its [catch].  The
    count only selects which line is printed. *)
Definition selfTest (env : Env) (b : t) (db : Database) : t * Database :=
  let '(b1, db1) := ensureTable env 384 b db in
  match upsert env 999999 testVec b1 db1 with
  | (Throw _, db2) => (set_loaded false b1, db2)
  | (Normal _, db2) => let '(_, db3) := count env b1 db2 in (b1, db3)
  end.

Definition manualPath (env : Env) (projectRoot : string) : string :=
  path_join [projectRoot; ".securamem"; "sqlite-vec"; platform_arch env;
             "vec0." +:+ library_ext env].

Definition npmPath (env : Env) (projectRoot : string) : string :=
  let npmPlatform := if String.eqb (platform env) "win32" then "windows" else platform env in
  path_join [projectRoot; "node_modules";
             "sqlite-vec-" +:+ npmPlatform +:+ "-" +:+ arch env;
             "vec0." +:+ library_ext env].

Definition loaded_or_null (r : t * Database) : option t * Database :=
  (if loaded (fst r) then Some (fst r) else None, snd r).

(** The second [try] of [tryLoad]: the library of the npm package. *)
Definition tryLoad_npm (env : Env) (projectRoot : string) (backend : t) (db : Database)
    : option t * Database :=
  if existsSync env (npmPath env projectRoot) then
    match loadExtension env (npmPath env projectRoot) db with
    | (Normal _, db1) =>
        loaded_or_null
          (selfTest env
             (set_extensionPath (Some (npmPath env projectRoot)) (set_loaded true backend))
             db1)
    | (Throw _, db1) => (None, db1)
    end
  else (None, db).

Definition tryLoad (env : Env) (projectRoot : string) (db : Database)
    : option t * Database :=
  let backend := new "memory_vectors_vec" (Some (manualPath env projectRoot)) in
  if existsSync env (manualPath env projectRoot) then
    match loadExtension env (manualPath env projectRoot) db with
    | (Normal _, db1) => loaded_or_null (selfTest env (set_loaded true backend) db1)
    | (Throw _, db1) => tryLoad_npm env projectRoot backend db1
    end
  else tryLoad_npm env projectRoot backend db.

End VecBackend.

Module VssBackend.

Record t : Type := {
  loaded : bool;
  table : string;
  dim : option Z;
  extensionPath : option string
}.

Definition backend (_ : t) : BackendType := vss.

Definition new (table : string) (extensionPath : option string) : t :=
  {| loaded := false; table := table; dim := None; extensionPath := extensionPath |}.

Definition set_loaded (l : bool) (b : t) : t :=
  {| loaded := l; table := table b; dim := dim b; extensionPath := extensionPath b |}.

Definition set_dim (d : option Z) (b : t) : t :=
  {| loaded := loaded b; table := table b; dim := d; extensionPath := extensionPath b |}.

Definition isAvailable (b : t) : bool := loaded b.

Definition dim_is (b : t) (d : Z) : bool :=
  match dim b with Some d' => d' =? d | None => false end.

Definition ensureTable (env : Env) (d : Z) (b : t) (db : Database) : t * Database :=
  if negb (loaded b) then (b, db)
  else if dim_is b d then (b, db)
  else match create_virtual_table env (table b) vss0 d db with
       | (Normal _, db') => (set_dim (Some d) b, db')
       | (Throw _, db') => (set_loaded false b, db')
       end.

(** No dimension check here; any error disables the backend instead of
    reaching the caller. *)
Definition upsert (env : Env) (id : Z) (v : Float32Array) (b : t) (db : Database)
    : completion unit * (t * Database) :=
  if negb (loaded b) then (Normal tt, (b, db))
  else match dim b with
       | None => (Normal tt, (b, db))
       | Some _ =>
           match insert_or_replace_vector env (table b) id v db with
           | (Normal _, db') => (Normal tt, (b, db'))
           | (Throw _, db') => (Normal tt, (set_loaded false b, db'))
           end
       end.

Definition queryNearest (env : Env) (query : Float32Array) (topk : Z) (b : t)
    (db : Database) : list Hit * Database :=
  if negb (loaded b) then ([], db)
  else match dim b with
       | None => ([], db)
       | Some _ =>
           match select_knn env (table b) query topk db with
           | (Normal rows, db') =>
               (map (fun r => {| hit_id := Int (fst r); hit_distance := snd r |}) rows, db')
           | (Throw _, db') => ([], db')
           end
       end.

Definition count (env : Env) (b : t) (db : Database) : Z * Database :=
  if negb (loaded b) then (0, db)
  else match select_count env (table b) db with
       | (Normal n, db') => (n, db')
       | (Throw _, db') => (0, db')
       end.

Definition vectorPath (env : Env) (projectRoot : string) : string :=
  path_join [projectRoot; ".securamem"; "sqlite-vss"; platform_arch env;
             "vector0." +:+ library_ext env].

Definition vssPath (env : Env) (projectRoot : string) : string :=
  path_join [projectRoot; ".securamem"; "sqlite-vss"; platform_arch env;
             "vss0." +:+ library_ext env].

(** The second half of [tryLoad], once [vector0] is in place. *)
Definition load_vss (env : Env) (projectRoot : string) (db : Database)
    : option t * Database :=
  let backend := new "memory_vectors_vss" (Some (vssPath env projectRoot)) in
  if existsSync env (vssPath env projectRoot) then
    match loadExtension env (vssPath env projectRoot) db with
    | (Normal _, db1) => (Some (set_loaded true backend), db1)
    | (Throw _, db1) => (None, db1)
    end
  else (None, db).

Definition tryLoad (env : Env) (projectRoot : string) (db : Database)
    : option t * Database :=
  if negb (String.eqb (platform env) "win32") then
    if existsSync env (vectorPath env projectRoot) then
      match loadExtension env (vectorPath env projectRoot) db with
      | (Normal _, db1) => load_vss env projectRoot db1
      | (Throw _, db1) => (None, db1)
      end
    else (None, db)
  else load_vss env projectRoot db.

End VssBackend.

Module UnifiedVectorBackend.

(** The closed set of implementations behind [VectorBackend]. *)
Inductive VectorBackend : Type :=
| Vec (b : VecBackend.t)
| Vss (b : VssBackend.t).

Record t : Type := { activeBackend : option VectorBackend }.

Definition tryLoad (env : Env) (projectRoot : string) (db : Database) : t * Database :=
  if String.eqb (platform env) "win32" then
    match VecBackend.tryLoad env projectRoot db with
    | (Some b, db1) => ({| activeBackend := Some (Vec b) |}, db1)
    | (None, db1) => ({| activeBackend := None |}, db1)
    end
  else
    match VssBackend.tryLoad env projectRoot db with
    | (Some b, db1) => ({| activeBackend := Some (Vss b) |}, db1)
    | (None, db1) =>
        match VecBackend.tryLoad env projectRoot db1 with
        | (Some b, db2) => ({| activeBackend := Some (Vec b) |}, db2)
        | (None, db2) => ({| activeBackend := None |}, db2)
        end
    end.

(** [this.activeBackend?.isAvailable() ?? false] *)
Definition isAvailable (u : t) : bool :=
  match activeBackend u with
  | Some (Vec b) => VecBackend.isAvailable b
  | Some (Vss b) => VssBackend.isAvailable b
  | None => false
  end.

(** [this.activeBackend?.backend ?? 'local-js'] *)
Definition getBackendType (u : t) : BackendType :=
  match activeBackend u with
  | Some (Vec b) => VecBackend.backend b
  | Some (Vss b) => VssBackend.backend b
  | None => local_js
  end.

Definition getExtensionPath (u : t) : option string :=
  match activeBackend u with
  | Some (Vec b) => VecBackend.extensionPath b
  | Some (Vss b) => VssBackend.extensionPath b
  | None => None
  end.

Definition ensureTable (env : Env) (d : Z) (u : t) (db : Database) : t * Database :=
  match activeBackend u with
  | Some (Vec b) =>
      let '(b', db') := VecBackend.ensureTable env d b db in
      ({| activeBackend := Some (Vec b') |}, db')
  | Some (Vss b) =>
      let '(b', db') := VssBackend.ensureTable env d b db in
      ({| activeBackend := Some (Vss b') |}, db')
  | None => (u, db)
  end.

Definition upsert (env : Env) (id : Z) (v : Float32Array) (u : t) (db : Database)
    : completion unit * (t * Database) :=
  match activeBackend u with
  | Some (Vec b) =>
      let '(c, db') := VecBackend.upsert env id v b db in (c, (u, db'))
  | Some (Vss b) =>
      let '(c, (b', db')) := VssBackend.upsert env id v b db in
      (c, ({| activeBackend := Some (Vss b') |}, db'))
  | None => (Normal tt, (u, db))
  end.

(** [this.activeBackend?.queryNearest(query, topk) ?? []] *)
Definition queryNearest (env : Env) (query : Float32Array) (topk : Z) (u : t)
    (db : Database) : list Hit * Database :=
  match activeBackend u with
  | Some (Vec b) => VecBackend.queryNearest env query topk b db
  | Some (Vss b) => VssBackend.queryNearest env query topk b db
  | None => ([], db)
  end.

(** [this.activeBackend?.count() ?? 0] *)
Definition count (env : Env) (u : t) (db : Database) : Z * Database :=
  match activeBackend u with
  | Some (Vec b) => VecBackend.count env b db
  | Some (Vss b) => VssBackend.count env b db
  | None => (0, db)
  end.

End UnifiedVectorBackend.

(** ** HybridSearchDatabase.ts and its schema *)

Module HybridSearchDatabase.

(** [kind TEXT CHECK(kind IN ('function','method','class','interface','type'))] *)
Inductive Kind : Type := KFunction | KMethod | KClass | KInterface | KType.

Definition kind_name (k : Kind) : string :=
  match k with
  | KFunction => "function" | KMethod => "method" | KClass => "class"
  | KInterface => "interface" | KType => "type"
  end.

Definition Kind_eqb (a b : Kind) : bool := String.eqb (kind_name a) (kind_name b).

Record CodeFile : Type := {
  cf_id : Z;
  cf_path : string;
  cf_sha256 : string
}.

Record CodeSymbol : Type := {
  cs_id : Z;
  cs_file_id : Z;
  cs_kind : Kind;
  cs_name : string;
  cs_start_byte : Z;
  cs_end_byte : Z;
  cs_start_line : Z;
  cs_end_line : Z;
  cs_signature : option string;
  cs_doc : option string;
  cs_parent_symbol : option string;
  cs_language : option string
}.

(** An element of the [symbols] argument of [indexFile]. *)
Record SymbolInput : Type := {
  kind : Kind;
  name : string;
  start_byte : Z;
  end_byte : Z;
  start_line : Z;
  end_line : Z;
  signature : option string;
  doc : option string;
  parent_symbol : option string;
  language : option string;
  embedding : option Float32Array
}.

Record FtsRow : Type := { fts_name : string; fts_doc : option string; fts_body : string }.

Record Tables : Type := {
  code_files : list CodeFile;
  code_symbols : list CodeSymbol;
  code_symbols_embedding : gmap Z Float32Array;
  code_symbols_fts : gmap Z FtsRow
}.

Definition empty_tables : Tables :=
  {| code_files := []; code_symbols := [];
     code_symbols_embedding := ∅; code_symbols_fts := ∅ |}.

(** The prepared statements of [initializeStatements] that write. *)
Inductive Write : Type :=
| UpsertFile (path sha : string)
| UpsertSymbol (file_id : Z) (s : SymbolInput)
| UpsertEmbedding (id : Z)
| UpsertFts (id : Z).

(** What lies outside the program: the digest, the statements the engine
    rejects, the full-text match with its [bm25] rank, and the vector
    search of the extension. *)
Record Host : Type := {
  sha256 : string -> string;
  write_error : Write -> Tables -> option string;
  fts_match : Tables -> string -> completion (list (Z * Q));
  vec_search : Tables -> Float32Array -> Z -> completion (list (Z * Q))
}.

Definition set_files (fs : list CodeFile) (t : Tables) : Tables :=
  {| code_files := fs; code_symbols := code_symbols t;
     code_symbols_embedding := code_symbols_embedding t;
     code_symbols_fts := code_symbols_fts t |}.

Definition set_symbols (ss : list CodeSymbol) (t : Tables) : Tables :=
  {| code_files := code_files t; code_symbols := ss;
     code_symbols_embedding := code_symbols_embedding t;
     code_symbols_fts := code_symbols_fts t |}.

Definition set_embedding (e : gmap Z Float32Array) (t : Tables) : Tables :=
  {| code_files := code_files t; code_symbols := code_symbols t;
     code_symbols_embedding := e;
     code_symbols_fts := code_symbols_fts t |}.

Definition set_fts (f : gmap Z FtsRow) (t : Tables) : Tables :=
  {| code_files := code_files t; code_symbols := code_symbols t;
     code_symbols_embedding := code_symbols_embedding t;
     code_symbols_fts := f |}.

Definition guarded {A} (h : Host) (w : Write) (run : Eff Tables A) : Eff Tables A :=
  fun t => match write_error h w t with
           | Some msg => (Throw msg, t)
           | None => run t
           end.

(** [x || null] on an optional string: the empty string is falsy. *)
Definition or_null (o : option string) : option string :=
  match o with
  | Some EmptyString => None
  | _ => o
  end.

(** [x || ''] *)
Definition or_empty (o : option string) : string :=
  match o with Some s => s | None => EmptyString end.

(** [INSERT INTO code_files(path, sha256, indexed_at) VALUES(?, ?, CURRENT_TIMESTAMP)
    ON CONFLICT(path) DO UPDATE SET sha256 = excluded.sha256, ... RETURNING id] *)
Definition upsertFile (h : Host) (path sha : string) : Eff Tables Z :=
  guarded h (UpsertFile path sha)
    (fun t =>
       match List.find (fun f => String.eqb (cf_path f) path) (code_files t) with
       | Some f =>
           (Normal (cf_id f),
            set_files (map (fun g => if String.eqb (cf_path g) path
                                     then {| cf_id := cf_id g; cf_path := cf_path g;
                                             cf_sha256 := sha |}
                                     else g) (code_files t)) t)
       | None =>
           let id := next_rowid (map cf_id (code_files t)) in
           (Normal id,
            set_files (code_files t ++ [{| cf_id := id; cf_path := path; cf_sha256 := sha |}]) t)
       end).

(** The columns of [UNIQUE(file_id, name, kind, start_byte)]. *)
Definition same_key (file_id : Z) (s : SymbolInput) (r : CodeSymbol) : bool :=
  (cs_file_id r =? file_id) && String.eqb (cs_name r) (name s)
  && Kind_eqb (cs_kind r) (kind s) && (cs_start_byte r =? start_byte s).

(** The [DO UPDATE SET] of [upsertSymbol]: neither the key nor
    [start_line] is written. *)
Definition update_symbol (s : SymbolInput) (r : CodeSymbol) : CodeSymbol :=
  {| cs_id := cs_id r; cs_file_id := cs_file_id r; cs_kind := cs_kind r;
     cs_name := cs_name r; cs_start_byte := cs_start_byte r;
     cs_end_byte := end_byte s;
     cs_start_line := cs_start_line r;
     cs_end_line := end_line s;
     cs_signature := or_null (signature s);
     cs_doc := coalesce (or_null (doc s)) (cs_doc r);
     cs_parent_symbol := or_null (parent_symbol s);
     cs_language := or_null (language s) |}.

Definition new_symbol (id file_id : Z) (s : SymbolInput) : CodeSymbol :=
  {| cs_id := id; cs_file_id := file_id; cs_kind := kind s;
     cs_name := name s; cs_start_byte := start_byte s;
     cs_end_byte := end_byte s;
     cs_start_line := start_line s;
     cs_end_line := end_line s;
     cs_signature := or_null (signature s);
     cs_doc := or_null (doc s);
     cs_parent_symbol := or_null (parent_symbol s);
     cs_language := or_null (language s) |}.

(** The triggers [code_symbols_ai] and [code_symbols_au]: the full-text
    row of the symbol is rewritten with an empty body. *)
Definition fts_trigger (r : CodeSymbol) (t : Tables) : Tables :=
  set_fts (<[cs_id r := {| fts_name := cs_name r; fts_doc := cs_doc r;
                           fts_body := EmptyString |}]> (code_symbols_fts t)) t.

(** [INSERT INTO code_symbols(...) VALUES(...)
    ON CONFLICT(file_id, name, kind, start_byte) DO UPDATE SET ... RETURNING id] *)
Definition upsertSymbol (h : Host) (file_id : Z) (s : SymbolInput) : Eff Tables Z :=
  guarded h (UpsertSymbol file_id s)
    (fun t =>
       match List.find (same_key file_id s) (code_symbols t) with
       | Some r =>
           (Normal (cs_id r),
            fts_trigger (update_symbol s r)
              (set_symbols (map (fun r' => if same_key file_id s r'
                                           then update_symbol s r' else r')
                                (code_symbols t)) t))
       | None =>
           let id := next_rowid (map cs_id (code_symbols t)) in
           (Normal id,
            fts_trigger (new_symbol id file_id s)
              (set_symbols (code_symbols t ++ [new_symbol id file_id s]) t))
       end).

(** [INSERT INTO code_symbols_embedding(id, embedding) VALUES(?, ?)
    ON CONFLICT(id) DO UPDATE SET embedding = excluded.embedding] *)
Definition upsertEmbedding (h : Host) (id : Z) (e : Float32Array) : Eff Tables unit :=
  guarded h (UpsertEmbedding id)
    (fun t => (Normal tt, set_embedding (<[id := e]> (code_symbols_embedding t)) t)).

(** [INSERT INTO code_symbols_fts(rowid, name, doc, body) VALUES(?, ?, ?, ?)
    ON CONFLICT(rowid) DO UPDATE SET ...] *)
Definition upsertFts (h : Host) (id : Z) (nm dc body : string) : Eff Tables unit :=
  guarded h (UpsertFts id)
    (fun t => (Normal tt,
               set_fts (<[id := {| fts_name := nm; fts_doc := Some dc; fts_body := body |}]>
                          (code_symbols_fts t)) t)).

(** The statements of [initializeStatements], in the order it prepares
    them. *)
Inductive Statement : Type :=
| UpsertFileStmt
| UpsertSymbolStmt
| UpsertEmbeddingStmt
| UpsertFtsStmt
| HybridSearchStmt.

Definition statements : list Statement :=
  [UpsertFileStmt; UpsertSymbolStmt; UpsertEmbeddingStmt; UpsertFtsStmt; HybridSearchStmt].

(** [db.prepare(sql)] compiles the statement against the schema the
    database has at that time; [prepare_error] is the message of the
    engine when it rejects the statement. *)
Fixpoint prepare_all (prepare_error : Statement -> option string) (l : list Statement)
    : completion unit :=
  match l with
  | [] => Normal tt
  | s :: rest =>
      match prepare_error s with
      | Some msg => Throw msg
      | None => prepare_all prepare_error rest
      end
  end.

Definition initializeStatements (prepare_error : Statement -> option string)
    : completion unit :=
  prepare_all prepare_error statements.

(** [new HybridSearchDatabase(dbPath)]: the constructor opens the
    database and calls [initializeStatements] at once; the migration is
    applied by [initialize], which can only be called on the handle the
    constructor returns. *)
Definition new (prepare_error : Statement -> option string) : completion unit :=
  initializeStatements prepare_error.

(** [content.slice(a, b)] on a string; the indices count characters of
    one byte, as the UTF-16 units of an ASCII content are. *)
Definition String_slice (s : string) (a b : Z) : string :=
  let len := Z.of_nat (String.length s) in
  let a' := clamp_index len a in
  let b' := clamp_index len b in
  if a' <? b' then String.substring (Z.to_nat a') (Z.to_nat (b' - a')) s else EmptyString.

(** One turn of the loop of [indexFile]. *)
Definition index_symbol (h : Host) (content : string) (fileId : Z) (s : SymbolInput)
    : Eff Tables unit :=
  symbolId <- upsertSymbol h fileId s ;;
  _ <- match embedding s with
       | Some e => upsertEmbedding h symbolId e
       | None => ret tt
       end ;;
  upsertFts h symbolId (name s) (or_empty (doc s))
    (String_slice content (start_byte s) (Z.min (end_byte s) (start_byte s + 2000))).

Fixpoint index_symbols (h : Host) (content : string) (fileId : Z)
    (symbols : list SymbolInput) (symbolCount : Z) : Eff Tables Z :=
  match symbols with
  | [] => ret symbolCount
  | s :: rest =>
      _ <- index_symbol h content fileId s ;;
      index_symbols h content fileId rest (symbolCount + 1)
  end.

(** [db.transaction(fn)()]: a throw inside [fn] rolls the tables back and
    is thrown again. *)
Definition transaction {A} (fn : Eff Tables A) : Eff Tables A :=
  fun t => match fn t with
           | (Normal a, t') => (Normal a, t')
           | (Throw e, _) => (Throw e, t)
           end.

Definition indexFile (h : Host) (filePath content : string)
    (symbols : list SymbolInput) : Eff Tables Z :=
  transaction
    (fileId <- upsertFile h filePath (sha256 h content) ;;
     index_symbols h content fileId symbols 0).

(** The symbols the tables hold for a path. *)
Definition symbols_of (path : string) (t : Tables) : list CodeSymbol :=
  List.filter (fun r => existsb (fun f => (cf_id f =? cs_file_id r) && String.eqb (cf_path f) path)
                     (code_files t))
         (code_symbols t).

(** A row of a search; a score that is [NULL] in SQL is [None]. *)
Record HybridSearchResult : Type := {
  id : Z;
  r_name : string;
  r_kind : Kind;
  path : string;
  r_start_line : Z;
  r_end_line : Z;
  r_signature : option string;
  r_doc : option string;
  text_score : option Q;
  vec_score : option Q;
  hybrid_score : option Q
}.

(** [1.0/(1.0+x)] in SQL: a division by zero is [NULL]. *)
Definition sql_norm (x : Q) : option Q :=
  if Qeq_bool (1 + x) 0 then None else Some (1 / (1 + x))%Q.

(** [COALESCE(x, 0.0)] *)
Definition coalesce0 (x : option Q) : Q :=
  match x with Some q => q | None => 0%Q end.

(** [LEFT JOIN hits h ON h.id = s.id]: the matching rows, or one row of
    [NULL]s. *)
Definition left_join (sid : Z) (hits : list (Z * option Q)) : list (option Q) :=
  match List.filter (fun hrow => fst hrow =? sid) hits with
  | [] => [None]
  | l => map snd l
  end.

(** [ORDER BY score DESC], stable. *)
Fixpoint insert_desc {A} (score : A -> Q) (x : A) (l : list A) : list A :=
  match l with
  | [] => [x]
  | y :: l' => if Qle_bool (score y) (score x) then x :: l
               else y :: insert_desc score x l'
  end.

Definition order_desc {A} (score : A -> Q) (l : list A) : list A :=
  fold_right (insert_desc score) [] l.

(** The order of SQL on values that may be [NULL]: [NULL] is below every
    number. *)
Definition null_leb (a b : option Q) : bool :=
  match a, b with
  | None, _ => true
  | Some _, None => false
  | Some x, Some y => Qle_bool x y
  end.

(** [ORDER BY score DESC] on a score that may be [NULL], stable. *)
Fixpoint insert_desc_null {A} (score : A -> option Q) (x : A) (l : list A) : list A :=
  match l with
  | [] => [x]
  | y :: l' => if null_leb (score y) (score x) then x :: l
               else y :: insert_desc_null score x l'
  end.

Definition order_desc_null {A} (score : A -> option Q) (l : list A) : list A :=
  fold_right (insert_desc_null score) [] l.

(** [ORDER BY raw] ascending, stable. *)
Definition text_hits (rows : list (Z * Q)) (limit : Z) : list (Z * Q) :=
  sql_limit limit (order_by_distance rows).

Definition text_norm (hits : list (Z * Q)) : list (Z * option Q) :=
  map (fun hrow => (fst hrow, sql_norm (snd hrow))) hits.

Definition vec_norm (hits : list (Z * Q)) : list (Z * option Q) :=
  map (fun hrow => (fst hrow, sql_norm (snd hrow))) hits.

(** [WHERE (? IS NULL OR s.kind = ?)] *)
Definition kind_filter (k1 k2 : option string) (s : CodeSymbol) : bool :=
  match k1, k2 with
  | None, _ => true
  | Some _, Some k => String.eqb (kind_name (cs_kind s)) k
  | Some _, None => false
  end.

(** The [joined] table expression. *)
Definition joined (t : Tables) (tn vn : list (Z * option Q)) (alpha1 alpha2 : Q)
    (k1 k2 : option string) : list HybridSearchResult :=
  flat_map (fun s =>
    flat_map (fun f =>
      flat_map (fun ts =>
        flat_map (fun vs =>
          if kind_filter k1 k2 s then
            [{| id := cs_id s; r_name := cs_name s; r_kind := cs_kind s;
                path := cf_path f;
                r_start_line := cs_start_line s; r_end_line := cs_end_line s;
                r_signature := cs_signature s; r_doc := cs_doc s;
                text_score := Some (coalesce0 ts);
                vec_score := Some (coalesce0 vs);
                hybrid_score :=
                  Some (alpha1 * coalesce0 vs + (1 - alpha2) * coalesce0 ts)%Q |}]
          else [])
          (left_join (cs_id s) vn))
        (left_join (cs_id s) tn))
      (List.filter (fun f => cf_id f =? cs_file_id s) (code_files t)))
    (code_symbols t).

(** [hybridSearchStmt.all(query, textLimit, embedding, vecLimit, alpha, alpha,
    kind, kind, topK)] *)
Definition hybridSearchStmt (h : Host) (t : Tables) (query : string) (textLimit : Z)
    (emb : Float32Array) (vecLimit : Z) (alpha1 alpha2 : Q)
    (k1 k2 : option string) (topK : Z) : completion (list HybridSearchResult) :=
  match fts_match h t query with
  | Throw e => Throw e
  | Normal trows =>
      match vec_search h t emb vecLimit with
      | Throw e => Throw e
      | Normal vrows =>
          Normal (sql_limit topK
                    (order_desc_null hybrid_score
                       (joined t (text_norm (text_hits trows textLimit)) (vec_norm vrows)
                               alpha1 alpha2 k1 k2)))
      end
  end.

Record SearchOptions : Type := {
  topK : option Z;
  alpha : option Q;
  filterKind : option string;
  limitMultiplier : option Z
}.

Definition collapse_char (c : ascii) : ascii :=
  if existsb (Ascii.eqb c) ["034" ; "'" ; "`" ; "*" ; "^" ; "~"]%char then " "%char else c.

Fixpoint map_string (f : ascii -> ascii) (s : string) : string :=
  match s with
  | EmptyString => EmptyString
  | String c s' => String (f c) (map_string f s')
  end.

(** [s.replace(/\s+/g, ' ')] *)
Fixpoint collapse_spaces (s : string) : string :=
  match s with
  | EmptyString => EmptyString
  | String c s' =>
      if is_space c then
        match s' with
        | String d _ => if is_space d then collapse_spaces s'
                        else String " " (collapse_spaces s')
        | EmptyString => String " " EmptyString
        end
      else String c (collapse_spaces s')
  end.

(** [s.split(' ').join(' AND ')] *)
Fixpoint join_and (s : string) : string :=
  match s with
  | EmptyString => EmptyString
  | String c s' => if Ascii.eqb c " " then " AND " +:+ join_and s'
                   else String c (join_and s')
  end.

Definition sanitizeQuery (query : string) : string :=
  let sanitized := trim (collapse_spaces (map_string collapse_char query)) in
  if includes sanitized " " then join_and sanitized else sanitized.

(** [o ?? d], and a destructuring default. *)
Definition value_or {A} (o : option A) (d : A) : A :=
  match o with Some a => a | None => d end.

(** The [try] of [hybridSearch]. *)
Definition hybridSearch_try (h : Host) (t : Tables) (query : string)
    (queryEmbedding : Float32Array) (options : SearchOptions)
    : completion (list HybridSearchResult) :=
  let topK := value_or (topK options) 20 in
  let alpha := value_or (alpha options) (6 # 10)%Q in
  let limitX := topK * value_or (limitMultiplier options) 8 in
  hybridSearchStmt h t (sanitizeQuery query) limitX queryEmbedding limitX
    alpha alpha (filterKind options) (filterKind options) topK.

(** The rows of the statement of [textOnlySearch] before they are
    ordered: a hit of the full-text match, its symbol and the file of the
    symbol.  Both scores are [1.0/(1.0+bm25)], and [vec_score] is 0.0. *)
Definition text_only_rows (t : Tables) (trows : list (Z * Q)) (k1 k2 : option string)
    : list HybridSearchResult :=
  flat_map (fun hit =>
    flat_map (fun s =>
      flat_map (fun f =>
        if kind_filter k1 k2 s then
          [{| id := cs_id s; r_name := cs_name s; r_kind := cs_kind s;
              path := cf_path f;
              r_start_line := cs_start_line s; r_end_line := cs_end_line s;
              r_signature := cs_signature s; r_doc := cs_doc s;
              text_score := sql_norm (snd hit);
              vec_score := Some 0%Q;
              hybrid_score := sql_norm (snd hit) |}]
        else [])
        (List.filter (fun f => cf_id f =? cs_file_id s) (code_files t)))
      (List.filter (fun s => cs_id s =? fst hit) (code_symbols t)))
    trows.

(** [textOnlyStmt.all(query, kind, kind, topK)] *)
Definition textOnlyStmt (h : Host) (t : Tables) (query : string)
    (k1 k2 : option string) (topK : Z) : completion (list HybridSearchResult) :=
  match fts_match h t query with
  | Throw e => Throw e
  | Normal trows =>
      Normal (sql_limit topK (order_desc_null hybrid_score (text_only_rows t trows k1 k2)))
  end.

(** [textOnlySearch(query, { topK, filterKind })]: the rows of the
    statement, or none when it throws.  The statement is given
    [filterKind] itself, and an [undefined] is bound as [NULL]. *)
Definition textOnlySearch (h : Host) (t : Tables) (query : string) (topK : option Z)
    (filterKind : option string) : list HybridSearchResult :=
  match textOnlyStmt h t (sanitizeQuery query) filterKind filterKind
          (value_or topK 20) with
  | Normal rows => rows
  | Throw _ => []
  end.

(** [hybridSearch(query, queryEmbedding, options)]: the rows of the hybrid
    statement, and when it throws those of the text-only search, which is
    given [filterKind || undefined]. *)
Definition hybridSearch (h : Host) (t : Tables) (query : string)
    (queryEmbedding : Float32Array) (options : SearchOptions)
    : list HybridSearchResult :=
  match hybridSearch_try h t query queryEmbedding options with
  | Normal rows => rows
  | Throw _ =>
      textOnlySearch h t query (Some (value_or (topK options) 20))
        (or_null (filterKind options))
  end.

End HybridSearchDatabase.

(** ** SearchCode.ts: the re-ranking of [handleSearchCode] *)

Module SearchCode.

(** A row of [searchMemories]. *)
Record Memory : Type := {
  id : Z;
  content : string;
  relevance : option Q
}.

Definition set_relevance (q : Q) (r : Memory) : Memory :=
  {| id := id r; content := content r; relevance := Some q |}.

(** [vssKnn.forEach(row => vssMap.set(row.id, row.distance))] *)
Definition vssMap_of (vssKnn : list (Z * Q)) : gmap Z Q :=
  foldl (fun m row => <[fst row := snd row]> m) ∅ vssKnn.

(** [x || d] on an optional number: [undefined] and [0] are falsy. *)
Definition or_else (x : option Q) (d : Q) : Q :=
  match x with
  | Some v => if Qeq_bool v 0 then d else v
  | None => d
  end.

(** [Math.max(0, 1 / (1 + vDistance))]; at the distance -1, where
    JavaScript divides by zero, the quotient is 0 here. *)
Definition cosineSim (vDistance : Q) : Q := Qmax 0 (1 / (1 + vDistance)).

Definition fusedScore (vssMap : gmap Z Q) (r : Memory) : Q :=
  let vDistance := or_else (vssMap !! id r) 999 in
  let bm25Score := or_else (relevance r) 0 in
  ((5 # 10) * bm25Score + (5 # 10) * cosineSim vDistance)%Q.

Definition scored (vssKnn : list (Z * Q)) (results : list Memory) : list Memory :=
  map (fun r => set_relevance (fusedScore (vssMap_of vssKnn) r) r) results.

Definition sort_by_relevance (l : list Memory) : list Memory :=
  HybridSearchDatabase.order_desc (fun r => or_else (relevance r) 0) l.

(** The [if (hybrid)] block once the query vector and the neighbours are
    known: fuse and sort when there are neighbours, truncate otherwise. *)
Definition rerank (topk : Z) (vssKnn : list (Z * Q)) (results : list Memory) : list Memory :=
  let take := Z.min topk (Z.of_nat (length results)) in
  match vssKnn with
  | [] => slice results 0 take
  | _ => slice (sort_by_relevance (scored vssKnn results)) 0 take
  end.

End SearchCode.

(** ** Regular expressions anchored at the start of the input

    A pattern maps the input to the ways it can match a prefix, each with
    what it captured and the rest of the input, in the order a
    backtracking matcher tries them; the match is the first one. *)

Module Regex.

Definition Re (A : Type) : Type := string -> list (A * string).

Definition eps : Re unit := fun s => [(tt, s)].

Definition lit (p : string) : Re unit :=
  fun s => if startsWith s p then [(tt, drop (String.length p) s)] else [].

Definition bind {A B} (r : Re A) (k : A -> Re B) : Re B :=
  fun s => flat_map (fun m => k (fst m) (snd m)) (r s).

Definition pure {A} (a : A) : Re A := fun s => [(a, s)].

Definition alt {A} (r1 r2 : Re A) : Re A := fun s => r1 s ++ r2 s.

(** [(r)?], greedy. *)
Definition opt (r : Re unit) : Re unit := alt r eps.

(** [c*] for a character class, greedy: the longest run first. *)
Fixpoint star (cls : ascii -> bool) (s : string) : list (string * string) :=
  match s with
  | String c s' =>
      if cls c
      then map (fun m => (String c (fst m), snd m)) (star cls s') ++ [(EmptyString, s)]
      else [(EmptyString, s)]
  | EmptyString => [(EmptyString, s)]
  end.

(** [c+] *)
Definition plus (cls : ascii -> bool) : Re string :=
  fun s => match s with
           | String c s' =>
               if cls c then map (fun m => (String c (fst m), snd m)) (star cls s') else []
           | EmptyString => []
           end.

Definition first_match {A} (r : Re A) (s : string) : option A :=
  match r s with
  | m :: _ => Some (fst m)
  | [] => None
  end.

Definition then_ {A} (r : Re unit) (k : Re A) : Re A := bind r (fun _ => k).

(** [kw\s+] *)
Definition keyword (kw : string) : Re unit :=
  then_ (lit kw) (bind (plus is_space) (fun _ => pure tt)).

End Regex.

(** ** TreeSitterLoader.ts: the syntax-tree tier *)

Inductive SymbolType : Type :=
| TFunction | TClass | TMethod | TVariable | TInterface | TType | TImport.

Module TreeSitterLoader.

(** A node of the tree the parser returns. *)
#[warnings="-register-all"]
Inductive SyntaxNode : Type :=
| Node (type : string) (startRow endRow : Z) (text : string) (children : list SyntaxNode).

Definition node_type (n : SyntaxNode) : string :=
  match n with Node ty _ _ _ _ => ty end.

Definition node_text (n : SyntaxNode) : string :=
  match n with Node _ _ _ tx _ => tx end.

Definition node_children (n : SyntaxNode) : list SyntaxNode :=
  match n with Node _ _ _ _ cs => cs end.

Record SymbolInfo : Type := {
  name : string;
  type : SymbolType;
  startLine : Z;
  endLine : Z;
  content : string;
  signature : option string;
  docstring : option string;
  parent : option string;
  language : string;
  filePath : string
}.

(** [extractNameFromTSNode] *)
Definition extractNameFromTSNode (n : SyntaxNode) : option string :=
  node_text <$>
    List.find (fun c => String.eqb (node_type c) "identifier"
                        || String.eqb (node_type c) "type_identifier")
              (node_children n).

(** [extractNameFromPythonNode] *)
Definition extractNameFromPythonNode (n : SyntaxNode) : option string :=
  node_text <$>
    List.find (fun c => String.eqb (node_type c) "identifier") (node_children n).

(** [line.indexOf(c)], or [-1]. *)
Fixpoint indexOf (c : ascii) (s : string) : Z :=
  match s with
  | EmptyString => -1
  | String d s' =>
      if Ascii.eqb d c then 0
      else let i := indexOf c s' in if i <? 0 then -1 else i + 1
  end.

Definition is_ts (language : string) : bool :=
  String.eqb language "typescript" || String.eqb language "javascript".

(** [extractSignatureFromNode] *)
Definition extractSignatureFromNode (startRow : Z) (lines : list string)
    (language : string) : string :=
  if Z.of_nat (length lines) <=? startRow then EmptyString
  else
    let line := nth (Z.to_nat startRow) lines EmptyString in
    if is_ts language then
      let braceIndex := indexOf "{" line in
      if 0 <? braceIndex
      then trim (String.substring 0 (Z.to_nat braceIndex) line) else trim line
    else if String.eqb language "python" then
      let colonIndex := indexOf ":" line in
      if 0 <? colonIndex
      then trim (String.substring 0 (Z.to_nat (colonIndex + 1)) line) else trim line
    else trim line.

(** [x || y] on optional strings: the empty string is falsy. *)
Definition str_or (x y : option string) : option string :=
  match x with
  | Some EmptyString | None => y
  | Some _ => x
  end.

(** The name, the kind and the parent the [switch] of
    [extractSymbolFromNode] settles on. *)
Definition classify (n : SyntaxNode) (language : string) (parent : option string)
    : option string * option SymbolType * option string :=
  let ty := node_type n in
  if is_ts language then
    if String.eqb ty "function_declaration" then
      (extractNameFromTSNode n, Some TFunction, parent)
    else if String.eqb ty "class_declaration" then
      (extractNameFromTSNode n, Some TClass, str_or (extractNameFromTSNode n) parent)
    else if String.eqb ty "method_definition" then
      (extractNameFromTSNode n, Some TMethod, parent)
    else if String.eqb ty "interface_declaration" then
      (extractNameFromTSNode n, Some TInterface, parent)
    else if String.eqb ty "type_alias_declaration" then
      (extractNameFromTSNode n, Some TType, parent)
    else (None, None, parent)
  else if String.eqb language "python" then
    if String.eqb ty "function_definition" then
      (extractNameFromPythonNode n,
       Some (match str_or parent None with Some _ => TMethod | None => TFunction end),
       parent)
    else if String.eqb ty "class_definition" then
      (extractNameFromPythonNode n, Some TClass,
       str_or (extractNameFromPythonNode n) parent)
    else (None, None, parent)
  else (None, None, parent).

(** [extractSymbolFromNode]: the symbols it pushes for one node. *)
Definition extractSymbolFromNode (n : SyntaxNode) (lines : list string)
    (language filePath : string) (parent : option string) : list SymbolInfo :=
  match n with
  | Node ty startRow endRow text _ =>
      let len := Z.of_nat (length lines) in
      if (startRow <? 0) || (len <=? startRow) || (endRow <? 0) || (len <=? endRow)
      then []
      else
        match classify n language parent with
        | (Some nm, Some st, parent') =>
            if String.eqb nm EmptyString then []
            else [{| name := nm; type := st; startLine := startRow; endLine := endRow;
                     content := text;
                     signature := Some (extractSignatureFromNode startRow lines language);
                     docstring := None;
                     parent := parent';
                     language := language; filePath := filePath |}]
        | _ => []
        end
  end.

(** [traverseTreeSitterNode]: the node, then its children in order; the
    [parent] handed to the children is the caller's. *)
Fixpoint traverseTreeSitterNode (n : SyntaxNode) (lines : list string)
    (language filePath : string) (parent : option string) : list SymbolInfo :=
  extractSymbolFromNode n lines language filePath parent
  ++ match n with
     | Node _ _ _ _ children =>
         flat_map (fun c => traverseTreeSitterNode c lines language filePath parent)
                  children
     end.

(** [extractSymbols(filePath, content)], given the language of the file
    ([getLanguageForFile]) and what the parser of that language returns:
    a tree, no tree, or an exception. *)
Definition extractSymbols (language : option string)
    (parse : string -> completion (option SyntaxNode))
    (filePath content : string) : list SymbolInfo :=
  match language with
  | None => []
  | Some lang =>
      match parse content with
      | Normal (Some root) =>
          traverseTreeSitterNode root (split_newline content) lang filePath None
      | Normal None => []
      | Throw _ => []
      end
  end.

End TreeSitterLoader.

(** ** EnhancedCodeIndexer.ts: the heuristic and the line-window tiers *)

Module EnhancedCodeIndexer.

Import Regex.

(** A symbol found by the regular expressions; its lines are 1-based. *)
Record Symbol : Type := {
  name : string;
  type : SymbolType;
  startLine : Z;
  endLine : Z;
  content : string;
  signature : option string;
  docstring : option string;
  parent : option string
}.

Inductive ParseMode : Type := ast | heuristic | fallback.

Record EnhancedCodeChunkMetadata : Type := {
  file : string;
  language : option string;
  lineStart : Z;
  lineEnd : Z;
  symbolName : option string;
  symbolType : option SymbolType;
  meta_signature : option string;
  meta_docstring : option string;
  parentSymbol : option string;
  isTreeSitterParsed : bool;
  parseMode : ParseMode;
  tags : list string
}.

Record Chunk : Type := { text : string; meta : EnhancedCodeChunkMetadata }.

Record EnhancedIndexOptions : Type := {
  maxChunkLines : option Z;
  useTreeSitter : option bool;
  symbolsOnly : option bool;
  includeDocstrings : option bool;
  includeSignatures : option bool;
  astFallback : option bool
}.

(** [/^(export\s+)?(async\s+)?function\s+(\w+)/] *)
Definition funcMatch : Re string :=
  then_ (opt (keyword "export")) (then_ (opt (keyword "async"))
    (then_ (keyword "function") (plus is_word))).

(** [/^(export\s+)?(abstract\s+)?class\s+(\w+)/] *)
Definition classMatch : Re string :=
  then_ (opt (keyword "export")) (then_ (opt (keyword "abstract"))
    (then_ (keyword "class") (plus is_word))).

(** [/^(export\s+)?interface\s+(\w+)/] *)
Definition interfaceMatch : Re string :=
  then_ (opt (keyword "export")) (then_ (keyword "interface") (plus is_word)).

(** [/^(public|private|protected|static)?\s*(async\s+)?(\w+)\s*\(/] *)
Definition methodMatch : Re string :=
  then_ (opt (alt (lit "public") (alt (lit "private") (alt (lit "protected") (lit "static")))))
    (then_ (bind (star is_space) (fun _ => pure tt))
       (then_ (opt (keyword "async"))
          (bind (plus is_word) (fun w =>
             then_ (bind (star is_space) (fun _ => pure tt))
               (then_ (lit "(") (pure w)))))).

(** [/^def\s+(\w+)/] *)
Definition defMatch : Re string := then_ (keyword "def") (plus is_word).

(** [/^class\s+(\w+)/] *)
Definition pyClassMatch : Re string := then_ (keyword "class") (plus is_word).

(** One line of [findBlockEnd]: [None] when the brace that closes the
    block is on this line, the counters after the line otherwise. *)
Fixpoint scan_braces (line : string) (braceCount : Z) (inBlock : bool)
    : option (Z * bool) :=
  match line with
  | EmptyString => Some (braceCount, inBlock)
  | String c rest =>
      if Ascii.eqb c "{" then scan_braces rest (braceCount + 1) true
      else if Ascii.eqb c "}" then
        if inBlock && (braceCount - 1 =? 0) then None
        else scan_braces rest (braceCount - 1) inBlock
      else scan_braces rest braceCount inBlock
  end.

Fixpoint find_close (rest : list string) (i : Z) (braceCount : Z) (inBlock : bool)
    : option Z :=
  match rest with
  | [] => None
  | line :: rest' =>
      match scan_braces line braceCount inBlock with
      | None => Some i
      | Some (bc, ib) => find_close rest' (i + 1) bc ib
      end
  end.

(** [findBlockEnd(lines, startIndex)] *)
Definition findBlockEnd (lines : list string) (startIndex : Z) : Z :=
  match find_close (skipn (Z.to_nat startIndex) lines) startIndex 0 false with
  | Some i => i
  | None => Z.min (startIndex + 50) (Z.of_nat (length lines) - 1)
  end.

Definition block (lines : list string) (i endLine : Z) : string :=
  join_lines (slice lines i (endLine + 1)).

Definition signature_of (trimmed : string) : option string :=
  Some (trim (before_char "{" trimmed)).

Definition mk_symbol (lines : list string) (nm : string) (ty : SymbolType)
    (i endLine : Z) (sig : option string) : Symbol :=
  {| name := nm; type := ty; startLine := i + 1; endLine := endLine + 1;
     content := block lines i endLine; signature := sig;
     docstring := None; parent := None |}.

Definition control_words : list string := ["if"; "for"; "while"; "switch"; "catch"].

(** The body of the loop of [extractTypeScriptSymbols] for line [i]. *)
Definition typescript_line (lines : list string) (i : Z) (line : string) : list Symbol :=
  let trimmed := trim line in
  match first_match funcMatch trimmed with
  | Some nm =>
      [mk_symbol lines nm TFunction i (findBlockEnd lines i) (signature_of trimmed)]
  | None =>
      match first_match classMatch trimmed with
      | Some nm => [mk_symbol lines nm TClass i (findBlockEnd lines i) None]
      | None =>
          match first_match interfaceMatch trimmed with
          | Some nm => [mk_symbol lines nm TInterface i (findBlockEnd lines i) None]
          | None =>
              match first_match methodMatch trimmed with
              | Some nm =>
                  if negb (includes trimmed "function") && negb (includes trimmed "=")
                     && negb (existsb (String.eqb nm) control_words)
                  then [mk_symbol lines nm TMethod i (findBlockEnd lines i)
                          (signature_of trimmed)]
                  else []
              | None => []
              end
          end
      end
  end.

(** A [for] loop over the lines, with the index of the current line. *)
Fixpoint for_lines {A} (body : Z -> string -> list A) (rest : list string) (i : Z)
    : list A :=
  match rest with
  | [] => []
  | line :: rest' => body i line ++ for_lines body rest' (i + 1)
  end.

(** [extractTypeScriptSymbols(lines, symbols)]: what it pushes. *)
Definition extractTypeScriptSymbols (lines : list string) : list Symbol :=
  for_lines (typescript_line lines) lines 0.

(** [getIndentLevel] *)
Fixpoint getIndentLevel (line : string) : Z :=
  match line with
  | String c rest =>
      if Ascii.eqb c " " then 1 + getIndentLevel rest
      else if Ascii.eqb c "009" then 4 + getIndentLevel rest
      else 0
  | EmptyString => 0
  end.

Fixpoint python_block_scan (rest : list string) (i startIndent : Z) : option Z :=
  match rest with
  | [] => None
  | line :: rest' =>
      if String.eqb (trim line) EmptyString then python_block_scan rest' (i + 1) startIndent
      else if getIndentLevel line <=? startIndent then Some (i - 1)
      else python_block_scan rest' (i + 1) startIndent
  end.

(** [findPythonBlockEnd(lines, startIndex)] *)
Definition findPythonBlockEnd (lines : list string) (startIndex : Z) : Z :=
  if Z.of_nat (length lines) <=? startIndex then startIndex
  else
    let startIndent := getIndentLevel (nth (Z.to_nat startIndex) lines EmptyString) in
    match python_block_scan (skipn (Z.to_nat (startIndex + 1)) lines)
            (startIndex + 1) startIndent with
    | Some e => e
    | None => Z.of_nat (length lines) - 1
    end.

Fixpoint inside_class_scan (before : list string) : bool :=
  match before with
  | [] => false
  | line :: rest =>
      if startsWith (trim line) "class " then true
      else if startsWith (trim line) "def " && (getIndentLevel line =? 0) then false
      else inside_class_scan rest
  end.

(** [isInsidePythonClass(lines, lineIndex)]: the lines above, nearest
    first. *)
Definition isInsidePythonClass (lines : list string) (lineIndex : Z) : bool :=
  inside_class_scan (rev (firstn (Z.to_nat lineIndex) lines)).

(** The body of the loop of [extractPythonSymbolsHeuristic] for line [i]. *)
Definition python_line (lines : list string) (i : Z) (line : string) : list Symbol :=
  let trimmed := trim line in
  match first_match defMatch trimmed with
  | Some nm =>
      [mk_symbol lines nm
         (if isInsidePythonClass lines i then TMethod else TFunction)
         i (findPythonBlockEnd lines i) (Some trimmed)]
  | None =>
      match first_match pyClassMatch trimmed with
      | Some nm => [mk_symbol lines nm TClass i (findPythonBlockEnd lines i) None]
      | None => []
      end
  end.

Definition extractPythonSymbolsHeuristic (lines : list string) : list Symbol :=
  for_lines (python_line lines) lines 0.

(** [extractSymbolsHeuristically(text, language, filePath)] *)
Definition extractSymbolsHeuristically (text : string) (language : option string)
    : list Symbol :=
  let lines := split_lines text in
  match language with
  | Some lang =>
      if String.eqb lang "typescript" || String.eqb lang "javascript"
      then extractTypeScriptSymbols lines
      else if String.eqb lang "python" then extractPythonSymbolsHeuristic lines
      else []
  | None => []
  end.

Definition type_name (t : SymbolType) : string :=
  match t with
  | TFunction => "function" | TClass => "class" | TMethod => "method"
  | TVariable => "variable" | TInterface => "interface" | TType => "type"
  | TImport => "import"
  end.

(** [generateHeuristicTags] *)
Definition generateHeuristicTags (s : Symbol) : list string :=
  [type_name (type s); "heuristic-parsed"]
  ++ match TreeSitterLoader.str_or (parent s) None with
     | Some p => ["nested"; "parent:" +:+ p]
     | None => ["top-level"]
     end.

(** The extraction tiers, to record which of them a call runs. *)
Inductive Tier : Type := AstTier | HeuristicTier | LineWindowTier.

(** What a chunking call does: the tiers it ran, in order, and its
    chunks; no chunks means that the call does not return. *)
Record Chunking : Type := {
  tiers : list Tier;
  chunks : option (list Chunk)
}.

(** The loop of [fallbackToHeuristicChunking]: [for (i = 0; i < n; i += maxLines)].
    It makes no progress when [maxLines < 1]; the fuel bounds the turns. *)
Fixpoint windows (fuel : nat) (relativeFile : string) (language : option string)
    (lines : list string) (i maxLines : Z) : option (list Chunk) :=
  if Z.of_nat (length lines) <=? i then Some []
  else
    match fuel with
    | O => None
    | S fuel' =>
        let stop := Z.min (i + maxLines) (Z.of_nat (length lines)) in
        match windows fuel' relativeFile language lines (i + maxLines) maxLines with
        | None => None
        | Some rest =>
            Some ({| text := join_lines (slice lines i stop);
                     meta := {| file := relativeFile; language := language;
                                lineStart := i + 1; lineEnd := stop;
                                symbolName := None; symbolType := None;
                                meta_signature := None; meta_docstring := None;
                                parentSymbol := None;
                                isTreeSitterParsed := false;
                                parseMode := heuristic;
                                tags := ["heuristic-chunk"] |} |} :: rest)
        end
    end.

(** [fallbackToHeuristicChunking]; [language] is [detectLanguage(fullPath)]
    and [relativeFile] the path relative to the project root. *)
Definition fallbackToHeuristicChunking (relativeFile : string) (language : option string)
    (text : string) (options : EnhancedIndexOptions) : Chunking :=
  let lines := split_lines text in
  let maxLines := HybridSearchDatabase.value_or (maxChunkLines options) 200 in
  {| tiers := [LineWindowTier];
     chunks := windows (length lines) relativeFile language lines 0 maxLines |}.

Definition chunk_of_symbol (relativeFile : string) (language : option string)
    (s : Symbol) : Chunk :=
  {| text := content s;
     meta := {| file := relativeFile; language := language;
                lineStart := startLine s; lineEnd := endLine s;
                symbolName := Some (name s); symbolType := Some (type s);
                meta_signature := signature s; meta_docstring := docstring s;
                parentSymbol := parent s;
                isTreeSitterParsed := false;
                parseMode := heuristic;
                tags := generateHeuristicTags s |} |}.

(** [enhancedHeuristicChunking] *)
Definition enhancedHeuristicChunking (relativeFile : string) (language : option string)
    (text : string) (options : EnhancedIndexOptions) : Chunking :=
  let symbols := extractSymbolsHeuristically text language in
  match symbols with
  | _ :: _ =>
      {| tiers := [HeuristicTier];
         chunks := Some (map (chunk_of_symbol relativeFile language) symbols) |}
  | [] =>
      let w := fallbackToHeuristicChunking relativeFile language text options in
      {| tiers := HeuristicTier :: tiers w; chunks := chunks w |}
  end.

(** [chunkFileWithTreeSitter]: it returns what [enhancedHeuristicChunking]
    returns, before the call of [treeSitter.extractSymbols]; the
    statements after that [return] never run.  [text] is what
    [readFileSync] read. *)
Definition chunkFileWithTreeSitter (relativeFile : string) (language : option string)
    (text : string) (options : EnhancedIndexOptions) : Chunking :=
  enhancedHeuristicChunking relativeFile language text options.

End EnhancedCodeIndexer.

(** ** What the statements below observe *)

(** The statements that read neighbours back. *)
Definition is_query (s : Stmt) : bool :=
  match s with
  | SelectKnnJoinItems _ _ _ _ | SelectKnn _ _ _ => true
  | _ => false
  end.

(** Between [db] and [db'] the statements [l] were sent, in that order,
    and none of them is a query. *)
Definition writes (db db' : Database) (l : list Stmt) : Prop :=
  journal db' = journal db ++ l /\ Forall (fun s => is_query s = false) l.

(** The sqlite-vec backend [b] went through library load and self-test
    between [db] and [db']. *)
Definition self_tested (db db' : Database) (b : VecBackend.t) : Prop :=
  VecBackend.loaded b = true /\ VecBackend.dim b = Some 384
  /\ exists p l, VecBackend.extensionPath b = Some p
       /\ writes db db' l
       /\ In (LoadExtension p) l
       /\ In (CreateVirtualTable "memory_vectors_vec" vec0 384) l
       /\ In (UpsertItemReturning "memory_items" "memory_999999") l
       /\ In (SelectCount "memory_vectors_vec") l.

(** The internal id the key-mapping table [t] gives to [key]. *)
Definition internal_id (db : Database) (t key : string) : option Z :=
  match items_tables db !! t with
  | Some rows => item_id <$> find_item key rows
  | None => None
  end.

(** Every key of the mapping table [t] is the key of an external id. *)
Definition external_keys (db : Database) (t : string) : Prop :=
  forall rows r, items_tables db !! t = Some rows -> In r rows ->
    exists e, 0 <= e < 10 ^ 21 /\ item_key r = VecBackend.memory_key e.

(** The statement would replace a row of a vector table: it writes a
    vector under an id the table already holds. *)
Definition replaces (s : Stmt) (db : Database) : bool :=
  match s with
  | InsertOrReplaceVector t i _ =>
      match vtables db !! t with
      | Some vt => existsb (fun r => fst r =? i) (vt_rows vt)
      | None => false
      end
  | _ => false
  end.

(** ** Environments and runs used as examples *)

Definition no_files (_ : string) : bool := false.
Definition zero_distance (_ _ : Float32Array) : Q := 0%Q.
Definition quiet_env : Env :=
  {| platform := "linux"; arch := "x64"; existsSync := no_files;
     native_error := fun _ _ => None; distance := zero_distance |}.
Definition strict_env : Env :=
  {| platform := "linux"; arch := "x64"; existsSync := no_files;
     native_error := fun s db =>
       match s with
       | InsertOrReplaceVector t _ v =>
           match vtables db !! t with
           | Some vt => if vt_dim vt =? Z.of_nat (length v) then None
                        else Some "Dimension mismatch for inserted vector"%string
           | None => None
           end
       | _ => None
       end;
     distance := zero_distance |}.

(** A loaded sqlite-vss backend with a table of dimension 3 and one row,
    then an upsert of a vector of length 2: the completion of that upsert,
    [isAvailable()] after it, and [count()] before and after. *)
Definition vss_wrong_dimension (env : Env) : completion unit * bool * Z * Z :=
  let '(b1, db1) :=
    VssBackend.ensureTable env 3
      (VssBackend.set_loaded true (VssBackend.new "memory_vectors_vss" None)) empty_db in
  let '(_, (b2, db2)) := VssBackend.upsert env 1 [1; 2; 3]%Q b1 db1 in
  let '(c, (b3, db3)) := VssBackend.upsert env 2 [1; 2]%Q b2 db2 in
  (c, VssBackend.isAvailable b3, fst (VssBackend.count env b2 db2),
   fst (VssBackend.count env b3 db3)).

(** [ensureTable(384)] then [ensureTable(128)] on a loaded backend: the
    recorded dimension after each call, and the dimension of the table. *)
Definition vec_two_dimensions : option Z * option Z * option Z :=
  let b0 := VecBackend.set_loaded true (VecBackend.new "memory_vectors_vec" None) in
  let '(b1, db1) := VecBackend.ensureTable quiet_env 384 b0 empty_db in
  let '(b2, db2) := VecBackend.ensureTable quiet_env 128 b1 db1 in
  (VecBackend.dim b1, VecBackend.dim b2,
   vt_dim <$> (vtables db2 !! VecBackend.table b2)).

Definition vss_two_dimensions : option Z * option Z * option Z :=
  let b0 := VssBackend.set_loaded true (VssBackend.new "memory_vectors_vss" None) in
  let '(b1, db1) := VssBackend.ensureTable quiet_env 384 b0 empty_db in
  let '(b2, db2) := VssBackend.ensureTable quiet_env 128 b1 db1 in
  (VssBackend.dim b1, VssBackend.dim b2,
   vt_dim <$> (vtables db2 !! VssBackend.table b2)).

(** An environment where every library file exists and loads, and the
    native side rejects the listed kind of statement. *)
Definition all_files (_ : string) : bool := true.

Definition rejects_tables_and_rows (s : Stmt) (_ : Database) : option string :=
  match s with
  | CreateVirtualTable _ _ _ | InsertOrReplaceVector _ _ _ => Some "no such module"%string
  | _ => None
  end.

Definition rejects_rows (s : Stmt) (_ : Database) : option string :=
  match s with
  | InsertOrReplaceVector _ _ _ => Some "disk I/O error"%string
  | _ => None
  end.

Definition rejects_rows_for_dimension (s : Stmt) (_ : Database) : option string :=
  match s with
  | InsertOrReplaceVector _ _ _ =>
      Some "Dimension mismatch: expected 768 dimensions"%string
  | _ => None
  end.

Definition win32_other_dimension_env : Env :=
  {| platform := "win32"; arch := "x64"; existsSync := all_files;
     native_error := rejects_rows_for_dimension; distance := zero_distance |}.

Definition linux_broken_env : Env :=
  {| platform := "linux"; arch := "x64"; existsSync := all_files;
     native_error := rejects_tables_and_rows; distance := zero_distance |}.

Definition win32_failing_insert_env : Env :=
  {| platform := "win32"; arch := "x64"; existsSync := all_files;
     native_error := rejects_rows; distance := zero_distance |}.

Definition win32_env : Env :=
  {| platform := "win32"; arch := "x64"; existsSync := all_files;
     native_error := fun _ _ => None; distance := zero_distance |}.

(** A native side that rejects the replacement of a row of a vector table
    and nothing else, with the message of the sqlite-vec module. *)
Definition rejects_replacement (s : Stmt) (db : Database) : option string :=
  if replaces s db
  then Some "UNIQUE constraint failed on memory_vectors_vec primary key"%string
  else None.

(** The squared Euclidean distance. *)
Definition squared_distance (a b : Float32Array) : Q :=
  fold_right Qplus 0%Q
    (map (fun p => ((fst p - snd p) * (fst p - snd p))%Q) (combine a b)).

Definition vec0_env : Env :=
  {| platform := "win32"; arch := "x64"; existsSync := all_files;
     native_error := rejects_replacement; distance := squared_distance |}.

(** A native side that does not know [RETURNING] and rejects nothing
    else. *)
Definition rejects_returning (s : Stmt) (_ : Database) : option string :=
  match s with
  | UpsertItemReturning _ _ =>
      Some ("near " +:+ String "034" ("RETURNING" +:+ String "034" ": syntax error"))
  | _ => None
  end.

Definition old_sqlite_env : Env :=
  {| platform := "win32"; arch := "x64"; existsSync := all_files;
     native_error := rejects_returning; distance := squared_distance |}.

(** A loaded sqlite-vec backend with tables of dimension 3 on [vec0_env],
    and the database after [upsert(42, [1, 2, 3])]. *)
Definition vec0_backend : VecBackend.t * Database :=
  VecBackend.ensureTable vec0_env 3
    (VecBackend.set_loaded true (VecBackend.new "memory_vectors_vec" None)) empty_db.

Definition vec0_db : Database :=
  snd (VecBackend.upsert vec0_env 42 [1; 2; 3]%Q (fst vec0_backend) (snd vec0_backend)).

(** The backend [VecBackend.tryLoad] returns on [win32_env]. *)
Definition win32_vec : VecBackend.t :=
  {| VecBackend.loaded := true; VecBackend.table := "memory_vectors_vec";
     VecBackend.itemsTable := "memory_items"; VecBackend.dim := Some 384;
     VecBackend.extensionPath := Some "/project/.securamem/sqlite-vec/win32-x64/vec0.dll" |}.

(** The run of the key mapping: a table of dimension 3, then [upsert(42, v)]
    twice; the mapping table and the hits of a query. *)
Definition keymap_backend : VecBackend.t * Database :=
  VecBackend.ensureTable quiet_env 3
    (VecBackend.set_loaded true (VecBackend.new "memory_vectors_vec" None)) empty_db.

Definition keymap_db : Database :=
  snd (VecBackend.upsert quiet_env 42 [1; 2; 3]%Q (fst keymap_backend) (snd keymap_backend)).


(** ** Observations on the symbol tables *)

Section SymbolTables.
Import HybridSearchDatabase.

(** The columns of the uniqueness constraint of [code_symbols]. *)
Definition symbol_key (r : CodeSymbol) : Z * string * Kind * Z :=
  (cs_file_id r, cs_name r, cs_kind r, cs_start_byte r).

(** The file table maps the row id [id] to [path]. *)
Definition file_known (t : Tables) (id : Z) (path : string) : bool :=
  existsb (fun f => (cf_id f =? id) && String.eqb (cf_path f) path) (code_files t).

(** From [t] to [t'] no file row and no symbol row was deleted or re-keyed. *)
Definition keeps (t t' : Tables) : Prop :=
  (forall id path, file_known t id path = true -> file_known t' id path = true)
  /\ forall r, In r (code_symbols t) ->
       exists r', In r' (code_symbols t') /\ cs_id r' = cs_id r /\ symbol_key r' = symbol_key r.

Definition no_write_error (_ : Write) (_ : Tables) : option string := None.

Definition plain_host : Host :=
  {| sha256 := fun s => s; write_error := no_write_error;
     fts_match := fun _ _ => Normal []; vec_search := fun _ _ _ => Normal [] |}.

Definition symbol_at (nm : string) (k : Kind) (from to : Z) : SymbolInput :=
  {| kind := k; name := nm; start_byte := from; end_byte := to;
     start_line := 0; end_line := 0; signature := None; doc := None;
     parent_symbol := None; language := None; embedding := None |}.

(** [indexFile] of a file with the function [oldName], then of its next
    version, where the function is called [newName]. *)
Definition reindexed : completion Z * Tables :=
  indexFile plain_host "a.ts" "function newName() {}" [symbol_at "newName" KFunction 0 21]
    (snd (indexFile plain_host "a.ts" "function oldName() {}"
            [symbol_at "oldName" KFunction 0 21] empty_tables)).

(** A text between double quotes. *)
Definition quoted (s : string) : string :=
  String "034" (s +:+ String "034" EmptyString).

Definition upsert_on_virtual_table (t : string) : string :=
  "UPSERT not implemented for virtual table " +:+ quoted t.

(** What SQLite answers to the five statements on a database without the
    schema, as a new database file is. *)
Definition no_schema (s : Statement) : option string :=
  match s with
  | UpsertFileStmt => Some (no_such_table "code_files")
  | UpsertSymbolStmt => Some (no_such_table "code_symbols")
  | UpsertEmbeddingStmt => Some (no_such_table "code_symbols_embedding")
  | UpsertFtsStmt => Some (no_such_table "code_symbols_fts")
  | HybridSearchStmt => Some (no_such_table "code_symbols")
  end.

(** What it answers on a database that has the two tables and the
    full-text table, and the table of embeddings or not: an upsert on a
    virtual table is rejected, and there is no table-valued function
    [vec_search]. *)
Definition with_schema (embeddings : bool) (s : Statement) : option string :=
  match s with
  | UpsertFileStmt | UpsertSymbolStmt => None
  | UpsertEmbeddingStmt =>
      Some (if embeddings then upsert_on_virtual_table "code_symbols_embedding"
            else no_such_table "code_symbols_embedding")
  | UpsertFtsStmt => Some (upsert_on_virtual_table "code_symbols_fts")
  | HybridSearchStmt => Some (no_such_table "vec_search")
  end.

(** [new HybridSearchDatabase(dbPath)], then [indexFile] on the handle:
    when the constructor throws there is no handle, and nothing is
    indexed. *)
Definition index_on_new_handle (prepare_error : Statement -> option string) (h : Host)
    (filePath content : string) (symbols : list SymbolInput) : Eff Tables Z :=
  fun t => match new prepare_error with
           | Throw e => (Throw e, t)
           | Normal _ => indexFile h filePath content symbols t
           end.

End SymbolTables.

(** ** Searches and files used as examples *)

Section SearchRuns.
Import HybridSearchDatabase.

(** The tables after indexing one file with one function; its row id is 1. *)
Definition one_symbol_tables : Tables :=
  snd (indexFile plain_host "a.ts" "function f() {}" [symbol_at "f" KFunction 0 15] empty_tables).

(** The tables after indexing one file with two functions; their row ids
    are 1 and 2. *)
Definition two_symbol_tables : Tables :=
  snd (indexFile plain_host "a.ts" "function f() {} function f2() {}"
         [symbol_at "f" KFunction 0 15; symbol_at "f2" KFunction 16 32] empty_tables).

(** A host whose full-text match and vector search return the given rows. *)
Definition search_host (trows vrows : list (Z * Q)) : Host :=
  {| sha256 := fun s => s; write_error := no_write_error;
     fts_match := fun _ _ => Normal trows; vec_search := fun _ _ _ => Normal vrows |}.

(** A host whose full-text match returns the given rows and that has no
    vector search: the hybrid statement throws. *)
Definition text_only_host (trows : list (Z * Q)) : Host :=
  {| sha256 := fun s => s; write_error := no_write_error;
     fts_match := fun _ _ => Normal trows;
     vec_search := fun _ _ _ => Throw "no such table: vec_search" |}.

(** The rank [bm25] gives to the one symbol for a query that matches it:
    negative, and small for a table of one row. *)
Definition bm25_of_f : Q := (-1375 # 1000000000)%Q.

(** Options with every field left out. *)
Definition no_search_options : SearchOptions :=
  {| topK := None; alpha := None; filterKind := None; limitMultiplier := None |}.


(** A code memory the full-text search found, with relevance 0.4. *)
Definition memory_1 : SearchCode.Memory :=
  {| SearchCode.id := 1; SearchCode.content := "function f() {}";
     SearchCode.relevance := Some (4 # 10)%Q |}.

End SearchRuns.

Section ChunkingRuns.
Import EnhancedCodeIndexer.

(** Options with every field left out. *)
Definition no_options : EnhancedIndexOptions :=
  {| maxChunkLines := None; useTreeSitter := None; symbolsOnly := None;
     includeDocstrings := None; includeSignatures := None; astFallback := None |}.

(** What the TypeScript parser returns for [function f() {}]. *)
Definition tree_of_f : TreeSitterLoader.SyntaxNode :=
  TreeSitterLoader.Node "program" 0 0 "function f() {}"
    [TreeSitterLoader.Node "function_declaration" 0 0 "function f() {}"
       [TreeSitterLoader.Node "function" 0 0 "function" [];
        TreeSitterLoader.Node "identifier" 0 0 "f" [];
        TreeSitterLoader.Node "formal_parameters" 0 0 "()" [];
        TreeSitterLoader.Node "statement_block" 0 0 "{}" []]].

Definition parse_f (_ : string) : completion (option TreeSitterLoader.SyntaxNode) :=
  Normal (Some tree_of_f).

(** A Python file of two lines, each ended by a newline, and the symbol
    the heuristic tier finds in it. *)
Definition two_line_python : string :=
  "def f():" +:+ String "010" ("  pass" +:+ String "010" EmptyString).

Definition symbol_def_f : Symbol :=
  mk_symbol (split_lines two_line_python) "f" TFunction 0 2 (Some "def f():"%string).

(** The symbol the heuristic tier finds in [function f() {}]. *)
Definition symbol_f : Symbol :=
  mk_symbol ["function f() {}"%string] "f" TFunction 0 0 (Some "function f()"%string).

End ChunkingRuns.

(** ** Clients of the vector store *)

(** The calls a client makes on a [UnifiedVectorBackend]. *)
Inductive Call : Type :=
| EnsureTable (dim : Z)
| Upsert (id : Z) (vector : Float32Array)
| QueryNearest (query : Float32Array) (topk : Z)
| Count.

(** One call on the handle and the database; an error thrown by [upsert]
    is caught by the client. *)
Definition call (env : Env) (st : UnifiedVectorBackend.t * Database) (c : Call)
    : UnifiedVectorBackend.t * Database :=
  match c with
  | EnsureTable d => UnifiedVectorBackend.ensureTable env d (fst st) (snd st)
  | Upsert id v => snd (UnifiedVectorBackend.upsert env id v (fst st) (snd st))
  | QueryNearest q k =>
      (fst st, snd (UnifiedVectorBackend.queryNearest env q k (fst st) (snd st)))
  | Count => (fst st, snd (UnifiedVectorBackend.count env (fst st) (snd st)))
  end.

Definition calls (env : Env) (cs : list Call) (st : UnifiedVectorBackend.t * Database)
    : UnifiedVectorBackend.t * Database :=
  fold_left (call env) cs st.

(** The vectors the sqlite-vec table holds for the external id [id]. *)
Definition stored_vectors (db : Database) (b : VecBackend.t) (id : Z) : list Float32Array :=
  match internal_id db (VecBackend.itemsTable b) (VecBackend.memory_key id),
        vtables db !! VecBackend.table b with
  | Some i, Some vt => map snd (List.filter (fun r => fst r =? i) (vt_rows vt))
  | _, _ => []
  end.

(** [id INTEGER PRIMARY KEY]: no two rows of the mapping table [t] share
    an id. *)
Definition unique_item_ids (db : Database) (t : string) : Prop :=
  forall rows, items_tables db !! t = Some rows -> NoDup (map item_id rows).

(** A native side that rejects no statement. *)
Definition quiet (env : Env) : Prop := forall s db, native_error env s db = None.

(** A native side that rejects no statement, except that it may reject the
    replacement of a row of a vector table. *)
Definition accepts_new_rows (env : Env) : Prop :=
  forall s db, replaces s db = false -> native_error env s db = None.

(** A native side that rejects the replacement of a row of a vector table,
    as the sqlite-vec module does, with a message that does not speak of a
    dimension. *)
Definition rejects_replacements (env : Env) : Prop :=
  forall s db, replaces s db = true ->
    exists msg, native_error env s db = Some msg /\ includes msg "dimension" = false.

(** A native side without [RETURNING], as SQLite before 3.35: it rejects
    the statement that uses it and accepts the two statements of the older
    path. *)
Definition without_returning (env : Env) : Prop :=
  (forall t k db, native_error env (UpsertItemReturning t k) db <> None)
  /\ (forall t k db, native_error env (InsertItemOrIgnore t k) db = None)
  /\ (forall t k db, native_error env (SelectItemId t k) db = None).

(** Every row of the vector table of [b] is under an id of its mapping
    table. *)
Definition vectors_mapped (db : Database) (b : VecBackend.t) : Prop :=
  forall vt rows,
    vtables db !! VecBackend.table b = Some vt ->
    items_tables db !! VecBackend.itemsTable b = Some rows ->
    forall r, In r (vt_rows vt) -> In (fst r) (map item_id rows).

(** The order of [ORDER BY distance], on rows and on hits. *)
Definition by_distance {A} (x y : A * Q) : Prop := (snd x <= snd y)%Q.

Definition nearer (a b : Hit) : Prop := (hit_distance a <= hit_distance b)%Q.

(** ** Observations on searches *)

(** The order of [ORDER BY hybrid_score DESC]. *)
Definition best_first (a b : HybridSearchDatabase.HybridSearchResult) : Prop :=
  HybridSearchDatabase.null_leb (HybridSearchDatabase.hybrid_score b)
    (HybridSearchDatabase.hybrid_score a) = true.

(** Every body of the full-text table has at most [n] characters. *)
Definition bodies_within (n : nat) (t : HybridSearchDatabase.Tables) : Prop :=
  forall i r, HybridSearchDatabase.code_symbols_fts t !! i = Some r ->
    (String.length (HybridSearchDatabase.fts_body r) <= n)%nat.

(** The characters [sanitizeQuery] replaces by a space: the double quote,
    the single quote and the back quote of its first pattern, and the
    star, the caret and the tilde of its second. *)
Definition operator_chars : list ascii := ["034"; "'"; "`"; "*"; "^"; "~"]%char.

Definition not_operator (c : ascii) : bool :=
  negb (existsb (Ascii.eqb c) operator_chars).

(** Every character of [s] satisfies [p]. *)
Fixpoint string_all (p : ascii -> bool) (s : string) : bool :=
  match s with
  | EmptyString => true
  | String c s' => p c && string_all p s'
  end.

(** A character of a search term: in the ASCII range, no white space,
    none of the replaced characters. *)
Definition term_char (c : ascii) : bool :=
  negb (is_space c) && not_operator c && (nat_of_ascii c <? 128)%nat.

(** A search term: one or more such characters. *)
Definition plain_term (w : string) : bool :=
  negb (String.eqb w EmptyString) && string_all term_char w.

(** The order of [scored.sort((a, b) => (b.relevance || 0) - (a.relevance || 0))]. *)
Definition more_relevant (a b : SearchCode.Memory) : Prop :=
  (SearchCode.or_else (SearchCode.relevance b) 0
   <= SearchCode.or_else (SearchCode.relevance a) 0)%Q.

(** ** Observations on lines *)

(** The number of lines of a file, from the pieces of its text split at
    the line ends: a line end at the very end of the text ends the last
    line and starts no other, so an empty last piece is no line. *)
Definition line_count (pieces : list string) : Z :=
  if String.eqb (List.last pieces "x") EmptyString
  then Z.of_nat (length pieces) - 1
  else Z.of_nat (length pieces).


(** ** Observations on chunks *)

(** The lines [lineStart .. lineEnd] of a chunk, 1-based and inclusive. *)
Definition chunk_range (c : EnhancedCodeIndexer.Chunk) : Z * Z :=
  (EnhancedCodeIndexer.lineStart (EnhancedCodeIndexer.meta c),
   EnhancedCodeIndexer.lineEnd (EnhancedCodeIndexer.meta c)).

(** The ranges follow one another without a gap or an overlap, from line
    [from] to line [to]. *)
Fixpoint tiles (from to : Z) (ranges : list (Z * Z)) : Prop :=
  match ranges with
  | [] => from = to + 1
  | (a, b) :: rest => a = from /\ a <= b /\ tiles (b + 1) to rest
  end.

(** The text of lines [a .. b] of the file, 1-based and inclusive. *)
Definition lines_text (lines : list string) (range : Z * Z) : string :=
  join_lines (slice lines (fst range - 1) (snd range)).

(** Every way the pattern [r] matches captures a value that satisfies [P]. *)
Definition captures {A} (P : A -> Prop) (r : Regex.Re A) : Prop :=
  forall s m, In m (r s) -> P (fst m).

(** A non-empty run of the characters of the class [\w]. *)
Definition identifier (w : string) : Prop :=
  w <> EmptyString /\ string_all is_word w = true.

(** ** TreeSitterIndexer.ts *)

Module TreeSitterIndexer.

(** A node of the parser's tree, with what the indexer reads of it: its
    type, its text, the rows and the offsets of its ends, its children. *)
#[warnings="-register-all"]
Inductive SyntaxNode : Type :=
| Node (type text : string) (startRow endRow startIndex endIndex : Z)
       (children : list SyntaxNode).

Definition node_type (n : SyntaxNode) : string :=
  match n with Node ty _ _ _ _ _ _ => ty end.

Definition node_text (n : SyntaxNode) : string :=
  match n with Node _ tx _ _ _ _ _ => tx end.

Definition node_children (n : SyntaxNode) : list SyntaxNode :=
  match n with Node _ _ _ _ _ _ cs => cs end.

Inductive Strategy : Type := treesitter_fallback | treesitter_ast.

Record ChunkMeta : Type := {
  file : string;
  language : string;
  lineStart : Z;
  lineEnd : Z;
  symbolName : option string;
  symbolType : option string;
  strategy : Strategy
}.

Record TreeSitterSymbolChunk : Type := { text : string; meta : ChunkMeta }.

(** [c.toLowerCase()] on a character of the ASCII range. *)
Definition lower_char (c : ascii) : ascii :=
  let n := nat_of_ascii c in
  if ((65 <=? n) && (n <=? 90))%nat then ascii_of_nat (n + 32) else c.

(** [s.toLowerCase()] *)
Fixpoint toLowerCase (s : string) : string :=
  match s with
  | EmptyString => EmptyString
  | String c s' => String (lower_char c) (toLowerCase s')
  end.

(** [s.endsWith(p)] *)
Fixpoint endsWith (s p : string) : bool :=
  String.eqb s p
  || match s with
     | EmptyString => false
     | String _ s' => endsWith s' p
     end.

(** [inferLanguage(filePath)], from [path.extname(filePath).toLowerCase()]. *)
Definition inferLanguage (ext : string) : string :=
  if String.eqb ext ".ts" || String.eqb ext ".tsx" then "typescript"
  else if String.eqb ext ".js" || String.eqb ext ".jsx" then "javascript"
  else if String.eqb ext ".py" then "python"
  else if String.eqb ext ".go" then "go"
  else if String.eqb ext ".java" then "java"
  else match replace ext "." EmptyString with
       | EmptyString => "text"
       | l => l
       end.

(** [findIdentifierName] *)
Definition findIdentifierName (n : SyntaxNode) : option string :=
  node_text <$>
    List.find (fun c => String.eqb (node_type c) "identifier"
                        || String.eqb (node_type c) "type_identifier"
                        || String.eqb (node_type c) "property_identifier")
              (node_children n).

(** [isConstantObject(node)]; [ancestors] are [node.parent],
    [node.parent.parent], ... up to the root. *)
Definition isConstantObject (n : SyntaxNode) (ancestors : list SyntaxNode) : bool :=
  match List.find (fun a => String.eqb (node_type a) "variable_declaration") ancestors with
  | Some declaration =>
      existsb (fun child => String.eqb (node_type child) "const"
                            || String.eqb (node_text child) "const")
              (node_children declaration)
      && existsb (fun child => String.eqb (node_type child) "object"
                               || String.eqb (node_type child) "object_expression")
                 (node_children n)
  | None => false
  end.

(** [x || 'anonymous'] on the result of [findIdentifierName]. *)
Definition or_anonymous (x : option string) : string :=
  match x with
  | Some EmptyString | None => "anonymous"
  | Some nm => nm
  end.

Definition is_js (language : string) : bool :=
  String.eqb language "typescript" || String.eqb language "javascript".

(** [extractSymbolInfo(node, language)]: the name and the type, or [null]. *)
Definition extractSymbolInfo (n : SyntaxNode) (ancestors : list SyntaxNode)
    (language : string) : option (string * string) :=
  let ty := node_type n in
  if is_js language then
    if String.eqb ty "function_declaration" || String.eqb ty "function_expression"
       || String.eqb ty "arrow_function" || String.eqb ty "method_definition"
    then Some (or_anonymous (findIdentifierName n), "function"%string)
    else if String.eqb ty "class_declaration"
    then Some (or_anonymous (findIdentifierName n), "class"%string)
    else if String.eqb ty "interface_declaration"
    then Some (or_anonymous (findIdentifierName n), "interface"%string)
    else if String.eqb ty "type_alias_declaration"
    then Some (or_anonymous (findIdentifierName n), "type"%string)
    else if String.eqb ty "enum_declaration"
    then Some (or_anonymous (findIdentifierName n), "enum"%string)
    else if String.eqb ty "variable_declarator"
    then match findIdentifierName n with
         | Some (String c nm) =>
             if isConstantObject n ancestors then Some (String c nm, "object"%string)
             else None
         | _ => None
         end
    else None
  else if String.eqb language "python" then
    if String.eqb ty "function_definition"
    then Some (or_anonymous (findIdentifierName n), "function"%string)
    else if String.eqb ty "class_definition"
    then Some (or_anonymous (findIdentifierName n), "class"%string)
    else None
  else None.

Definition javascript_symbol_types : list string :=
  ["function_declaration"; "function_expression"; "arrow_function"; "method_definition";
   "class_declaration"; "interface_declaration"; "type_alias_declaration";
   "enum_declaration"; "variable_declarator"; "export_statement"].

Definition python_symbol_types : list string :=
  ["function_definition"; "class_definition"; "decorated_definition"].

(** The chunk [extractJavaScriptSymbols] and [extractPythonSymbols] push
    for a node, if any. *)
Definition symbol_chunk (symbolTypes : list string) (n : SyntaxNode)
    (ancestors : list SyntaxNode) (content file language : string)
    : list TreeSitterSymbolChunk :=
  if existsb (String.eqb (node_type n)) symbolTypes then
    match extractSymbolInfo n ancestors language with
    | Some (nm, ty) =>
        match n with
        | Node _ _ startRow endRow startIndex endIndex _ =>
            [{| text := HybridSearchDatabase.String_slice content startIndex endIndex;
                meta := {| file := file; language := language;
                           lineStart := startRow + 1; lineEnd := endRow + 1;
                           symbolName := Some nm; symbolType := Some ty;
                           strategy := treesitter_ast |} |}]
        end
    | None => []
    end
  else [].

(** [extractJavaScriptSymbols] and [extractPythonSymbols]: the node, then
    its children in order. *)
Fixpoint extractSymbols (symbolTypes : list string) (n : SyntaxNode)
    (ancestors : list SyntaxNode) (content file language : string)
    : list TreeSitterSymbolChunk :=
  symbol_chunk symbolTypes n ancestors content file language
  ++ match n with
     | Node _ _ _ _ _ _ children =>
         flat_map (fun c => extractSymbols symbolTypes c (n :: ancestors) content file language)
                  children
     end.

(** [parseWithTreeSitter], given what the parser of the language returns
    for the content: the root of a tree, or an exception. *)
Definition parseWithTreeSitter (parse : string -> completion SyntaxNode)
    (content file language : string) : completion (list TreeSitterSymbolChunk) :=
  match parse content with
  | Throw e => Throw e
  | Normal root =>
      if is_js language
      then Normal (extractSymbols javascript_symbol_types root [] content file language)
      else if String.eqb language "python"
      then Normal (extractSymbols python_symbol_types root [] content file language)
      else Normal []
  end.

(** The whole file as one chunk. *)
Definition fallback_chunk (content rel language : string) : TreeSitterSymbolChunk :=
  {| text := content;
     meta := {| file := rel; language := language; lineStart := 1;
                lineEnd := Z.of_nat (length (split_lines content));
                symbolName := None; symbolType := None;
                strategy := treesitter_fallback |} |}.

(** The paths [chunkFile] does not parse. *)
Definition skipped (rel : string) : bool :=
  let lower := toLowerCase rel in
  startsWith lower "dist/" || startsWith lower "build/" || startsWith lower "lib/"
  || startsWith lower "node_modules/" || endsWith lower ".min.js".

(** [chunkFile(filePath)]: [rel] is the path relative to the root, [ext]
    the lower-case extension of the path, [read] what [readFileSync]
    returns or throws, and [parsers] the parsers that could be loaded, by
    language. *)
Definition chunkFile (parsers : string -> option (string -> completion SyntaxNode))
    (rel ext : string) (read : completion string) : list TreeSitterSymbolChunk :=
  match read with
  | Throw _ => []
  | Normal content =>
      let language := inferLanguage ext in
      if skipped rel then [fallback_chunk content rel language]
      else
        match parsers language with
        | Some parse =>
            match parseWithTreeSitter parse content rel language with
            | Normal chunks => chunks
            | Throw _ => [fallback_chunk content rel language]
            end
        | None => [fallback_chunk content rel language]
        end
  end.

End TreeSitterIndexer.

(** A chunk made from a node of the tree: it names a symbol and one of
    the six kinds [extractSymbolInfo] knows. *)
Definition named_symbol (c : TreeSitterIndexer.TreeSitterSymbolChunk) : Prop :=
  TreeSitterIndexer.strategy (TreeSitterIndexer.meta c) = TreeSitterIndexer.treesitter_ast
  /\ exists nm ty,
       TreeSitterIndexer.symbolName (TreeSitterIndexer.meta c) = Some nm
       /\ nm <> EmptyString
       /\ TreeSitterIndexer.symbolType (TreeSitterIndexer.meta c) = Some ty
       /\ In ty ["function"; "class"; "interface"; "type"; "enum"; "object"]%string.

(** ** HybridSearchMigration.ts *)

Module HybridSearchMigration.

(** [s.split(sep)] for a one-character separator. *)
Fixpoint split_char (sep : ascii) (s : string) : list string :=
  match s with
  | EmptyString => [EmptyString]
  | String c s' =>
      if Ascii.eqb c sep then EmptyString :: split_char sep s'
      else match split_char sep s' with
           | piece :: pieces => String c piece :: pieces
           | [] => [String c EmptyString]
           end
  end.

(** [schemaSql.split(';').map(stmt => stmt.trim()).filter(stmt => stmt.length > 0)] *)
Definition statements (schemaSql : string) : list string :=
  List.filter (fun stmt => (0 <? String.length stmt)%nat)
              (map trim (split_char ";" schemaSql)).

(** [isExpectedError(error, statement)] on the message of the error. *)
Definition isExpectedError (errorMessage : string) : bool :=
  includes errorMessage "already exists"
  || includes errorMessage "duplicate column name"
  || includes errorMessage "table code_symbols has no column named".

(** The loop over the statements: an expected error is dropped, any other
    is thrown again. *)
Fixpoint exec_all {Db} (exec : string -> Eff Db unit) (stmts : list string) : Eff Db unit :=
  match stmts with
  | [] => ret tt
  | statement :: rest =>
      fun db =>
        match exec statement db with
        | (Normal _, db') => exec_all exec rest db'
        | (Throw e, db') =>
            if isExpectedError e then exec_all exec rest db' else (Throw e, db')
        end
  end.

(** [applyMigration()], given what reading the schema file returns and
    how the database runs a statement.  The loop runs in a transaction;
    [verifySchema], which comes after, only reads and catches what it
    throws. *)
Definition applyMigration {Db} (readSchema : completion string)
    (exec : string -> Eff Db unit) : Eff Db unit :=
  fun db =>
    match readSchema with
    | Throw e => (Throw e, db)
    | Normal schemaSql =>
        match exec_all exec (statements schemaSql) db with
        | (Normal _, db') => (Normal tt, db')
        | (Throw e, _) => (Throw e, db)
        end
    end.

End HybridSearchMigration.

(** A database that records the statements it ran and rejects a lone
    [END]. *)
Definition exec_no_end (statement : string) : Eff (list string) unit :=
  fun ran =>
    if String.eqb statement "END" then (Throw "near END: syntax error"%string, ran)
    else (Normal tt, ran ++ [statement]).


(** A Python class with one method, and what the Python parser returns
    for it. *)
Definition class_A_source : string :=
  "class A:" +:+ String (ascii_of_nat 10) "  def m(self): pass".

Definition tree_of_class_A : TreeSitterLoader.SyntaxNode :=
  TreeSitterLoader.Node "module" 0 1 class_A_source
    [TreeSitterLoader.Node "class_definition" 0 1 class_A_source
       [TreeSitterLoader.Node "class" 0 0 "class" [];
        TreeSitterLoader.Node "identifier" 0 0 "A" [];
        TreeSitterLoader.Node "block" 1 1 "def m(self): pass"
          [TreeSitterLoader.Node "function_definition" 1 1 "def m(self): pass"
             [TreeSitterLoader.Node "def" 1 1 "def" [];
              TreeSitterLoader.Node "identifier" 1 1 "m" [];
              TreeSitterLoader.Node "parameters" 1 1 "(self)" [];
              TreeSitterLoader.Node "block" 1 1 "pass" []]]]].

Definition parse_class_A (_ : string) : completion (option TreeSitterLoader.SyntaxNode) :=
  Normal (Some tree_of_class_A).

(** The symbol recorded for the method [m] of the class. *)
Definition symbol_m : TreeSitterLoader.SymbolInfo :=
  {| TreeSitterLoader.name := "m";
     TreeSitterLoader.type := TFunction;
     TreeSitterLoader.startLine := 1;
     TreeSitterLoader.endLine := 1;
     TreeSitterLoader.content := "def m(self): pass";
     TreeSitterLoader.signature := Some "def m(self):"%string;
     TreeSitterLoader.docstring := None;
     TreeSitterLoader.parent := None;
     TreeSitterLoader.language := "python";
     TreeSitterLoader.filePath := "a.py" |}.

(** A parser that finds one function in any content. *)
Definition parse_one_function (_ : string) : completion TreeSitterIndexer.SyntaxNode :=
  Normal (TreeSitterIndexer.Node "program" "function f() {}" 0 0 0 15
            [TreeSitterIndexer.Node "function_declaration" "function f() {}" 0 0 0 15
               [TreeSitterIndexer.Node "identifier" "f" 0 0 9 10 []]]).

(** * Properties *)

(** ** JavaScript helpers *)

Section Decimal.

Lemma parse_digits_acc (d : Decimal.uint) (acc : positive) :
  parse_digits (NilEmpty.string_of_uint d) (Z.pos acc) = Z.pos (Pos.of_uint_acc d acc).
Proof.
  revert acc; induction d; intros acc;
    cbn [NilEmpty.string_of_uint parse_digits Pos.of_uint_acc]; try reflexivity;
    (change (digit_of _) with (Some 0) || change (digit_of _) with (Some 1)
     || change (digit_of _) with (Some 2) || change (digit_of _) with (Some 3)
     || change (digit_of _) with (Some 4) || change (digit_of _) with (Some 5)
     || change (digit_of _) with (Some 6) || change (digit_of _) with (Some 7)
     || change (digit_of _) with (Some 8) || change (digit_of _) with (Some 9));
    cbv iota beta;
    match goal with
    | |- parse_digits _ ?z = Z.pos (Pos.of_uint_acc _ ?q) =>
        replace z with (Z.pos q) by lia; apply IHd
    end.
Qed.

Lemma parse_digits_uint (d : Decimal.uint) :
  parse_digits (NilEmpty.string_of_uint d) 0 = Z.of_N (Pos.of_uint d).
Proof.
  induction d; cbn [NilEmpty.string_of_uint parse_digits Pos.of_uint]; try reflexivity;
    [ exact IHd | .. ];
    exact (parse_digits_acc d _).
Qed.

Lemma parseInt_digits (d : Decimal.uint) :
  d <> Decimal.Nil ->
  parseInt (NilEmpty.string_of_uint d) = Int (parse_digits (NilEmpty.string_of_uint d) 0).
Proof.
  destruct d; intros Hd; [congruence | reflexivity ..].
Qed.

(** [parseInt(String(n))] is [n] for a natural number [n] below 1e21. *)
Lemma parseInt_Number_toString (n : Z) :
  0 <= n < 10 ^ 21 -> parseInt (Number_toString n) = Int n.
Proof.
  intros Hn. unfold Number_toString.
  replace (Z.abs n <? 10 ^ 21) with true by (symmetry; apply Z.ltb_lt; lia).
  destruct n as [|p|p]; [reflexivity | | lia].
  unfold decimal, Z.to_int, NilZero.string_of_int, NilZero.string_of_uint.
  pose proof (DecimalPos.Unsigned.to_uint_nonnil p) as Hnil.
  destruct (Pos.to_uint p) eqn:E; try congruence;
    rewrite <- E; rewrite parseInt_digits by (rewrite E; congruence);
    rewrite parse_digits_uint, DecimalPos.Unsigned.of_to; reflexivity.
Qed.

Lemma replace_memory_key (id : Z) :
  replace (VecBackend.memory_key id) "memory_" "" = Number_toString id.
Proof. reflexivity. Qed.

Lemma assertDim_message (v : Float32Array) (d : Z) (msg : string) :
  assertDim v d = Throw msg -> includes msg "dimension" = true.
Proof.
  unfold assertDim. destruct (_ =? _); [discriminate |].
  intros [= <-]. reflexivity.
Qed.
(** *** The text of a number *)

Lemma string_all_app p s1 s2 :
  string_all p (s1 +:+ s2) = string_all p s1 && string_all p s2.
Proof.
  induction s1 as [|c s1 IH]; [reflexivity |].
  change (String c s1 +:+ s2) with (String c (s1 +:+ s2)).
  cbn [string_all]. rewrite IH. apply andb_assoc.
Qed.

Lemma string_all_impl (p q : ascii -> bool) s :
  (forall c, p c = true -> q c = true) -> string_all p s = true -> string_all q s = true.
Proof.
  intros H. induction s as [|c s IH]; [reflexivity |].
  cbn [string_all]. intros [Hc Hs]%andb_true_iff. rewrite (H c Hc). auto.
Qed.

Lemma uint_digits (d : Decimal.uint) : string_all is_digit (NilEmpty.string_of_uint d) = true.
Proof. induction d; cbn [NilEmpty.string_of_uint string_all]; try reflexivity; exact IHd. Qed.

Lemma positive_digits (p : positive) :
  exists d rest, decimal (Z.pos p) = String d rest
                 /\ is_digit d = true /\ string_all is_digit rest = true.
Proof.
  unfold decimal. cbn [Z.to_int NilZero.string_of_int]. unfold NilZero.string_of_uint.
  pose proof (DecimalPos.Unsigned.to_uint_nonnil p) as Hnil.
  pose proof (uint_digits (Pos.to_uint p)) as Hd.
  destruct (Pos.to_uint p) eqn:E; try congruence;
    cbn [NilEmpty.string_of_uint string_all] in *; eauto.
Qed.

Lemma is_digit_number_char c : is_digit c = true -> number_char c = true.
Proof. unfold number_char. intros ->. reflexivity. Qed.

Lemma strip_zeros_all p s : string_all p s = true -> string_all p (strip_zeros s) = true.
Proof.
  induction s as [|c s IH]; [reflexivity |].
  cbn [string_all strip_zeros]. intros [Hc Hs]%andb_true_iff. specialize (IH Hs).
  destruct (strip_zeros s) as [|d u].
  - destruct (Ascii.eqb c "0"); [reflexivity |]. cbn [string_all]. rewrite Hc. reflexivity.
  - cbn [string_all] in *. rewrite Hc. exact IH.
Qed.

(** A string is given by its length and its digits up to the last that
    is not [0]. *)
Lemma strip_zeros_inj s s' :
  String.length s = String.length s' -> strip_zeros s = strip_zeros s' -> s = s'.
Proof.
  revert s'. induction s as [|c t IH]; intros [|c' t']; cbn [String.length];
    try discriminate; [reflexivity |].
  intros [= Hl]. cbn [strip_zeros].
  destruct (strip_zeros t) as [|a u] eqn:E, (strip_zeros t') as [|a' u'] eqn:E'.
  - destruct (Ascii.eqb_spec c "0") as [->|Hc], (Ascii.eqb_spec c' "0") as [->|Hc'];
      try discriminate.
    + intros _. f_equal. apply IH; [exact Hl | congruence].
    + intros [= ->]. f_equal. apply IH; [exact Hl | congruence].
  - destruct (Ascii.eqb c "0"); discriminate.
  - destruct (Ascii.eqb c' "0"); discriminate.
  - intros [= -> -> ->]. f_equal. apply IH; [exact Hl | congruence].
Qed.

Lemma app_e_inj a a' b b' :
  string_all (fun c => negb (Ascii.eqb c "e")) a = true ->
  string_all (fun c => negb (Ascii.eqb c "e")) a' = true ->
  a +:+ String "e" b = a' +:+ String "e" b' -> a = a' /\ b = b'.
Proof.
  revert a'. induction a as [|c a IH]; intros [|c' a'].
  - intros _ _ [= ->]. auto.
  - cbn [string_all]. intros _ [Hc _]%andb_true_iff.
    change (String c' a' +:+ ?x) with (String c' (a' +:+ x)).
    intros [= <- _]. discriminate Hc.
  - cbn [string_all]. intros [Hc _]%andb_true_iff _.
    change (String c a +:+ ?x) with (String c (a +:+ x)).
    intros [= -> _]. discriminate Hc.
  - cbn [string_all]. intros [_ Ha]%andb_true_iff [_ Ha']%andb_true_iff.
    change (String c a +:+ ?x) with (String c (a +:+ x)).
    change (String c' a' +:+ ?x) with (String c' (a' +:+ x)).
    intros [= -> H]. destruct (IH a' Ha Ha' H) as [-> ->]. auto.
Qed.

Lemma digits_no_e s :
  string_all is_digit s = true -> string_all (fun c => negb (Ascii.eqb c "e")) s = true.
Proof.
  apply string_all_impl. intros c Hc.
  destruct (Ascii.eqb_spec c "e") as [->|]; [discriminate Hc | reflexivity].
Qed.

Lemma decimal_inj (n m : Z) : decimal n = decimal m -> n = m.
Proof.
  unfold decimal. intros H.
  assert (Hn : forall z, NilZero.int_of_string (NilZero.string_of_int (Z.to_int z))
                         = Some (Z.to_int z)).
  { intros z. apply NilZero.isi; destruct z as [|p|p]; cbn; try discriminate;
      intros [= E]; exact (DecimalPos.Unsigned.to_uint_nonnil p E). }
  pose proof (Hn n) as H1. rewrite H, Hn in H1. injection H1 as H1.
  rewrite <- (DecimalZ.of_to n), <- (DecimalZ.of_to m), H1. reflexivity.
Qed.

(** The fraction of exponent notation: nothing, or a point and digits. *)
Lemma fraction_no_e rest :
  string_all is_digit rest = true ->
  string_all (fun c => negb (Ascii.eqb c "e"))
    (match strip_zeros rest with
     | EmptyString => EmptyString
     | frac => String "." frac
     end) = true.
Proof.
  intros H. apply strip_zeros_all, digits_no_e in H.
  destruct (strip_zeros rest); [reflexivity | exact H].
Qed.

Lemma exponent_notation_inj d rest d' rest' :
  string_all is_digit rest = true -> string_all is_digit rest' = true ->
  exponent_notation (String d rest) = exponent_notation (String d' rest') ->
  String d rest = String d' rest'.
Proof.
  intros Hr Hr'. cbn [exponent_notation]. intros [= -> H].
  change ("e+" +:+ ?x) with (String "e" (String "+" x)) in H.
  apply app_e_inj in H as [HF [= HN]]; [| apply fraction_no_e; assumption ..].
  apply decimal_inj, Nat2Z.inj in HN. f_equal. apply strip_zeros_inj; [exact HN |].
  destruct (strip_zeros rest), (strip_zeros rest'); congruence.
Qed.

Lemma decimal_chars (n : Z) : string_all number_char (decimal n) = true.
Proof.
  destruct n as [|p|p]; [reflexivity | |].
  - destruct (positive_digits p) as (d & rest & -> & Hd & Hr). cbn [string_all].
    rewrite (is_digit_number_char _ Hd).
    exact (string_all_impl _ _ _ is_digit_number_char Hr).
  - destruct (positive_digits p) as (d & rest & E & Hd & Hr).
    unfold decimal in *. cbn [Z.to_int NilZero.string_of_int] in *. rewrite E.
    cbn [string_all]. rewrite (is_digit_number_char _ Hd).
    exact (string_all_impl _ _ _ is_digit_number_char Hr).
Qed.

Lemma exponent_notation_chars d rest :
  is_digit d = true -> string_all is_digit rest = true ->
  string_all number_char (exponent_notation (String d rest)) = true.
Proof.
  intros Hd Hr. cbn [exponent_notation string_all].
  rewrite (is_digit_number_char _ Hd), !string_all_app, decimal_chars.
  cbn [andb]. rewrite andb_true_r.
  pose proof (strip_zeros_all _ _ Hr) as Hs.
  destruct (strip_zeros rest); [reflexivity |].
  change (string_all number_char (String "." (String a s)))
    with (string_all number_char (String a s)).
  exact (string_all_impl _ _ _ is_digit_number_char Hs).
Qed.

(** Beyond 1e21 in absolute value: the sign, then exponent notation of
    the digits. *)
Lemma Number_toString_large (n : Z) :
  10 ^ 21 <= Z.abs n ->
  exists d rest,
    is_digit d = true /\ string_all is_digit rest = true
    /\ decimal (Z.abs n) = String d rest
    /\ Number_toString n
       = (if n <? 0 then "-" else EmptyString) +:+ exponent_notation (String d rest).
Proof.
  intros Hn. unfold Number_toString.
  replace (Z.abs n <? 10 ^ 21) with false by (symmetry; apply Z.ltb_ge; exact Hn).
  destruct (Z.abs n) as [|p|p] eqn:E; [lia | | lia].
  destruct (positive_digits p) as (d & rest & -> & Hd & Hr). eauto 10.
Qed.

Lemma Number_toString_chars (n : Z) : string_all number_char (Number_toString n) = true.
Proof.
  destruct (Z.ltb_spec (Z.abs n) (10 ^ 21)) as [H | H].
  - unfold Number_toString. apply Z.ltb_lt in H. rewrite H. apply decimal_chars.
  - destruct (Number_toString_large n H) as (d & rest & Hd & Hr & _ & ->).
    rewrite string_all_app, (exponent_notation_chars d rest Hd Hr).
    destruct (n <? 0); reflexivity.
Qed.

Lemma decimal_no_e (n : Z) : string_all (fun c => negb (Ascii.eqb c "e")) (decimal n) = true.
Proof.
  destruct n as [|p|p]; [reflexivity | |].
  - destruct (positive_digits p) as (d & rest & -> & Hd & Hr).
    exact (digits_no_e (String d rest) ltac:(cbn [string_all]; rewrite Hd; exact Hr)).
  - destruct (positive_digits p) as (d & rest & E & Hd & Hr).
    unfold decimal in *. cbn [Z.to_int NilZero.string_of_int] in *. rewrite E.
    change (string_all (fun c => negb (Ascii.eqb c "e")) (String d rest) = true).
    exact (digits_no_e (String d rest) ltac:(cbn [string_all]; rewrite Hd; exact Hr)).
Qed.

Lemma exponent_notation_has_e sign d rest :
  string_all (fun c => negb (Ascii.eqb c "e"))
    (sign +:+ exponent_notation (String d rest)) = false.
Proof.
  rewrite string_all_app. cbn [exponent_notation string_all]. rewrite !string_all_app.
  change (string_all _ "e+") with false. rewrite !andb_false_r. reflexivity.
Qed.

Lemma signed_inj (s s' : bool) d rest d' rest' :
  is_digit d = true -> is_digit d' = true ->
  (if s then "-" else EmptyString) +:+ exponent_notation (String d rest)
  = (if s' then "-" else EmptyString) +:+ exponent_notation (String d' rest') ->
  s = s' /\ exponent_notation (String d rest) = exponent_notation (String d' rest').
Proof.
  intros Hd Hd'. destruct s, s'.
  - change ("-" +:+ ?x) with (String "-" x).
    generalize (exponent_notation (String d rest)) (exponent_notation (String d' rest')).
    intros x y H. split; [reflexivity | congruence].
  - change ("-" +:+ ?x) with (String "-" x). change (EmptyString +:+ ?x) with x.
    cbn [exponent_notation]. intros [= <- _]. discriminate Hd'.
  - change ("-" +:+ ?x) with (String "-" x). change (EmptyString +:+ ?x) with x.
    cbn [exponent_notation]. intros [= -> _]. discriminate Hd.
  - change (EmptyString +:+ ?x) with x. auto.
Qed.

(** [String] gives different numbers different texts. *)
Lemma Number_toString_inj (n m : Z) : Number_toString n = Number_toString m -> n = m.
Proof.
  destruct (Z.ltb_spec (Z.abs n) (10 ^ 21)) as [Hn | Hn],
           (Z.ltb_spec (Z.abs m) (10 ^ 21)) as [Hm | Hm].
  - unfold Number_toString. apply Z.ltb_lt in Hn, Hm. rewrite Hn, Hm. apply decimal_inj.
  - destruct (Number_toString_large m Hm) as (d & rest & _ & _ & _ & ->).
    unfold Number_toString. apply Z.ltb_lt in Hn. rewrite Hn. intros H. exfalso.
    pose proof (decimal_no_e n) as E. rewrite H, exponent_notation_has_e in E. discriminate E.
  - destruct (Number_toString_large n Hn) as (d & rest & _ & _ & _ & ->).
    unfold Number_toString. apply Z.ltb_lt in Hm. rewrite Hm. intros H. exfalso.
    pose proof (decimal_no_e m) as E. rewrite <- H, exponent_notation_has_e in E. discriminate E.
  - destruct (Number_toString_large n Hn) as (d & rest & Hd & Hr & En & ->).
    destruct (Number_toString_large m Hm) as (d' & rest' & Hd' & Hr' & Em & ->).
    intros [Hs H]%signed_inj; [| assumption ..].
    apply exponent_notation_inj in H; [| assumption ..].
    rewrite <- En, <- Em in H. apply decimal_inj in H.
    destruct (Z.ltb_spec n 0), (Z.ltb_spec m 0); try discriminate Hs; lia.
Qed.

(** A text that starts with a character [String] never writes is found
    behind the number or not at all. *)
Lemma includes_behind (s r p : string) (c0 : ascii) :
  string_all (fun c => negb (Ascii.eqb c0 c)) s = true ->
  includes (s +:+ r) (String c0 p) = includes r (String c0 p).
Proof.
  induction s as [|c s IH]; [reflexivity |].
  cbn [string_all]. intros [Hc Hs]%andb_true_iff.
  change (String c s +:+ r) with (String c (s +:+ r)).
  cbn [includes startsWith]. apply negb_true_iff in Hc. rewrite Hc. auto.
Qed.

Lemma includes_Number_toString (n : Z) (s : string) :
  includes (Number_toString n +:+ s) "dimension" = includes s "dimension".
Proof.
  apply includes_behind. eapply string_all_impl; [| apply Number_toString_chars].
  intros c Hc. destruct (Ascii.eqb_spec "d"%char c) as [<-|]; [discriminate Hc | reflexivity].
Qed.

End Decimal.

(** ** The journal of the vector backends *)

Section Journal.
Variable env : Env.

Lemma attempt_journal {A} (s : Stmt) (run : Sql A) db c db' :
  (forall d, journal (snd (run d)) = journal d) ->
  attempt env s run db = (c, db') -> journal db' = journal db ++ [s].
Proof.
  intros Hrun. unfold attempt.
  destruct (native_error env s db).
  - intros [= <- <-]. reflexivity.
  - intros E. specialize (Hrun (log s db)). rewrite E in Hrun. exact Hrun.
Qed.

Ltac run_keeps_journal :=
  intros ?; cbn;
  repeat match goal with
         | |- context [match ?x with _ => _ end] => destruct x; cbn
         end; reflexivity.

Lemma loadExtension_journal p db c db' :
  loadExtension env p db = (c, db') -> journal db' = journal db ++ [LoadExtension p].
Proof. apply attempt_journal. run_keeps_journal. Qed.

Lemma pragma_journal p db c db' :
  pragma env p db = (c, db') -> journal db' = journal db ++ [Pragma p].
Proof. apply attempt_journal. run_keeps_journal. Qed.

Lemma create_items_table_journal t db c db' :
  create_items_table env t db = (c, db') -> journal db' = journal db ++ [CreateItemsTable t].
Proof. apply attempt_journal. run_keeps_journal. Qed.

Lemma create_virtual_table_journal t m d db c db' :
  create_virtual_table env t m d db = (c, db') ->
  journal db' = journal db ++ [CreateVirtualTable t m d].
Proof. apply attempt_journal. run_keeps_journal. Qed.

Lemma upsert_item_returning_journal t k p db c db' :
  upsert_item_returning env t k p db = (c, db') ->
  journal db' = journal db ++ [UpsertItemReturning t k].
Proof. apply attempt_journal. run_keeps_journal. Qed.

Lemma insert_item_or_ignore_journal t k p db c db' :
  insert_item_or_ignore env t k p db = (c, db') ->
  journal db' = journal db ++ [InsertItemOrIgnore t k].
Proof. apply attempt_journal. run_keeps_journal. Qed.

Lemma select_item_id_journal t k db c db' :
  select_item_id env t k db = (c, db') ->
  journal db' = journal db ++ [SelectItemId t k].
Proof. apply attempt_journal. run_keeps_journal. Qed.

Lemma insert_or_replace_vector_journal t i v db c db' :
  insert_or_replace_vector env t i v db = (c, db') ->
  journal db' = journal db ++ [InsertOrReplaceVector t i v].
Proof. apply attempt_journal. run_keeps_journal. Qed.

Lemma select_count_journal t db c db' :
  select_count env t db = (c, db') ->
  journal db' = journal db ++ [SelectCount t].
Proof. apply attempt_journal. run_keeps_journal. Qed.


Lemma and_then_inv {S A B} (m : Eff S A) (k : A -> Eff S B) s c s' :
  and_then m k s = (c, s') ->
  (exists a s1, m s = (Normal a, s1) /\ k a s1 = (c, s'))
  \/ (exists e, m s = (Throw e, s') /\ c = Throw e).
Proof.
  unfold and_then. destruct (m s) as [[a|e] s1]; intros E.
  - left; eauto.
  - right. injection E as <- <-. eauto.
Qed.

Lemma writes_nil db : writes db db [].
Proof. split; [symmetry; apply app_nil_r | constructor]. Qed.

Lemma writes_one db db' s :
  journal db' = journal db ++ [s] -> is_query s = false -> writes db db' [s].
Proof. intros H Hs. split; [exact H | repeat constructor; exact Hs]. Qed.

Lemma writes_trans db1 db2 db3 l1 l2 :
  writes db1 db2 l1 -> writes db2 db3 l2 -> writes db1 db3 (l1 ++ l2).
Proof.
  intros [H1 F1] [H2 F2]. split.
  - rewrite H2, H1. symmetry. apply app_assoc.
  - apply Forall_app. split; assumption.
Qed.

Ltac journal_chain :=
  repeat (eapply writes_trans; [ apply writes_one; [eassumption | reflexivity] |]);
  apply writes_nil.

Lemma create_tables_writes b d db c db' :
  VecBackend.create_tables env b d db = (c, db') ->
  exists l, writes db db' l
            /\ (c = Normal tt -> In (CreateVirtualTable (VecBackend.table b) vec0 d) l).
Proof.
  unfold VecBackend.create_tables. intros E.
  repeat match type of E with
         | and_then _ _ _ = _ =>
             apply and_then_inv in E as [(? & ? & ?%pragma_journal & E) | (? & ?%pragma_journal & ->)]
         end.
  all: try (apply and_then_inv in E
              as [(? & ? & ?%create_items_table_journal & E) | (? & ?%create_items_table_journal & ->)]).
  all: try apply create_virtual_table_journal in E.
  all: eexists; split;
    [ journal_chain | intros Hc; try discriminate Hc ].
  cbn. tauto.
Qed.

Lemma getOrCreateIdForKey_writes b key payload db c db' :
  VecBackend.getOrCreateIdForKey env b key payload db = (c, db') ->
  exists l, writes db db' l
            /\ In (UpsertItemReturning (VecBackend.itemsTable b) key) l.
Proof.
  unfold VecBackend.getOrCreateIdForKey.
  destruct (upsert_item_returning _ _ _ _ _) as [[i|e] db1] eqn:E1;
    apply upsert_item_returning_journal in E1.
  - intros [= <- <-]. eexists; split; [apply writes_one; [eassumption | reflexivity] |].
    cbn; tauto.
  - intros E.
    apply and_then_inv in E
      as [(? & ? & ?%insert_item_or_ignore_journal & E) | (? & ?%insert_item_or_ignore_journal & ->)].
    + apply and_then_inv in E
        as [(row & d2 & ?%select_item_id_journal & E) | (? & ?%select_item_id_journal & ->)].
      * assert (d2 = db') as -> by (destruct row; cbv [ret throw] in E; congruence).
        eexists; split;
          [ journal_chain |].
        cbn; tauto.
      * eexists; split;
          [ journal_chain |].
        cbn; tauto.
    + eexists; split;
        [ journal_chain |].
      cbn; tauto.
Qed.

Lemma testVec_dim : assertDim testVec 384 = Normal tt.
Proof. vm_compute. reflexivity. Qed.

(** The upsert of the self-test, on a backend whose table is in place. *)
Lemma upsert_sentinel_writes b db c db' :
  VecBackend.loaded b = true -> VecBackend.dim b = Some 384 ->
  VecBackend.upsert env 999999 testVec b db = (c, db') ->
  exists l, writes db db' l
            /\ In (UpsertItemReturning (VecBackend.itemsTable b) "memory_999999") l.
Proof.
  intros Hl Hd. unfold VecBackend.upsert, VecBackend.upsert_body.
  rewrite Hl, Hd. cbn [negb].
  rewrite testVec_dim.
  change (VecBackend.memory_key 999999) with "memory_999999"%string.
  unfold and_then at 1, lift. unfold and_then at 1. cbn [Z.ltb Z.compare ret].
  destruct (and_then _ _ db) as [[[]|e] db1] eqn:E.
  all: intros E'.
  all: assert (db1 = db') as -> by (try destruct (includes _ _); congruence).
  all: clear E'.
  all: apply and_then_inv in E
      as [(i & d1 & (l1 & W1 & I1)%getOrCreateIdForKey_writes & E)
         | (? & (l1 & W1 & I1)%getOrCreateIdForKey_writes & E)].
  all: try apply insert_or_replace_vector_journal in E.
  all: try (exists (l1 ++ [InsertOrReplaceVector (VecBackend.table b) i testVec]); split;
            [ eapply writes_trans; [eassumption | apply writes_one; [eassumption | reflexivity]]
            | apply in_or_app; left; assumption ]).
  all: try (exists l1; split; assumption).
Qed.

Lemma count_writes b db n db' :
  VecBackend.loaded b = true ->
  VecBackend.count env b db = (n, db') ->
  writes db db' [SelectCount (VecBackend.table b)].
Proof.
  intros Hl. unfold VecBackend.count. rewrite Hl. cbn [negb].
  destruct (select_count _ _ _) as [[m|e] db1] eqn:E;
    apply select_count_journal in E; intros [= <- <-];
    (apply writes_one; [assumption | reflexivity]).
Qed.

(** A self-test that leaves the backend loaded has created the tables at
    dimension 384, upserted the sentinel and read the count, and has sent
    no query. *)
Lemma selfTest_loaded b db b' db' :
  VecBackend.loaded b = true -> VecBackend.dim b = None ->
  VecBackend.selfTest env b db = (b', db') ->
  VecBackend.loaded b' = true ->
  VecBackend.dim b' = Some 384
  /\ VecBackend.extensionPath b' = VecBackend.extensionPath b
  /\ exists l, writes db db' l
       /\ In (CreateVirtualTable (VecBackend.table b) vec0 384) l
       /\ In (UpsertItemReturning (VecBackend.itemsTable b) "memory_999999") l
       /\ In (SelectCount (VecBackend.table b)) l.
Proof.
  intros Hl Hd. unfold VecBackend.selfTest, VecBackend.ensureTable, VecBackend.dim_is.
  rewrite Hl, Hd. cbn [negb].
  destruct (VecBackend.create_tables env b 384 db) as [[[]|e] db1] eqn:E1.
  - apply create_tables_writes in E1 as (l1 & W1 & I1). specialize (I1 eq_refl).
    destruct (VecBackend.upsert _ _ _ _ _) as [[[]|e] db2] eqn:E2.
    + apply upsert_sentinel_writes in E2 as (l2 & W2 & I2); [| exact Hl | reflexivity].
      destruct (VecBackend.count _ _ _) as [n db3] eqn:E3.
      apply count_writes in E3; [| exact Hl].
      intros [= <- <-] _. repeat split.
      exists (l1 ++ l2 ++ [SelectCount (VecBackend.table b)]).
      split; [ eapply writes_trans; [eassumption | eapply writes_trans; eassumption] |].
      rewrite !in_app_iff. cbn. tauto.
    + intros [= <- <-]. cbn. discriminate.
  - (* the tables could not be created: the backend is no longer loaded *)
    unfold VecBackend.upsert. cbn [VecBackend.loaded VecBackend.set_loaded negb].
    unfold VecBackend.count. cbn [VecBackend.loaded VecBackend.set_loaded negb].
    intros [= <- <-]. cbn. discriminate.
Qed.


Lemma create_tables_fails b db :
  (forall d, native_error env (CreateVirtualTable (VecBackend.table b) vec0 384) d <> None) ->
  is_throw (fst (VecBackend.create_tables env b 384 db)) = true.
Proof.
  intros Hfail.
  destruct (VecBackend.create_tables env b 384 db) as [[[]|e] db1] eqn:E; [exfalso | reflexivity].
  unfold VecBackend.create_tables in E.
  repeat match type of E with
         | and_then _ _ _ = _ =>
             apply and_then_inv in E as [(? & ? & _ & E) | (? & _ & [=])]
         end.
  unfold create_virtual_table, attempt in E.
  destruct (native_error env _ _) eqn:N; [discriminate | eapply Hfail; eassumption].
Qed.

Lemma selfTest_create_fails b db :
  VecBackend.loaded b = true -> VecBackend.dim b = None ->
  (forall d, native_error env (CreateVirtualTable (VecBackend.table b) vec0 384) d <> None) ->
  VecBackend.loaded (fst (VecBackend.selfTest env b db)) = false.
Proof.
  intros Hl Hd Hfail. pose proof (create_tables_fails b db Hfail) as Ht.
  unfold VecBackend.selfTest, VecBackend.ensureTable, VecBackend.dim_is.
  rewrite Hl, Hd. cbn [negb].
  destruct (VecBackend.create_tables env b 384 db) as [[[]|e] db1]; [discriminate |].
  unfold VecBackend.upsert. cbn [VecBackend.loaded VecBackend.set_loaded negb].
  unfold VecBackend.count. cbn [VecBackend.loaded VecBackend.set_loaded negb].
  reflexivity.
Qed.

Lemma loaded_or_null_some r b db' :
  VecBackend.loaded_or_null r = (Some b, db') ->
  r = (b, db') /\ VecBackend.loaded b = true.
Proof.
  destruct r as [b0 d0]. unfold VecBackend.loaded_or_null. cbn [fst snd].
  destruct (VecBackend.loaded b0) eqn:L; intros [= <- <-]; auto.
Qed.

Lemma tryLoad_npm_some root p0 db b db' :
  VecBackend.tryLoad_npm env root (VecBackend.new "memory_vectors_vec" p0) db = (Some b, db') ->
  self_tested db db' b.
Proof.
  unfold VecBackend.tryLoad_npm.
  destruct (existsSync env _); [| discriminate].
  destruct (loadExtension _ _ _) as [[[]|e] db1] eqn:E; [| discriminate].
  apply loadExtension_journal in E.
  intros [S L]%loaded_or_null_some.
  apply selfTest_loaded in S as (Hd & Hp & l & W & I1 & I2 & I3); [| reflexivity | reflexivity | exact L].
  split; [exact L | split; [exact Hd |]].
  exists (VecBackend.npmPath env root), ([LoadExtension (VecBackend.npmPath env root)] ++ l).
  split; [exact Hp |].
  split; [eapply writes_trans; [apply writes_one; [eassumption | reflexivity] | exact W] |].
  rewrite !in_app_iff. cbn. tauto.
Qed.

Lemma VecBackend_tryLoad_some root db b db' :
  VecBackend.tryLoad env root db = (Some b, db') -> self_tested db db' b.
Proof.
  unfold VecBackend.tryLoad.
  destruct (existsSync env (VecBackend.manualPath env root)).
  - destruct (loadExtension _ _ _) as [[[]|e] db1] eqn:E; apply loadExtension_journal in E.
    + intros [S L]%loaded_or_null_some.
      apply selfTest_loaded in S as (Hd & Hp & l & W & I1 & I2 & I3);
        [| reflexivity | reflexivity | exact L].
      split; [exact L | split; [exact Hd |]].
      exists (VecBackend.manualPath env root),
             ([LoadExtension (VecBackend.manualPath env root)] ++ l).
      split; [exact Hp |].
      split; [eapply writes_trans; [apply writes_one; [eassumption | reflexivity] | exact W] |].
      rewrite !in_app_iff. cbn. tauto.
    + intros (L & Hd & p & l & Hp & W & I)%tryLoad_npm_some.
      split; [exact L | split; [exact Hd |]].
      exists p, ([LoadExtension (VecBackend.manualPath env root)] ++ l).
      split; [exact Hp |].
      split; [eapply writes_trans; [apply writes_one; [eassumption | reflexivity] | exact W] |].
      rewrite !in_app_iff. tauto.
  - apply tryLoad_npm_some.
Qed.

Lemma VecBackend_tryLoad_create_fails root db :
  (forall d, native_error env (CreateVirtualTable "memory_vectors_vec" vec0 384) d <> None) ->
  fst (VecBackend.tryLoad env root db) = None.
Proof.
  intros Hfail.
  assert (Hnull : forall b d, VecBackend.table b = "memory_vectors_vec"%string ->
            VecBackend.loaded b = true -> VecBackend.dim b = None ->
            fst (VecBackend.loaded_or_null (VecBackend.selfTest env b d)) = None).
  { intros b d Ht Hl Hd. unfold VecBackend.loaded_or_null. cbn [fst].
    rewrite selfTest_create_fails; [reflexivity | exact Hl | exact Hd |].
    rewrite Ht. exact Hfail. }
  unfold VecBackend.tryLoad, VecBackend.tryLoad_npm.
  repeat match goal with
         | |- context [if existsSync env ?p then _ else _] => destruct (existsSync env p)
         | |- context [match loadExtension env ?p ?d with _ => _ end] =>
             destruct (loadExtension env p d) as [[[]|?] ?]
         end; cbn [fst]; try reflexivity; apply Hnull; reflexivity.
Qed.

Lemma VssBackend_tryLoad_some root db b db' :
  VssBackend.tryLoad env root db = (Some b, db') ->
  VssBackend.loaded b = true /\ VssBackend.dim b = None
  /\ exists l, journal db' = journal db ++ l
               /\ Forall (fun s => exists p, s = LoadExtension p) l.
Proof.
  assert (Hvss : forall d, VssBackend.load_vss env root d = (Some b, db') ->
            VssBackend.loaded b = true /\ VssBackend.dim b = None
            /\ journal db' = journal d ++ [LoadExtension (VssBackend.vssPath env root)]).
  { intros d. unfold VssBackend.load_vss.
    destruct (existsSync env _); [| discriminate].
    destruct (loadExtension _ _ _) as [[[]|e] db1] eqn:E; [| discriminate].
    apply loadExtension_journal in E. intros [= <- <-]. auto. }
  unfold VssBackend.tryLoad.
  destruct (negb _).
  - destruct (existsSync env _); [| discriminate].
    destruct (loadExtension _ _ _) as [[[]|e] db1] eqn:E; [| discriminate].
    apply loadExtension_journal in E.
    intros (L & D & J)%Hvss. split; [exact L | split; [exact D |]].
    eexists. split; [rewrite J, E, <- app_assoc; reflexivity |].
    repeat constructor; eauto.
  - intros (L & D & J)%Hvss. split; [exact L | split; [exact D |]].
    eexists. split; [exact J |]. repeat constructor; eauto.
Qed.

End Journal.

(** ** Dimension checks of [upsert] *)

Lemma VecBackend_upsert_dimension_mismatch env id v b db d :
  VecBackend.loaded b = true -> VecBackend.dim b = Some d ->
  Z.of_nat (length v) <> d ->
  exists msg, VecBackend.upsert env id v b db = (Throw msg, db)
              /\ includes msg "dimension" = true.
Proof.
  intros Hl Hd Hne. unfold VecBackend.upsert, VecBackend.upsert_body.
  rewrite Hl, Hd. cbn [negb]. unfold and_then at 1, lift.
  destruct (assertDim v d) as [[]|msg] eqn:E.
  - unfold assertDim in E. apply Z.eqb_neq in Hne. rewrite Hne in E. discriminate.
  - assert (Hm : includes msg "dimension" = true).
    { unfold assertDim in E. destruct (_ =? _); [discriminate|]. injection E as <-. reflexivity. }
    rewrite Hm. eauto.
Qed.

Lemma VssBackend_upsert_never_throws env id v b db :
  fst (VssBackend.upsert env id v b db) = Normal tt.
Proof.
  unfold VssBackend.upsert.
  destruct (VssBackend.loaded b); cbn [negb]; [| reflexivity].
  destruct (VssBackend.dim b); [| reflexivity].
  destruct (insert_or_replace_vector _ _ _ _ _) as [[[]|msg] db']; reflexivity.
Qed.

(** C1.  On the sqlite-vss backend an upsert of a vector of the wrong
    length is no error: against a table of dimension 3 that holds one row,
    upserting a vector of length 2 completes normally; when the native
    module rejects the row the backend is switched off and [count()] falls
    from 1 to 0, and when it accepts the row the row is written and
    [count()] is 2. *)
Theorem VssBackend_upsert_wrong_dimension :
  vss_wrong_dimension strict_env = (Normal tt, false, 1, 0)
  /\ vss_wrong_dimension quiet_env = (Normal tt, true, 1, 2).
Proof. split; vm_compute; reflexivity. Qed.

(** ** [ensureTable] *)

Lemma VecBackend_ensureTable_same_dimension env d b db :
  VecBackend.dim b = Some d -> VecBackend.ensureTable env d b db = (b, db).
Proof.
  intros Hd. unfold VecBackend.ensureTable, VecBackend.dim_is. rewrite Hd, Z.eqb_refl.
  destruct (negb _); reflexivity.
Qed.

Lemma VssBackend_ensureTable_same_dimension env d b db :
  VssBackend.dim b = Some d -> VssBackend.ensureTable env d b db = (b, db).
Proof.
  intros Hd. unfold VssBackend.ensureTable, VssBackend.dim_is. rewrite Hd, Z.eqb_refl.
  destruct (negb _); reflexivity.
Qed.

(** C9.  A second [ensureTable] with another dimension is not a no-op on
    the backend: after [ensureTable(384)] and [ensureTable(128)] the recorded
    dimension is 128 while the table, created once, still has dimension 384;
    the same holds for both native backends. *)
Theorem ensureTable_other_dimension_recorded :
  vec_two_dimensions = (Some 384, Some 128, Some 384)
  /\ vss_two_dimensions = (Some 384, Some 128, Some 384).
Proof. split; vm_compute; reflexivity. Qed.

(** ** Backend selection *)

Lemma VecBackend_tryLoad_no_files env root db :
  (forall p, existsSync env p = false) -> VecBackend.tryLoad env root db = (None, db).
Proof.
  intros H. unfold VecBackend.tryLoad, VecBackend.tryLoad_npm. rewrite !H. reflexivity.
Qed.

Lemma VssBackend_tryLoad_no_files env root db :
  (forall p, existsSync env p = false) -> VssBackend.tryLoad env root db = (None, db).
Proof.
  intros H. unfold VssBackend.tryLoad, VssBackend.load_vss. rewrite !H.
  destruct (negb _); reflexivity.
Qed.

Lemma VecBackend_tryLoad_loaded env root db b db' :
  VecBackend.tryLoad env root db = (Some b, db') -> VecBackend.loaded b = true.
Proof.
  unfold VecBackend.tryLoad, VecBackend.tryLoad_npm, VecBackend.loaded_or_null.
  repeat match goal with
         | |- context [if existsSync env ?p then _ else _] => destruct (existsSync env p)
         | |- context [match loadExtension env ?p ?d with _ => _ end] =>
             destruct (loadExtension env p d) as [[[]|?] ?]
         end; try discriminate;
    match goal with
    | |- context [VecBackend.selfTest ?e ?b0 ?d] => destruct (VecBackend.selfTest e b0 d) as [b1 d1]
    end; cbn [fst snd]; destruct (VecBackend.loaded b1) eqn:L; intros [= <- <-]; exact L.
Qed.

Lemma VssBackend_tryLoad_loaded env root db b db' :
  VssBackend.tryLoad env root db = (Some b, db') -> VssBackend.loaded b = true.
Proof.
  unfold VssBackend.tryLoad, VssBackend.load_vss.
  repeat match goal with
         | |- context [if negb ?c then _ else _] => destruct (negb c)
         | |- context [if existsSync env ?p then _ else _] => destruct (existsSync env p)
         | |- context [match loadExtension env ?p ?d with _ => _ end] =>
             destruct (loadExtension env p d) as [[[]|?] ?]
         end; try discriminate; intros [= <- <-]; reflexivity.
Qed.

(** C8, as the code has it.  [UnifiedVectorBackend.tryLoad] always returns
    a handle; [isAvailable()] is true exactly when a native backend was
    selected.  With no native backend the handle reports the type
    [local-js] and is not available, [ensureTable] and [upsert] do nothing,
    [queryNearest] returns no hit and [count] returns 0; this is the case
    in particular when no library file exists. *)
Theorem unified_without_native_backend (env : Env) (root : string) (db : Database) :
  let u := fst (UnifiedVectorBackend.tryLoad env root db) in
  (UnifiedVectorBackend.isAvailable u = true
   <-> UnifiedVectorBackend.activeBackend u <> None)
  /\ (UnifiedVectorBackend.activeBackend u = None ->
      UnifiedVectorBackend.getBackendType u = local_js
      /\ UnifiedVectorBackend.isAvailable u = false
      /\ forall id v q k d st,
           UnifiedVectorBackend.ensureTable env d u st = (u, st)
           /\ UnifiedVectorBackend.upsert env id v u st = (Normal tt, (u, st))
           /\ UnifiedVectorBackend.queryNearest env q k u st = ([], st)
           /\ UnifiedVectorBackend.count env u st = (0, st))
  /\ ((forall p, existsSync env p = false) ->
      UnifiedVectorBackend.tryLoad env root db
      = ({| UnifiedVectorBackend.activeBackend := None |}, db)).
Proof.
  cbn zeta. split; [| split].
  - unfold UnifiedVectorBackend.tryLoad.
    destruct (String.eqb _ _).
    + destruct (VecBackend.tryLoad env root db) as [[b|] db1] eqn:E; cbn.
      * apply VecBackend_tryLoad_loaded in E. unfold VecBackend.isAvailable.
        rewrite E. split; [discriminate | reflexivity].
      * split; [discriminate | congruence].
    + destruct (VssBackend.tryLoad env root db) as [[b|] db1] eqn:E; cbn.
      * apply VssBackend_tryLoad_loaded in E. unfold VssBackend.isAvailable.
        rewrite E. split; [discriminate | reflexivity].
      * destruct (VecBackend.tryLoad env root db1) as [[b|] db2] eqn:E2; cbn.
        -- apply VecBackend_tryLoad_loaded in E2. unfold VecBackend.isAvailable.
           rewrite E2. split; [discriminate | reflexivity].
        -- split; [discriminate | congruence].
  - destruct (fst (UnifiedVectorBackend.tryLoad env root db)) as [a]. cbn.
    intros ->. repeat split.
  - intros H. unfold UnifiedVectorBackend.tryLoad.
    rewrite VecBackend_tryLoad_no_files, VssBackend_tryLoad_no_files by exact H.
    rewrite VecBackend_tryLoad_no_files by exact H.
    destruct (String.eqb _ _); reflexivity.
Qed.

(** C8, counterexample: with no native library on disk the selected handle
    is not available. *)
Lemma fallback_not_available :
  UnifiedVectorBackend.isAvailable
    (fst (UnifiedVectorBackend.tryLoad quiet_env "/project" empty_db)) = false.
Proof. vm_compute. reflexivity. Qed.

(** ** The key mapping of the sqlite-vec backend *)

Section KeyMapping.
Variable env : Env.

Lemma find_item_key key rows r : find_item key rows = Some r -> item_key r = key.
Proof.
  unfold find_item. intros H. apply List.find_some in H as [_ H].
  apply String.eqb_eq in H. exact H.
Qed.

Lemma update_payload_fields key payload r :
  item_key (update_payload key payload r) = item_key r
  /\ item_id (update_payload key payload r) = item_id r.
Proof. unfold update_payload. destruct (String.eqb _ _); split; reflexivity. Qed.

Lemma find_item_update key payload rows :
  item_id <$> find_item key (map (update_payload key payload) rows)
  = item_id <$> find_item key rows.
Proof.
  unfold find_item. induction rows as [|r rows IH]; [reflexivity |].
  cbn [map List.find].
  destruct (update_payload_fields key payload r) as [-> Hid].
  destruct (String.eqb (item_key r) key); [cbn; f_equal; exact Hid | exact IH].
Qed.

Lemma find_item_app_new key rows id payload :
  find_item key rows = None ->
  find_item key (rows ++ [{| item_id := id; item_key := key; item_payload := payload |}])
  = Some {| item_id := id; item_key := key; item_payload := payload |}.
Proof.
  intros Hn. induction rows as [|r0 rows IH].
  - cbn. rewrite String.eqb_refl. reflexivity.
  - cbn in Hn |- *. destruct (String.eqb (item_key r0) key); [discriminate | auto].
Qed.

Lemma upsert_item_returning_mapped t key payload db id db' :
  upsert_item_returning env t key payload db = (Normal id, db') ->
  internal_id db' t key = Some id.
Proof.
  unfold upsert_item_returning, attempt, internal_id.
  destruct (native_error _ _ _); [discriminate |]. cbn [items_tables log].
  destruct (items_tables db !! t) as [rows|] eqn:T; [| discriminate].
  destruct (find_item key rows) as [r|] eqn:F; intros [= <- <-];
    cbn [items_tables set_items log]; rewrite lookup_insert_eq.
  - rewrite find_item_update, F. reflexivity.
  - rewrite (find_item_app_new key rows _ _ F). reflexivity.
Qed.

Lemma upsert_item_returning_of_mapped t key payload db id c db' :
  internal_id db t key = Some id ->
  upsert_item_returning env t key payload db = (c, db') ->
  internal_id db' t key = Some id /\ forall id', c = Normal id' -> id' = id.
Proof.
  unfold upsert_item_returning, attempt, internal_id.
  destruct (items_tables db !! t) as [rows|] eqn:T; [| discriminate].
  destruct (find_item key rows) as [r|] eqn:F; [| discriminate].
  intros [= <-].
  destruct (native_error _ _ _).
  - intros [= <- <-]. cbn [items_tables log]. rewrite T, F. split; [reflexivity | discriminate].
  - cbn [items_tables log]. rewrite T, F. intros [= <- <-].
    cbn [items_tables set_items log]. rewrite lookup_insert_eq, find_item_update, F.
    split; [reflexivity | congruence].
Qed.

Lemma insert_item_or_ignore_mapped t key payload db db' :
  insert_item_or_ignore env t key payload db = (Normal tt, db') ->
  exists id, internal_id db' t key = Some id.
Proof.
  unfold insert_item_or_ignore, attempt, internal_id.
  destruct (native_error _ _ _); [discriminate |]. cbn [items_tables log].
  destruct (items_tables db !! t) as [rows|] eqn:T; [| discriminate].
  destruct (find_item key rows) as [r|] eqn:F; intros [= <-];
    cbn [items_tables set_items log].
  - rewrite T, F. eauto.
  - rewrite lookup_insert_eq, (find_item_app_new key rows _ _ F). eauto.
Qed.

Lemma insert_item_or_ignore_of_mapped t key payload db id c db' :
  internal_id db t key = Some id ->
  insert_item_or_ignore env t key payload db = (c, db') ->
  internal_id db' t key = Some id.
Proof.
  unfold insert_item_or_ignore, attempt, internal_id.
  destruct (items_tables db !! t) as [rows|] eqn:T; [| discriminate].
  destruct (find_item key rows) as [r|] eqn:F; [| discriminate].
  intros [= <-].
  destruct (native_error _ _ _); cbn [items_tables log]; rewrite ?T, ?F;
    intros [= <- <-]; cbn [items_tables log]; rewrite T, F; reflexivity.
Qed.

Lemma select_item_id_spec t key db row db' :
  select_item_id env t key db = (Normal row, db') ->
  row = internal_id db t key /\ internal_id db' t key = internal_id db t key.
Proof.
  unfold select_item_id, attempt, internal_id.
  destruct (native_error _ _ _); [discriminate |]. cbn [items_tables log].
  destruct (items_tables db !! t) as [rows|] eqn:T; [| discriminate].
  intros [= <- <-]. cbn [items_tables log]. rewrite T. auto.
Qed.

Lemma upsert_item_returning_throw_keeps t key payload db e db' :
  upsert_item_returning env t key payload db = (Throw e, db') ->
  items_tables db' = items_tables db.
Proof.
  unfold upsert_item_returning, attempt.
  destruct (native_error _ _ _); [intros [= <- <-]; reflexivity |].
  cbn [items_tables log].
  destruct (items_tables db !! t) as [rows|] eqn:T.
  - destruct (find_item key rows); discriminate.
  - intros [= <- <-]. reflexivity.
Qed.

(** Get-or-create: the id returned is the one the table holds for the key
    from then on. *)
Lemma getOrCreateIdForKey_mapped b key payload db id db' :
  VecBackend.getOrCreateIdForKey env b key payload db = (Normal id, db') ->
  internal_id db' (VecBackend.itemsTable b) key = Some id.
Proof.
  unfold VecBackend.getOrCreateIdForKey.
  destruct (upsert_item_returning _ _ _ _ _) as [[i|e] db1] eqn:E1.
  - intros [= <- <-]. eapply upsert_item_returning_mapped; eassumption.
  - intros E.
    apply and_then_inv in E as [([] & d1 & E2 & E) | (? & _ & [=])].
    apply and_then_inv in E as [(row & d2 & E3 & E) | (? & _ & [=])].
    apply select_item_id_spec in E3 as [-> K].
    destruct (internal_id d1 _ key) as [i|] eqn:I; cbv [ret throw] in E; [| discriminate].
    injection E as <- <-. rewrite K. reflexivity.
Qed.

Lemma getOrCreateIdForKey_of_mapped b key payload db id id' db' :
  internal_id db (VecBackend.itemsTable b) key = Some id ->
  VecBackend.getOrCreateIdForKey env b key payload db = (Normal id', db') ->
  id' = id.
Proof.
  intros M. unfold VecBackend.getOrCreateIdForKey.
  destruct (upsert_item_returning _ _ _ _ _) as [[i|e] db1] eqn:E1.
  - intros [= <- <-].
    eapply upsert_item_returning_of_mapped in E1 as [_ H]; [| exact M]. auto.
  - intros E.
    eapply upsert_item_returning_of_mapped in E1 as [M1 _]; [| exact M].
    apply and_then_inv in E as [([] & d1 & E2 & E) | (? & _ & [=])].
    eapply insert_item_or_ignore_of_mapped in E2; [| exact M1].
    apply and_then_inv in E as [(row & d2 & E3 & E) | (? & _ & [=])].
    apply select_item_id_spec in E3 as [-> K]. rewrite E2 in E.
    cbv [ret] in E. congruence.
Qed.


(** *** Hits carry external ids *)

Lemma In_insert_by_distance {A} (x y : A * Q) l :
  In x (insert_by_distance y l) -> x = y \/ In x l.
Proof.
  induction l as [|z l IH]; cbn.
  - intros [->|[]]; auto.
  - destruct (Qle_bool _ _); cbn.
    + intros [->|H]; auto.
    + intros [->|H]; [auto |]. apply IH in H. tauto.
Qed.

Lemma In_order_by_distance {A} (x : A * Q) l :
  In x (order_by_distance l) -> In x l.
Proof.
  induction l as [|y l IH]; cbn; [tauto |].
  intros H. apply In_insert_by_distance in H as [->|H]; auto.
Qed.

Lemma In_firstn_list {A} (x : A) n l : In x (firstn n l) -> In x l.
Proof.
  revert l. induction n as [|m IH]; intros [|y l]; cbn; try tauto.
  intros [->|H]; [tauto | right; auto].
Qed.

Lemma In_sql_limit {A} (x : A) n l : In x (sql_limit n l) -> In x l.
Proof.
  unfold sql_limit. destruct (n <? 0); [tauto | apply In_firstn_list].
Qed.

Lemma In_nearest x vt q k :
  In x (nearest env vt q k) -> exists v, In (fst x, v) (vt_rows vt).
Proof.
  unfold nearest. intros H.
  apply In_firstn_list, In_order_by_distance, in_map_iff in H as ([i v] & <- & Hr).
  exists v. exact Hr.
Qed.

(** Every hit of [queryNearest] carries the external id of a row of the
    mapping table whose internal id keys a vector. *)
Lemma queryNearest_external b q k db hits db' h :
  VecBackend.queryNearest env q k b db = (hits, db') ->
  external_keys db (VecBackend.itemsTable b) ->
  In h hits ->
  exists e rows r vt v,
    0 <= e < 10 ^ 21 /\ hit_id h = Int e
    /\ items_tables db !! VecBackend.itemsTable b = Some rows
    /\ In r rows /\ item_key r = VecBackend.memory_key e
    /\ vtables db !! VecBackend.table b = Some vt
    /\ In (item_id r, v) (vt_rows vt).
Proof.
  unfold VecBackend.queryNearest.
  destruct (negb _); [intros [= <- <-] _ [] |].
  destruct (VecBackend.dim b) as [d|]; [| intros [= <- <-] _ []].
  destruct (and_then _ _ db) as [[rows|e] db1] eqn:E; [| intros [= <- <-] _ []].
  intros [= <- <-] Hext Hin.
  apply in_map_iff in Hin as ([key dist] & <- & Hin).
  apply and_then_inv in E as [([] & d1 & E0 & E) | (? & _ & [=])].
  unfold lift in E0. injection E0 as _ <-.
  unfold select_knn_join_items, attempt in E.
  destruct (native_error _ _ _); [discriminate |]. cbn [vtables items_tables log] in E.
  destruct (vtables db !! VecBackend.table b) as [vt|] eqn:V; [| discriminate].
  destruct (items_tables db !! VecBackend.itemsTable b) as [irows|] eqn:I; [| discriminate].
  injection E as <- _.
  apply In_sql_limit, In_order_by_distance, in_flat_map in Hin as ([i dd] & Hn & Hin).
  apply in_map_iff in Hin as (r & [= <- <-] & Hr).
  apply filter_In in Hr as [Hr Hid]. cbn [fst] in Hid. apply Z.eqb_eq in Hid.
  apply In_nearest in Hn as [v Hv]. cbn [fst] in Hv.
  destruct (Hext irows r I Hr) as (e & He & Hk).
  exists e, irows, r, vt, v. cbn [hit_id VecBackend.hit_of_row fst].
  rewrite Hk, replace_memory_key, parseInt_Number_toString by lia.
  rewrite Hid. auto 10.
Qed.

(** *** The mapping table only ever holds keys of external ids *)

Lemma external_keys_insert_row t key payload id db rows t' :
  items_tables db !! t' = Some rows ->
  (exists e, 0 <= e < 10 ^ 21 /\ key = VecBackend.memory_key e) ->
  external_keys db t ->
  external_keys
    (set_items t' (rows ++ [{| item_id := id; item_key := key; item_payload := payload |}]) db) t.
Proof.
  intros T Hk Hext rows' r. cbn [items_tables set_items].
  destruct (decide (t' = t)) as [->|Hne].
  - rewrite lookup_insert_eq. intros [= <-] [Hr|[<-|[]]]%in_app_or; [eauto | exact Hk].
  - rewrite lookup_insert_ne by exact Hne. apply Hext.
Qed.

Lemma external_keys_update t key payload db rows t' :
  items_tables db !! t' = Some rows ->
  external_keys db t ->
  external_keys (set_items t' (map (update_payload key payload) rows) db) t.
Proof.
  intros T Hext rows' r. cbn [items_tables set_items].
  destruct (decide (t' = t)) as [->|Hne].
  - rewrite lookup_insert_eq. intros [= <-] (r0 & <- & Hr)%in_map_iff.
    destruct (update_payload_fields key payload r0) as [-> _]. eauto.
  - rewrite lookup_insert_ne by exact Hne. apply Hext.
Qed.

Lemma getOrCreateIdForKey_external_keys b key payload db c db' t :
  (exists e, 0 <= e < 10 ^ 21 /\ key = VecBackend.memory_key e) ->
  VecBackend.getOrCreateIdForKey env b key payload db = (c, db') ->
  external_keys db t -> external_keys db' t.
Proof.
  intros Hk E Hext.
  assert (H1 : forall d c1 d1, upsert_item_returning env (VecBackend.itemsTable b) key payload d
                               = (c1, d1) -> external_keys d t -> external_keys d1 t).
  { intros d c1 d1. unfold upsert_item_returning, attempt.
    destruct (native_error _ _ _); [intros [= <- <-]; auto |].
    cbn [items_tables log].
    destruct (items_tables d !! _) as [rows|] eqn:T; [| intros [= <- <-]; auto].
    destruct (find_item key rows); intros [= <- <-] H.
    - apply external_keys_update; [exact T | exact H].
    - apply external_keys_insert_row; [exact T | exact Hk | exact H]. }
  assert (H2 : forall d c1 d1, insert_item_or_ignore env (VecBackend.itemsTable b) key payload d
                               = (c1, d1) -> external_keys d t -> external_keys d1 t).
  { intros d c1 d1. unfold insert_item_or_ignore, attempt.
    destruct (native_error _ _ _); [intros [= <- <-]; auto |].
    cbn [items_tables log].
    destruct (items_tables d !! _) as [rows|] eqn:T; [| intros [= <- <-]; auto].
    destruct (find_item key rows); intros [= <- <-] H; [exact H |].
    apply external_keys_insert_row; [exact T | exact Hk | exact H]. }
  assert (H3 : forall d c1 d1, select_item_id env (VecBackend.itemsTable b) key d
                               = (c1, d1) -> external_keys d t -> external_keys d1 t).
  { intros d c1 d1. unfold select_item_id, attempt.
    destruct (native_error _ _ _); [intros [= <- <-]; auto |].
    cbn [items_tables log].
    destruct (items_tables d !! _); intros [= <- <-]; auto. }
  unfold VecBackend.getOrCreateIdForKey in E.
  destruct (upsert_item_returning _ _ _ _ _) as [[i|e] db1] eqn:E1.
  - injection E as <- <-. eapply H1; eassumption.
  - apply H1 in E1; [| exact Hext].
    apply and_then_inv in E as [([] & d1 & E2 & E) | (? & E2 & ->)].
    + apply H2 in E2; [| exact E1].
      apply and_then_inv in E as [(row & d2 & E3 & E) | (? & E3 & ->)].
      * apply H3 in E3; [| exact E2].
        destruct row; cbv [ret throw] in E; injection E as <- <-; exact E3.
      * eapply H3; eassumption.
    + eapply H2; eassumption.
Qed.

Lemma upsert_external_keys id v b db c db' t :
  id < 10 ^ 21 ->
  VecBackend.upsert env id v b db = (c, db') ->
  external_keys db t -> external_keys db' t.
Proof.
  intros Hid. unfold VecBackend.upsert.
  destruct (negb _); [intros [= <- <-]; auto |].
  destruct (VecBackend.dim b) as [d|]; [| intros [= <- <-]; auto].
  intros E Hext.
  assert (Hb : forall c1 d1, VecBackend.upsert_body env id v b d db = (c1, d1) ->
                             external_keys d1 t).
  { intros c1 d1 Eb. unfold VecBackend.upsert_body in Eb.
    apply and_then_inv in Eb as [([] & d0 & E0 & Eb) | (? & E0 & ->)];
      unfold lift in E0; injection E0 as _ <-; [| exact Hext].
    destruct (id <? 0) eqn:Hneg.
    - apply and_then_inv in Eb as [(? & ? & [=] & _) | (? & E0 & ->)].
      cbv [throw] in E0. injection E0 as _ <-. exact Hext.
    - apply and_then_inv in Eb as [([] & d0 & E0 & Eb) | (? & [=] & _)].
      cbv [ret] in E0. injection E0 as <-.
      apply and_then_inv in Eb as [(i & d2 & E2 & Eb) | (? & E2 & ->)].
      + eapply getOrCreateIdForKey_external_keys in E2; [| exists id; split; [lia | reflexivity] | exact Hext].
        unfold insert_or_replace_vector, attempt in Eb.
        destruct (native_error _ _ _); [injection Eb as _ <-; exact E2 |].
        cbn [vtables log] in Eb.
        destruct (vtables d2 !! _); injection Eb as _ <-; exact E2.
      + eapply getOrCreateIdForKey_external_keys in E2; [exact E2 | | exact Hext].
        exists id; split; [lia | reflexivity]. }
  destruct (VecBackend.upsert_body env id v b d db) as [[[]|e] d1] eqn:Eb.
  - injection E as _ <-. eapply Hb; reflexivity.
  - specialize (Hb _ _ eq_refl). destruct (includes e "dimension"); injection E as _ <-; exact Hb.
Qed.


(** *** Mappings are never changed *)

Lemma find_item_update_other key key' payload rows :
  item_id <$> find_item key (map (update_payload key' payload) rows)
  = item_id <$> find_item key rows.
Proof.
  unfold find_item. induction rows as [|r rows IH]; [reflexivity |].
  cbn [map List.find].
  destruct (update_payload_fields key' payload r) as [-> Hid].
  destruct (String.eqb (item_key r) key); [cbn; f_equal; exact Hid | exact IH].
Qed.

Lemma find_item_app_keep key rows l r :
  find_item key rows = Some r -> find_item key (rows ++ l) = Some r.
Proof.
  unfold find_item. induction rows as [|r0 rows IH]; cbn; [discriminate |].
  destruct (String.eqb (item_key r0) key); auto.
Qed.

Lemma internal_id_set_items_update t t' key key' payload db rows id :
  items_tables db !! t' = Some rows ->
  internal_id db t key = Some id ->
  internal_id (set_items t' (map (update_payload key' payload) rows) db) t key = Some id.
Proof.
  unfold internal_id. cbn [items_tables set_items]. intros T.
  destruct (decide (t' = t)) as [->|Hne].
  - rewrite lookup_insert_eq, T, find_item_update_other. auto.
  - rewrite lookup_insert_ne by exact Hne. auto.
Qed.

Lemma internal_id_set_items_app t t' key l db rows id :
  items_tables db !! t' = Some rows ->
  internal_id db t key = Some id ->
  internal_id (set_items t' (rows ++ l) db) t key = Some id.
Proof.
  unfold internal_id. cbn [items_tables set_items]. intros T.
  destruct (decide (t' = t)) as [->|Hne].
  - rewrite lookup_insert_eq, T.
    destruct (find_item key rows) as [r|] eqn:F; [| discriminate].
    rewrite (find_item_app_keep _ _ l _ F). auto.
  - rewrite lookup_insert_ne by exact Hne. auto.
Qed.

Lemma getOrCreateIdForKey_keeps b key' payload db c db' t key id :
  VecBackend.getOrCreateIdForKey env b key' payload db = (c, db') ->
  internal_id db t key = Some id -> internal_id db' t key = Some id.
Proof.
  intros E M.
  assert (H1 : forall d c1 d1, upsert_item_returning env (VecBackend.itemsTable b) key' payload d
                               = (c1, d1) ->
                               internal_id d t key = Some id -> internal_id d1 t key = Some id).
  { intros d c1 d1. unfold upsert_item_returning, attempt.
    destruct (native_error _ _ _); [intros [= <- <-]; auto |].
    cbn [items_tables log].
    destruct (items_tables d !! _) as [rows|] eqn:T; [| intros [= <- <-]; auto].
    destruct (find_item key' rows); intros [= <- <-] H.
    - apply (internal_id_set_items_update _ _ _ _ _ (log _ d) _ _ T H).
    - apply (internal_id_set_items_app _ _ _ _ (log _ d) _ _ T H). }
  assert (H2 : forall d c1 d1, insert_item_or_ignore env (VecBackend.itemsTable b) key' payload d
                               = (c1, d1) ->
                               internal_id d t key = Some id -> internal_id d1 t key = Some id).
  { intros d c1 d1. unfold insert_item_or_ignore, attempt.
    destruct (native_error _ _ _); [intros [= <- <-]; auto |].
    cbn [items_tables log].
    destruct (items_tables d !! _) as [rows|] eqn:T; [| intros [= <- <-]; auto].
    destruct (find_item key' rows); intros [= <- <-] H; [exact H |].
    apply (internal_id_set_items_app _ _ _ _ (log _ d) _ _ T H). }
  assert (H3 : forall d c1 d1, select_item_id env (VecBackend.itemsTable b) key' d
                               = (c1, d1) ->
                               internal_id d t key = Some id -> internal_id d1 t key = Some id).
  { intros d c1 d1. unfold select_item_id, attempt.
    destruct (native_error _ _ _); [intros [= <- <-]; auto |].
    cbn [items_tables log].
    destruct (items_tables d !! _); intros [= <- <-]; auto. }
  unfold VecBackend.getOrCreateIdForKey in E.
  destruct (upsert_item_returning _ _ _ _ _) as [[i|e] db1] eqn:E1.
  - injection E as <- <-. eapply H1; eassumption.
  - apply H1 in E1; [| exact M].
    apply and_then_inv in E as [([] & d1 & E2 & E) | (? & E2 & ->)].
    + apply H2 in E2; [| exact E1].
      apply and_then_inv in E as [(row & d2 & E3 & E) | (? & E3 & ->)].
      * apply H3 in E3; [| exact E2].
        destruct row; cbv [ret throw] in E; injection E as <- <-; exact E3.
      * eapply H3; eassumption.
    + eapply H2; eassumption.
Qed.

(** An upsert, of whatever id, changes no mapping. *)
Lemma upsert_keeps_internal_id id' v b db c db' t key id :
  VecBackend.upsert env id' v b db = (c, db') ->
  internal_id db t key = Some id -> internal_id db' t key = Some id.
Proof.
  unfold VecBackend.upsert.
  destruct (negb _); [intros [= <- <-]; auto |].
  destruct (VecBackend.dim b) as [d|]; [| intros [= <- <-]; auto].
  intros E M.
  assert (Hb : forall c1 d1, VecBackend.upsert_body env id' v b d db = (c1, d1) ->
                             internal_id d1 t key = Some id).
  { intros c1 d1 Eb. unfold VecBackend.upsert_body in Eb.
    apply and_then_inv in Eb as [([] & d0 & E0 & Eb) | (? & E0 & ->)];
      unfold lift in E0; injection E0 as _ <-; [| exact M].
    apply and_then_inv in Eb as [([] & d0 & E0 & Eb) | (? & E0 & ->)].
    - assert (d0 = db) as -> by (destruct (id' <? 0); cbv [ret throw] in E0; congruence).
      apply and_then_inv in Eb as [(i & d2 & E2 & Eb) | (? & E2 & ->)].
      + eapply getOrCreateIdForKey_keeps in E2; [| exact M].
        unfold insert_or_replace_vector, attempt in Eb.
        destruct (native_error _ _ _); [injection Eb as _ <-; exact E2 |].
        cbn [vtables log] in Eb.
        destruct (vtables d2 !! _); injection Eb as _ <-; exact E2.
      + eapply getOrCreateIdForKey_keeps in E2; [exact E2 | exact M].
    - destruct (id' <? 0); cbv [ret throw] in E0; injection E0 as _ <-; exact M. }
  destruct (VecBackend.upsert_body env id' v b d db) as [[[]|e] d1] eqn:Eb.
  - injection E as _ <-. eapply Hb; reflexivity.
  - specialize (Hb _ _ eq_refl). destruct (includes e "dimension"); injection E as _ <-; exact Hb.
Qed.

(** *** Creating the tables adds no key *)

Lemma external_keys_same_items db db' t :
  items_tables db' = items_tables db -> external_keys db t -> external_keys db' t.
Proof. unfold external_keys. intros ->. auto. Qed.

Lemma attempt_same_items {A} s (run : Sql A) db c db' :
  (forall d, items_tables (snd (run d)) = items_tables d) ->
  attempt env s run db = (c, db') -> items_tables db' = items_tables db.
Proof.
  intros Hrun. unfold attempt. destruct (native_error env s db).
  - intros [= <- <-]. reflexivity.
  - intros E. specialize (Hrun (log s db)). rewrite E in Hrun. exact Hrun.
Qed.

Lemma create_items_table_external_keys t' db c db' t :
  create_items_table env t' db = (c, db') -> external_keys db t -> external_keys db' t.
Proof.
  unfold create_items_table, attempt.
  destruct (native_error _ _ _); [intros [= <- <-]; auto |].
  cbn [items_tables log].
  destruct (items_tables db !! t') eqn:T; intros [= <- <-] H; [exact H |].
  intros rows r. cbn [items_tables set_items log].
  destruct (decide (t' = t)) as [->|Hne].
  - rewrite lookup_insert_eq. intros [= <-] [].
  - rewrite lookup_insert_ne by exact Hne. apply H.
Qed.

Lemma and_then_preserves {A B} (P : Database -> Prop) (m : Sql A) (k : A -> Sql B) :
  (forall db c db', m db = (c, db') -> P db -> P db') ->
  (forall a db c db', k a db = (c, db') -> P db -> P db') ->
  forall db c db', and_then m k db = (c, db') -> P db -> P db'.
Proof.
  intros Hm Hk db c db' E HP.
  apply and_then_inv in E as [(a & d1 & E1 & E) | (e & E1 & _)]; eauto.
Qed.

(** [ensureTable] adds no key to the mapping table. *)
Lemma ensureTable_external_keys d b db t :
  external_keys db t -> external_keys (snd (VecBackend.ensureTable env d b db)) t.
Proof.
  intros H. unfold VecBackend.ensureTable.
  destruct (negb _); [exact H |]. destruct (VecBackend.dim_is b d); [exact H |].
  assert (Hp : forall p x c1 x1, pragma env p x = (c1, x1) ->
                                 external_keys x t -> external_keys x1 t).
  { intros p x c1 x1 Ep. apply external_keys_same_items.
    eapply attempt_same_items; [| exact Ep]. reflexivity. }
  assert (Hv : forall x c1 x1,
             create_virtual_table env (VecBackend.table b) vec0 d x = (c1, x1) ->
             external_keys x t -> external_keys x1 t).
  { intros x c1 x1 Ev. apply external_keys_same_items.
    eapply attempt_same_items; [| exact Ev].
    intros y. cbn. destruct (vtables y !! _); reflexivity. }
  assert (Hc : forall x c d1, VecBackend.create_tables env b d x = (c, d1) ->
                              external_keys x t -> external_keys d1 t).
  { unfold VecBackend.create_tables.
    repeat (apply (and_then_preserves (fun x => external_keys x t)); [apply Hp | intros _]).
    apply (and_then_preserves (fun x => external_keys x t));
      [intros *; apply create_items_table_external_keys | intros _].
    apply Hv. }
  destruct (VecBackend.create_tables env b d db) as [[[]|e] d1] eqn:E; cbn [snd]; eauto.
Qed.

End KeyMapping.

(** ** Library load and self-test *)

(** C7, at the failing inputs.  On Windows, with a sqlite-vec library
    whose inserts fail, the self-test counts no vector, and the backend is
    returned, selected and available all the same.  On the second start on
    the same database the sentinel row is already there, sqlite-vec
    rejects its replacement, the body of [upsert] throws, and the backend
    is returned again.  On Linux, with a sqlite-vss library that loads but
    can create no table and store no row, the backend is selected and
    available, and only the two loads were sent.  In general the self-test
    keeps a backend whenever the table was created and the upsert did not
    throw, whatever the count, and [VssBackend.tryLoad] sends nothing but
    the loads of its libraries. *)
Theorem self_test_failure_keeps_backend :
  (let '(u, db) := UnifiedVectorBackend.tryLoad win32_failing_insert_env "/project" empty_db in
   UnifiedVectorBackend.getBackendType u = vec
   /\ UnifiedVectorBackend.isAvailable u = true
   /\ fst (UnifiedVectorBackend.count win32_failing_insert_env u db) = 0)
  /\ (let db1 := snd (VecBackend.tryLoad vec0_env "/project" empty_db) in
      fst (VecBackend.upsert_body vec0_env 999999 testVec win32_vec 384 db1)
      = Throw "UNIQUE constraint failed on memory_vectors_vec primary key"
      /\ fst (VecBackend.tryLoad vec0_env "/project" db1) = Some win32_vec
      /\ stored_vectors (snd (VecBackend.tryLoad vec0_env "/project" db1)) win32_vec 999999
         = [testVec])
  /\ (let '(u, db) := UnifiedVectorBackend.tryLoad linux_broken_env "/project" empty_db in
      UnifiedVectorBackend.getBackendType u = vss
      /\ UnifiedVectorBackend.isAvailable u = true
      /\ journal db = [LoadExtension "/project/.securamem/sqlite-vss/linux-x64/vector0.so";
                       LoadExtension "/project/.securamem/sqlite-vss/linux-x64/vss0.so"])
  /\ (forall env b db,
        VecBackend.loaded (fst (VecBackend.ensureTable env 384 b db)) = true ->
        is_throw (fst (VecBackend.upsert env 999999 testVec
                         (fst (VecBackend.ensureTable env 384 b db))
                         (snd (VecBackend.ensureTable env 384 b db)))) = false ->
        VecBackend.loaded (fst (VecBackend.selfTest env b db)) = true)
  /\ (forall env root db b db',
        VssBackend.tryLoad env root db = (Some b, db') ->
        exists l, journal db' = journal db ++ l
                  /\ Forall (fun s => exists p, s = LoadExtension p) l).
Proof.
  split; [vm_compute; repeat split; reflexivity |].
  split; [vm_compute; repeat split; reflexivity |].
  split; [vm_compute; repeat split; reflexivity |].
  split.
  - intros env b db. unfold VecBackend.selfTest.
    destruct (VecBackend.ensureTable env 384 b db) as [b1 db1]. cbn [fst snd].
    intros Hl. destruct (VecBackend.upsert _ _ _ _ _) as [[[]|e] db2]; [| discriminate].
    intros _. destruct (VecBackend.count env b1 db2). exact Hl.
  - intros env root db b db' E.
    destruct (VssBackend_tryLoad_some env root db b db' E) as (_ & _ & H). exact H.
Qed.

(** C10, at the failing input.  The key of the external id 1e21 is
    [memory_1e+21], and it is read back as 1: after [upsert(1e21, v)] the
    hit of a query carries the id 1, and after [upsert(1, w)] and
    [upsert(1e21, v)] both hits carry the id 1.  An external id from 0 to
    below 1e21 is read back as it was. *)
Theorem exponent_id_read_back_as_one :
  VecBackend.memory_key (10 ^ 21) = "memory_1e+21"%string
  /\ map hit_id
       (fst (VecBackend.queryNearest vec0_env [1; 2; 3]%Q 5 (fst vec0_backend)
               (snd (VecBackend.upsert vec0_env (10 ^ 21) [1; 2; 3]%Q
                       (fst vec0_backend) (snd vec0_backend)))))
     = [Int 1]
  /\ map hit_id
       (fst (VecBackend.queryNearest vec0_env [1; 2; 3]%Q 5 (fst vec0_backend)
               (snd (VecBackend.upsert vec0_env (10 ^ 21) [1; 2; 3]%Q (fst vec0_backend)
                       (snd (VecBackend.upsert vec0_env 1 [4; 5; 6]%Q
                               (fst vec0_backend) (snd vec0_backend)))))))
     = [Int 1; Int 1]
  /\ (forall e, 0 <= e < 10 ^ 21 ->
        parseInt (replace (VecBackend.memory_key e) "memory_" "") = Int e).
Proof.
  split; [vm_compute; reflexivity |].
  split; [vm_compute; reflexivity |].
  split; [vm_compute; reflexivity |].
  intros e He. rewrite replace_memory_key. apply parseInt_Number_toString. exact He.
Qed.

(** C8, witness: no library file exists. *)
Lemma unified_without_native_backend_witness :
  let u := fst (UnifiedVectorBackend.tryLoad quiet_env "/project" empty_db) in
  UnifiedVectorBackend.tryLoad quiet_env "/project" empty_db
  = ({| UnifiedVectorBackend.activeBackend := None |}, empty_db)
  /\ UnifiedVectorBackend.getBackendType u = local_js
  /\ UnifiedVectorBackend.isAvailable u = false.
Proof.
  cbn zeta.
  destruct (unified_without_native_backend quiet_env "/project" empty_db) as (_ & H2 & H3).
  split.
  - apply H3. intros p. reflexivity.
  - destruct H2 as (Ht & Ha & _); [reflexivity | auto].
Defined.

(** ** [indexFile] *)

Section IndexFile.
Import HybridSearchDatabase.
Variable h : Host.

Lemma keeps_refl t : keeps t t.
Proof. split; [auto | eauto]. Qed.

Lemma keeps_trans t1 t2 t3 : keeps t1 t2 -> keeps t2 t3 -> keeps t1 t3.
Proof.
  intros [F1 S1] [F2 S2]. split; [auto |].
  intros r Hr. destruct (S1 r Hr) as (r1 & H1 & I1 & K1).
  destruct (S2 r1 H1) as (r2 & H2 & I2 & K2).
  exists r2. repeat split; congruence.
Qed.

Lemma Kind_eqb_eq a b : Kind_eqb a b = true -> a = b.
Proof. destruct a, b; cbn; congruence. Qed.

Lemma same_key_spec fid s r :
  same_key fid s r = true ->
  symbol_key r = (fid, name s, kind s, start_byte s).
Proof.
  unfold same_key, symbol_key. rewrite !andb_true_iff.
  intros [[[H1 H2] H3] H4].
  apply Z.eqb_eq in H1, H4. apply String.eqb_eq in H2. apply Kind_eqb_eq in H3.
  congruence.
Qed.

Lemma symbols_of_In path t r :
  In r (symbols_of path t) <-> In r (code_symbols t) /\ file_known t (cs_file_id r) path = true.
Proof. unfold symbols_of, file_known. apply filter_In. Qed.

Lemma guarded_inv {A} w (run : Eff Tables A) t c t' :
  guarded h w run t = (c, t') ->
  (exists e, c = Throw e /\ t' = t) \/ run t = (c, t').
Proof.
  unfold guarded. destruct (write_error h w t); [intros [= <- <-]; eauto | auto].
Qed.

Lemma upsertFile_spec path sha t id t' :
  upsertFile h path sha t = (Normal id, t') ->
  code_symbols t' = code_symbols t
  /\ file_known t' id path = true
  /\ forall i p, file_known t i p = true -> file_known t' i p = true.
Proof.
  unfold upsertFile. intros [(e & [=] & _) | E]%guarded_inv.
  destruct (List.find _ (code_files t)) as [f|] eqn:F; injection E as <- <-;
    (split; [reflexivity |]); unfold file_known; cbn [code_files set_files].
  - apply List.find_some in F as [Hin Hp]. split.
    + apply existsb_exists. exists {| cf_id := cf_id f; cf_path := cf_path f; cf_sha256 := sha |}.
      split.
      * apply in_map_iff. exists f. rewrite Hp. auto.
      * cbn. rewrite Z.eqb_refl. exact Hp.
    + intros i p (g & Hg & Hk)%existsb_exists. apply existsb_exists.
      exists (if String.eqb (cf_path g) path
              then {| cf_id := cf_id g; cf_path := cf_path g; cf_sha256 := sha |} else g).
      split; [apply in_map_iff; eauto |].
      destruct (String.eqb (cf_path g) path); exact Hk.
  - split.
    + apply existsb_exists. eexists. split; [apply in_or_app; right; left; reflexivity |].
      cbn. rewrite Z.eqb_refl, String.eqb_refl. reflexivity.
    + intros i p (g & Hg & Hk)%existsb_exists. apply existsb_exists.
      exists g. split; [apply in_or_app; left; exact Hg | exact Hk].
Qed.

Lemma upsertSymbol_spec fid s t sid t' :
  upsertSymbol h fid s t = (Normal sid, t') ->
  keeps t t'
  /\ exists r, In r (code_symbols t') /\ symbol_key r = (fid, name s, kind s, start_byte s).
Proof.
  unfold upsertSymbol. intros [(e & [=] & _) | E]%guarded_inv.
  destruct (List.find _ (code_symbols t)) as [r0|] eqn:F; injection E as <- <-;
    unfold keeps, file_known; cbn [code_files code_symbols set_symbols set_fts fts_trigger].
  - apply List.find_some in F as [Hin Hk]. split; [split; [auto |] |].
    + intros r Hr.
      exists (if same_key fid s r then update_symbol s r else r).
      split; [apply in_map_iff; eauto |].
      destruct (same_key fid s r); auto.
    + exists (update_symbol s r0). split.
      * apply in_map_iff. exists r0. rewrite Hk. auto.
      * apply same_key_spec in Hk. exact Hk.
  - split; [split; [auto |] |].
    + intros r Hr. exists r. split; [apply in_or_app; left; exact Hr | auto].
    + eexists. split; [apply in_or_app; right; left; reflexivity | reflexivity].
Qed.

Lemma keeps_same t t' :
  code_files t' = code_files t -> code_symbols t' = code_symbols t -> keeps t t'.
Proof.
  intros F S. unfold keeps, file_known. rewrite F, S. split; [auto | eauto].
Qed.

Lemma upsertEmbedding_keeps id e t c t' :
  upsertEmbedding h id e t = (c, t') -> keeps t t'.
Proof.
  unfold upsertEmbedding.
  intros [(? & _ & ->) | [= _ <-]]%guarded_inv; apply keeps_same; reflexivity.
Qed.

Lemma upsertFts_keeps id a b c0 t c t' :
  upsertFts h id a b c0 t = (c, t') -> keeps t t'.
Proof.
  unfold upsertFts.
  intros [(? & _ & ->) | [= _ <-]]%guarded_inv; apply keeps_same; reflexivity.
Qed.

Lemma keeps_symbol t t' k :
  keeps t t' ->
  (exists r, In r (code_symbols t) /\ symbol_key r = k) ->
  exists r, In r (code_symbols t') /\ symbol_key r = k.
Proof.
  intros [_ S] (r & Hr & Hk). destruct (S r Hr) as (r' & Hr' & _ & Hk').
  exists r'. split; [exact Hr' | congruence].
Qed.

Lemma index_symbol_spec content fid s t t' :
  index_symbol h content fid s t = (Normal tt, t') ->
  keeps t t'
  /\ exists r, In r (code_symbols t') /\ symbol_key r = (fid, name s, kind s, start_byte s).
Proof.
  unfold index_symbol. intros E.
  apply and_then_inv in E as [(sid & t1 & E1 & E) | (? & _ & [=])].
  apply upsertSymbol_spec in E1 as [K1 R1].
  apply and_then_inv in E as [([] & t2 & E2 & E) | (? & _ & [=])].
  assert (K2 : keeps t1 t2).
  { destruct (embedding s); [eapply upsertEmbedding_keeps; eassumption |].
    cbv [ret] in E2. injection E2 as <-. apply keeps_refl. }
  apply upsertFts_keeps in E as K3.
  split; [eauto using keeps_trans |].
  eapply keeps_symbol; [exact K3 |]. eapply keeps_symbol; [exact K2 | exact R1].
Qed.

Lemma index_symbols_spec content fid symbols n t m t' :
  index_symbols h content fid symbols n t = (Normal m, t') ->
  m = n + Z.of_nat (length symbols)
  /\ keeps t t'
  /\ forall s, In s symbols ->
       exists r, In r (code_symbols t')
                 /\ symbol_key r = (fid, name s, kind s, start_byte s).
Proof.
  revert n t. induction symbols as [|s rest IH]; intros n t E; cbn [index_symbols] in E.
  - cbv [ret] in E. injection E as <- <-.
    split; [cbn; lia | split; [apply keeps_refl | intros s []]].
  - apply and_then_inv in E as [([] & t1 & E1 & E) | (? & _ & [=])].
    apply index_symbol_spec in E1 as [K1 R1].
    apply IH in E as (-> & K & R).
    split; [cbn [length]; lia | split; [eauto using keeps_trans |]].
    intros s' [<- | Hs]; [eapply keeps_symbol; eassumption | auto].
Qed.

(** [indexFile] is one transaction of upserts.  When it completes it
    returns the number of symbols it was given, every one of them is among
    the symbols of the file, and every symbol row that was there before,
    of this file or another, is still there with its id and key.  When a
    statement fails the tables are left as they were. *)
Lemma indexFile_spec (filePath content : string)
    (symbols : list SymbolInput) (t : Tables) :
  match indexFile h filePath content symbols t with
  | (Normal n, t') =>
      n = Z.of_nat (length symbols)
      /\ (forall s, In s symbols ->
            exists r, In r (symbols_of filePath t')
                      /\ cs_name r = name s /\ cs_kind r = kind s
                      /\ cs_start_byte r = start_byte s)
      /\ (forall p r, In r (symbols_of p t) ->
            exists r', In r' (symbols_of p t')
                       /\ cs_id r' = cs_id r /\ symbol_key r' = symbol_key r)
  | (Throw _, t') => t' = t
  end.
Proof.
  unfold indexFile, transaction.
  destruct (and_then _ _ t) as [[n|e] t'] eqn:E; [| reflexivity].
  apply and_then_inv in E as [(fid & t1 & E1 & E) | (? & _ & [=])].
  apply upsertFile_spec in E1 as (S1 & F1 & K1).
  apply index_symbols_spec in E as (-> & [KF KS] & R).
  split; [lia | split].
  - intros s Hs. destruct (R s Hs) as (r & Hr & Hk).
    exists r. unfold symbol_key in Hk. injection Hk as Hf Hn Hkd Hb.
    rewrite symbols_of_In. rewrite Hf. auto.
  - intros p r [Hr Hf]%symbols_of_In.
    rewrite <- S1 in Hr. destruct (KS r Hr) as (r' & Hr' & Hi & Hk).
    exists r'. rewrite symbols_of_In. repeat split; auto.
    assert (cs_file_id r' = cs_file_id r) as -> by (unfold symbol_key in Hk; congruence).
    auto.
Qed.

End IndexFile.

Section IndexFileExample.
Import HybridSearchDatabase.

Lemma prepare_all_rejected (prepare_error : Statement -> option string) l s msg :
  In s l -> prepare_error s = Some msg -> is_throw (prepare_all prepare_error l) = true.
Proof.
  induction l as [|x l IH]; [intros [] |].
  intros [-> | Hin] E; cbn [prepare_all].
  - rewrite E. reflexivity.
  - destruct (prepare_error x); [reflexivity | exact (IH Hin E)].
Qed.

(** C2, at the failing input.  On a new database file the constructor
    throws at the first statement it prepares, the schema not being there
    yet; on a database that has the schema it throws at the upsert on the
    table of embeddings; and it throws whenever the engine rejects one of
    the five statements.  Then there is no handle: [indexFile] is not
    reached and the tables stay as they were.  The body of [indexFile]
    itself holds no delete: run on tables that take its statements, a
    re-indexed file keeps the symbol of its former version next to the
    new one, and in general every symbol row that was there before
    [indexFile] is there after it, with its id and key. *)
Theorem reindexing_replaces_nothing :
  new no_schema = Throw "no such table: code_files"
  /\ index_on_new_handle no_schema plain_host "a.ts" "function newName() {}"
       [symbol_at "newName" KFunction 0 21] empty_tables
     = (Throw "no such table: code_files", empty_tables)
  /\ new (with_schema false) = Throw "no such table: code_symbols_embedding"
  /\ new (with_schema true) = Throw (upsert_on_virtual_table "code_symbols_embedding")
  /\ (forall prepare_error s msg,
        In s statements -> prepare_error s = Some msg ->
        is_throw (new prepare_error) = true)
  /\ (forall prepare_error h filePath content symbols t,
        is_throw (new prepare_error) = true ->
        is_throw (fst (index_on_new_handle prepare_error h filePath content symbols t)) = true
        /\ snd (index_on_new_handle prepare_error h filePath content symbols t) = t)
  /\ (fst reindexed = Normal 1
      /\ map cs_name (symbols_of "a.ts" (snd reindexed)) = ["oldName"; "newName"]%string)
  /\ (forall h filePath content symbols t n t' p r,
        indexFile h filePath content symbols t = (Normal n, t') ->
        In r (symbols_of p t) ->
        exists r', In r' (symbols_of p t')
                   /\ cs_id r' = cs_id r /\ symbol_key r' = symbol_key r).
Proof.
  split; [reflexivity |]. split; [reflexivity |].
  split; [reflexivity |]. split; [reflexivity |].
  split; [| split; [| split]].
  - intros prepare_error s msg. apply prepare_all_rejected.
  - intros prepare_error h filePath content symbols t H.
    unfold index_on_new_handle. destruct (new prepare_error); [discriminate H |].
    split; reflexivity.
  - split; vm_compute; reflexivity.
  - intros h filePath content symbols t n t' p r E.
    pose proof (indexFile_spec h filePath content symbols t) as H.
    rewrite E in H. destruct H as (_ & _ & H). apply H.
Qed.

End IndexFileExample.

(** ** Score fusion *)

Section Fusion.
Import HybridSearchDatabase.

Lemma left_join_spec sid hits o :
  In o (left_join sid hits) ->
  (o = None /\ ~ In sid (map fst hits)) \/ In (sid, o) hits.
Proof.
  unfold left_join.
  destruct (List.filter _ hits) as [|y l] eqn:F.
  - intros [<-|[]]. left. split; [reflexivity |].
    intros ([i x] & Hi & Hin)%in_map_iff. cbn in Hi. subst i.
    assert (H : In (sid, x) (List.filter (fun hrow => fst hrow =? sid) hits)).
    { apply filter_In. split; [exact Hin | apply Z.eqb_refl]. }
    rewrite F in H. exact H.
  - rewrite <- F. intros ([i x] & <- & [Hin Hi]%filter_In)%in_map_iff.
    cbn in Hi. apply Z.eqb_eq in Hi. subst i. right. exact Hin.
Qed.








Lemma cosineSim_pos d : (0 <= d)%Q -> (SearchCode.cosineSim d == 1 / (1 + d))%Q.
Proof.
  intros Hd. unfold SearchCode.cosineSim. apply Q.max_r.
  apply Qlt_le_weak. unfold Qdiv. rewrite Qmult_1_l.
  apply Qinv_lt_0_compat.
  apply Qlt_le_trans with (y := 1%Q); [reflexivity |].
  rewrite <- (Qplus_0_r 1) at 1. apply Qplus_le_r. exact Hd.
Qed.

Lemma or_else_nonzero d x : (0 < d)%Q -> SearchCode.or_else (Some d) x = d.
Proof.
  intros Hd. unfold SearchCode.or_else.
  destruct (Qeq_bool d 0) eqn:E; [| reflexivity].
  apply Qeq_bool_iff in E. rewrite E in Hd. exfalso. exact (Qlt_irrefl 0 Hd).
Qed.

Lemma In_insert_desc {A} (score : A -> Q) (x y : A) l :
  In x (insert_desc score y l) -> x = y \/ In x l.
Proof.
  induction l as [|z l IH]; cbn.
  - intros [->|[]]; auto.
  - destruct (Qle_bool _ _); cbn.
    + intros [->|H]; auto.
    + intros [->|H]; [auto |]. apply IH in H. tauto.
Qed.


Lemma In_insert_desc_null {A} (score : A -> option Q) (x y : A) l :
  In x (insert_desc_null score y l) -> x = y \/ In x l.
Proof.
  induction l as [|z l IH]; cbn.
  - intros [->|[]]; auto.
  - destruct (null_leb _ _); cbn.
    + intros [->|H]; auto.
    + intros [->|H]; [auto |]. apply IH in H. tauto.
Qed.











End Fusion.

(** ** Bounds of the normalized scores *)

Section Bounds.
Import HybridSearchDatabase.

Lemma sql_norm_bounds x :
  (0 <= x)%Q -> exists s, sql_norm x = Some s /\ (0 < s)%Q /\ (s <= 1)%Q.
Proof.
  intros Hx. unfold sql_norm.
  assert (Hp : (0 < 1 + x)%Q) by lra.
  destruct (Qeq_bool (1 + x) 0) eqn:E.
  - apply Qeq_bool_iff in E. lra.
  - eexists. split; [reflexivity |]. split.
    + unfold Qdiv. rewrite Qmult_1_l. apply Qinv_lt_0_compat. exact Hp.
    + apply Qle_shift_div_r; [exact Hp | lra].
Qed.

Lemma cosineSim_bounds d :
  (0 <= d)%Q -> (0 < SearchCode.cosineSim d)%Q /\ (SearchCode.cosineSim d <= 1)%Q.
Proof.
  intros Hd. unfold SearchCode.cosineSim.
  assert (Hp : (0 < 1 + d)%Q) by lra.
  assert (H1 : (0 < 1 / (1 + d))%Q).
  { unfold Qdiv. rewrite Qmult_1_l. apply Qinv_lt_0_compat. exact Hp. }
  assert (H2 : (1 / (1 + d) <= 1)%Q) by (apply Qle_shift_div_r; [exact Hp | lra]).
  rewrite Q.max_r by (apply Qlt_le_weak; exact H1). auto.
Qed.

Lemma map_fst_norm raw : map fst (text_norm raw) = map fst raw.
Proof. unfold text_norm. rewrite map_map. reflexivity. Qed.

(** A rank between -1 and 0, as [bm25] gives to a match, is normalized to
    a score above 1. *)
Lemma sql_norm_negative_rank x :
  (-1 < x)%Q -> (x < 0)%Q -> exists s, sql_norm x = Some s /\ (1 < s)%Q.
Proof.
  intros H1 H0. unfold sql_norm.
  assert (Hp : (0 < 1 + x)%Q) by lra.
  destruct (Qeq_bool (1 + x) 0) eqn:E.
  - apply Qeq_bool_iff in E. lra.
  - eexists. split; [reflexivity |].
    apply Qlt_shift_div_l; [exact Hp | lra].
Qed.

(** A rank below -1 is normalized to a negative score. *)
Lemma sql_norm_below_minus_one x :
  (x < -1)%Q -> exists s, sql_norm x = Some s /\ (s < 0)%Q.
Proof.
  intros H1. unfold sql_norm.
  destruct (Qeq_bool (1 + x) 0) eqn:E.
  - apply Qeq_bool_iff in E. lra.
  - eexists. split; [reflexivity |].
    assert (Hp : (0 < 1 / (- (1 + x)))%Q).
    { unfold Qdiv. rewrite Qmult_1_l. apply Qinv_lt_0_compat. lra. }
    assert (Hq : (1 / (1 + x) == - (1 / (- (1 + x))))%Q) by (field; lra).
    rewrite Hq. lra.
Qed.

(** C4, at the failing input.  The full-text match gives the one symbol
    the rank -0.000001375, as [bm25] does: the text-only search returns it
    with a text score and a hybrid score above 1, [hybridSearch] returns
    the same row when its statement throws, and the hybrid statement, run
    on a host that has a vector search, gives the row a text score above 1
    as well.  Every rank between -1 and 0 is normalized to a score above
    1, every rank below -1 to a negative score, and the rank -1 to [NULL];
    a distance that is not negative is normalized into (0,1], in the
    statement and in [handleSearchCode]. *)
Theorem lexical_score_above_one :
  (exists r s,
      textOnlySearch (text_only_host [(1, bm25_of_f)]) one_symbol_tables "f" (Some 5) None = [r]
      /\ id r = 1 /\ text_score r = Some s /\ hybrid_score r = Some s /\ (1 < s)%Q)
  /\ hybridSearch (text_only_host [(1, bm25_of_f)]) one_symbol_tables "f" [] no_search_options
     = textOnlySearch (text_only_host [(1, bm25_of_f)]) one_symbol_tables "f" (Some 20) None
  /\ (exists r s,
        hybridSearch_try (search_host [(1, bm25_of_f)] []) one_symbol_tables "f" []
          no_search_options = Normal [r]
        /\ id r = 1 /\ text_score r = Some s /\ (1 < s)%Q)
  /\ (forall x, (-1 < x)%Q -> (x < 0)%Q -> exists s, sql_norm x = Some s /\ (1 < s)%Q)
  /\ (forall x, (x < -1)%Q -> exists s, sql_norm x = Some s /\ (s < 0)%Q)
  /\ sql_norm (-1) = None
  /\ (forall d, (0 <= d)%Q -> exists s, sql_norm d = Some s /\ (0 < s)%Q /\ (s <= 1)%Q)
  /\ (forall d, (0 <= d)%Q ->
        (0 < SearchCode.cosineSim d)%Q /\ (SearchCode.cosineSim d <= 1)%Q).
Proof.
  split; [| split; [| split; [| split; [| split; [| split; [| split]]]]]].
  - eexists. eexists. split; [vm_compute; reflexivity |].
    split; [reflexivity |]. split; [reflexivity |]. split; [reflexivity |].
    vm_compute. reflexivity.
  - vm_compute. reflexivity.
  - eexists. eexists. split; [vm_compute; reflexivity |].
    split; [reflexivity |]. split; [reflexivity |]. vm_compute. reflexivity.
  - exact sql_norm_negative_rank.
  - exact sql_norm_below_minus_one.
  - vm_compute. reflexivity.
  - exact sql_norm_bounds.
  - exact cosineSim_bounds.
Qed.

End Bounds.

(** ** Symbol extraction *)

Section Heuristics.
Import EnhancedCodeIndexer.

Lemma for_lines_In {A} (body : Z -> string -> list A) rest i x :
  In x (for_lines body rest i) ->
  exists j line, i <= j < i + Z.of_nat (length rest) /\ In x (body j line).
Proof.
  revert i. induction rest as [|l rest IH]; intros i; cbn [for_lines]; [intros [] |].
  intros [H | H]%in_app_or.
  - exists i, l. split; [cbn [length]; lia | exact H].
  - apply IH in H as (j & line & Hj & H). exists j, line.
    split; [cbn [length]; lia | exact H].
Qed.











Lemma windows_terminate fuel rel language lines i maxLines :
  1 <= maxLines -> Z.of_nat (length lines) - i <= Z.of_nat fuel ->
  windows fuel rel language lines i maxLines <> None.
Proof.
  intros Hm. revert i. induction fuel as [|fuel IH]; intros i Hf; cbn [windows].
  - destruct (_ <=? i) eqn:L; [discriminate | apply Z.leb_gt in L; lia].
  - destruct (_ <=? i) eqn:L; [discriminate |].
    specialize (IH (i + maxLines) ltac:(lia)).
    destruct (windows fuel rel language lines (i + maxLines) maxLines); [discriminate | congruence].
Qed.


(** C5, as the code has it.  [chunkFileWithTreeSitter] never runs the
    syntax-tree tier.  It runs the heuristic tier first; when that tier
    finds a symbol, its symbols are the chunks and the line-window tier is
    not run; when it finds none, the line-window tier runs, and returns
    when the window size is at least 1. *)
Theorem chunking_tiers (relativeFile : string) (language : option string)
    (text : string) (options : EnhancedIndexOptions) :
  let c := chunkFileWithTreeSitter relativeFile language text options in
  let symbols := extractSymbolsHeuristically text language in
  ~ In AstTier (tiers c)
  /\ (symbols <> [] ->
      tiers c = [HeuristicTier]
      /\ chunks c = Some (map (chunk_of_symbol relativeFile language) symbols))
  /\ (symbols = [] -> tiers c = [HeuristicTier; LineWindowTier])
  /\ (1 <= HybridSearchDatabase.value_or (maxChunkLines options) 200 -> chunks c <> None).
Proof.
  cbn zeta. unfold chunkFileWithTreeSitter, enhancedHeuristicChunking.
  destruct (extractSymbolsHeuristically text language) as [|s ss] eqn:E;
    cbn [tiers chunks fallbackToHeuristicChunking].
  - split; [intros [H | [H | []]]; discriminate H |].
    split; [congruence |]. split; [reflexivity |].
    intros Hm. apply windows_terminate; [exact Hm | lia].
  - split; [intros [H | []]; discriminate H |].
    split; [auto |]. split; [discriminate | discriminate].
Qed.

(** C5, witness. *)
Lemma chunking_tiers_witness :
  tiers (chunkFileWithTreeSitter "a.ts" (Some "typescript"%string) "function f() {}" no_options)
  = [HeuristicTier]
  /\ tiers (chunkFileWithTreeSitter "notes.txt" None "two
lines" no_options)
     = [HeuristicTier; LineWindowTier]
  /\ chunks (chunkFileWithTreeSitter "notes.txt" None "two
lines" no_options) <> None.
Proof.
  split; [| split].
  - apply (chunking_tiers "a.ts" (Some "typescript"%string) "function f() {}" no_options).
    vm_compute. discriminate.
  - apply (chunking_tiers "notes.txt" None "two
lines" no_options). reflexivity.
  - apply (chunking_tiers "notes.txt" None "two
lines" no_options). vm_compute. discriminate.
Defined.

(** C5, counterexample: for [function f() {}] the syntax-tree tier yields
    one symbol, and the chunking of the file runs the heuristic tier. *)
Lemma ast_tier_not_attempted :
  length (TreeSitterLoader.extractSymbols (Some "typescript"%string) parse_f
            "a.ts" "function f() {}") = 1%nat
  /\ tiers (chunkFileWithTreeSitter "a.ts" (Some "typescript"%string)
              "function f() {}" no_options) = [HeuristicTier].
Proof. split; vm_compute; reflexivity. Qed.














(** The bound of [endLine] in the heuristic tier is reached: in a Python
    file of two lines that ends with a newline, the function that runs to
    the end of the file has [endLine = 3]. *)
Lemma heuristic_end_line_after_last_line :
  extractSymbolsHeuristically two_line_python (Some "python"%string) = [symbol_def_f]
  /\ line_count (split_lines two_line_python) = 2
  /\ startLine symbol_def_f = 1 /\ endLine symbol_def_f = 3.
Proof. repeat split; vm_compute; reflexivity. Qed.

End Heuristics.


Section Unavailable.
Variable env : Env.

Lemma call_unavailable u db c :
  UnifiedVectorBackend.isAvailable u = false -> call env (u, db) c = (u, db).
Proof.
  destruct u as [[[b|b]|]]; cbn; intros H.
  - unfold VecBackend.isAvailable in H.
    destruct c; cbn;
      unfold VecBackend.ensureTable, VecBackend.upsert, VecBackend.queryNearest,
        VecBackend.count; rewrite H; reflexivity.
  - unfold VssBackend.isAvailable in H.
    destruct c; cbn;
      unfold VssBackend.ensureTable, VssBackend.upsert, VssBackend.queryNearest,
        VssBackend.count; rewrite H; reflexivity.
  - destruct c; reflexivity.
Qed.

(** X1.  A handle that is not available, whether it has no backend or one
    that was switched off, is inert: every sequence of [ensureTable],
    [upsert], [queryNearest] and [count] leaves the handle and the database
    as they were, [upsert] completes, [queryNearest] returns no hit and
    [count] returns 0.  So a handle never becomes available again. *)
Theorem unavailable_backend_is_inert (u : UnifiedVectorBackend.t) (db : Database)
    (cs : list Call) :
  UnifiedVectorBackend.isAvailable u = false ->
  calls env cs (u, db) = (u, db)
  /\ (forall id v, fst (UnifiedVectorBackend.upsert env id v u db) = Normal tt)
  /\ (forall q k, fst (UnifiedVectorBackend.queryNearest env q k u db) = [])
  /\ fst (UnifiedVectorBackend.count env u db) = 0.
Proof.
  intros H. split; [| split; [| split]].
  - induction cs as [|c cs IH]; [reflexivity |].
    unfold calls. cbn [fold_left]. rewrite call_unavailable by exact H. exact IH.
  - intros id v. destruct u as [[[b|b]|]]; cbn in *; [| | reflexivity].
    + unfold VecBackend.isAvailable in H. unfold VecBackend.upsert. rewrite H. reflexivity.
    + unfold VssBackend.isAvailable in H. unfold VssBackend.upsert. rewrite H. reflexivity.
  - intros q k. destruct u as [[[b|b]|]]; cbn in *; [| | reflexivity].
    + unfold VecBackend.isAvailable in H. unfold VecBackend.queryNearest. rewrite H. reflexivity.
    + unfold VssBackend.isAvailable in H. unfold VssBackend.queryNearest. rewrite H. reflexivity.
  - destruct u as [[[b|b]|]]; cbn in *; [| | reflexivity].
    + unfold VecBackend.isAvailable in H. unfold VecBackend.count. rewrite H. reflexivity.
    + unfold VssBackend.isAvailable in H. unfold VssBackend.count. rewrite H. reflexivity.
Qed.

End Unavailable.

Section UpsertErrors.
Variable env : Env.

Lemma invalid_id_message (id : Z) :
  includes ("Invalid ID for sqlite-vec: " +:+ Number_toString id
            +:+ " (must be positive integer)") "dimension" = false.
Proof.
  change (includes (Number_toString id +:+ " (must be positive integer)") "dimension" = false).
  rewrite includes_Number_toString. reflexivity.
Qed.

(** X2.  On a loaded sqlite-vec backend whose table has dimension [d], an
    upsert of a vector of another length throws an error whose message
    is [Vector dimension <length> != <d>], through
    [UnifiedVectorBackend.upsert] too, and changes neither the backend nor
    the database: no statement is sent. *)
Theorem upsert_wrong_dimension_rejected (id : Z) (v : Float32Array)
    (b : VecBackend.t) (db : Database) (d : Z) :
  VecBackend.loaded b = true -> VecBackend.dim b = Some d ->
  Z.of_nat (length v) <> d ->
  let u := {| UnifiedVectorBackend.activeBackend := Some (UnifiedVectorBackend.Vec b) |} in
  UnifiedVectorBackend.upsert env id v u db
  = (Throw ("Vector dimension " +:+ Number_toString (Z.of_nat (length v))
            +:+ " != " +:+ Number_toString d), (u, db)).
Proof.
  intros Hl Hd Hne u. unfold UnifiedVectorBackend.upsert. cbn [UnifiedVectorBackend.activeBackend u].
  unfold VecBackend.upsert, VecBackend.upsert_body.
  rewrite Hl, Hd. cbn [negb]. unfold and_then at 1, lift.
  unfold assertDim. apply Z.eqb_neq in Hne. rewrite Hne.
  reflexivity.
Qed.

(** X3.  On a loaded sqlite-vec backend an upsert under a negative id, with a
    vector of the right length, stores nothing and throws nothing: the
    error [Invalid ID for sqlite-vec] is caught, and its message never
    holds the word [dimension] that would make the catch throw it again. *)
Theorem upsert_invalid_id_ignored (id : Z) (v : Float32Array)
    (b : VecBackend.t) (db : Database) (d : Z) :
  VecBackend.loaded b = true -> VecBackend.dim b = Some d ->
  Z.of_nat (length v) = d -> id < 0 ->
  VecBackend.upsert env id v b db = (Normal tt, db).
Proof.
  intros Hl Hd Hv Hid. unfold VecBackend.upsert, VecBackend.upsert_body.
  rewrite Hl, Hd. cbn [negb]. unfold and_then at 1, lift.
  unfold assertDim. apply Z.eqb_eq in Hv. rewrite Hv.
  unfold and_then at 1. apply Z.ltb_lt in Hid. rewrite Hid.
  unfold throw. rewrite invalid_id_message. reflexivity.
Qed.

End UpsertErrors.

Lemma upsert_wrong_dimension_rejected_witness :
  UnifiedVectorBackend.upsert quiet_env 7 [1; 2]%Q
    {| UnifiedVectorBackend.activeBackend := Some (UnifiedVectorBackend.Vec (fst keymap_backend)) |}
    (snd keymap_backend)
  = (Throw "Vector dimension 2 != 3",
     ({| UnifiedVectorBackend.activeBackend := Some (UnifiedVectorBackend.Vec (fst keymap_backend)) |},
      snd keymap_backend)).
Proof.
  apply (upsert_wrong_dimension_rejected quiet_env 7 [1; 2]%Q (fst keymap_backend) (snd keymap_backend) 3).
  - reflexivity.
  - reflexivity.
  - cbn. lia.
Defined.


Lemma upsert_invalid_id_ignored_witness :
  VecBackend.upsert quiet_env (-5) [1; 2; 3]%Q (fst keymap_backend) (snd keymap_backend)
  = (Normal tt, snd keymap_backend).
Proof.
  apply (upsert_invalid_id_ignored quiet_env (-5) [1; 2; 3]%Q (fst keymap_backend)
           (snd keymap_backend) 3); [reflexivity | reflexivity | reflexivity | lia].
Defined.


Section Store.
Variable env : Env.

Lemma attempt_quiet {A} (s : Stmt) (run : Sql A) db :
  quiet env -> attempt env s run db = run (log s db).
Proof. intros H. unfold attempt. rewrite H. reflexivity. Qed.

(** Statements on the mapping table leave the vector tables alone. *)
Lemma attempt_same_vtables {A} s (run : Sql A) db c db' :
  (forall d, vtables (snd (run d)) = vtables d) ->
  attempt env s run db = (c, db') -> vtables db' = vtables db.
Proof.
  intros Hrun. unfold attempt. destruct (native_error env s db).
  - intros [= <- <-]. reflexivity.
  - intros E. specialize (Hrun (log s db)). rewrite E in Hrun. exact Hrun.
Qed.

Ltac run_keeps_vtables :=
  intros ?; cbn;
  repeat match goal with
         | |- context [match ?x with _ => _ end] => destruct x; cbn
         end; reflexivity.

Lemma getOrCreateIdForKey_vtables b key payload db c db' :
  VecBackend.getOrCreateIdForKey env b key payload db = (c, db') ->
  vtables db' = vtables db.
Proof.
  unfold VecBackend.getOrCreateIdForKey.
  destruct (upsert_item_returning _ _ _ _ _) as [[i|e] db1] eqn:E1.
  - intros [= <- <-]. revert E1. apply attempt_same_vtables. run_keeps_vtables.
  - assert (H1 : vtables db1 = vtables db).
    { revert E1. apply attempt_same_vtables. run_keeps_vtables. }
    intros E.
    apply and_then_inv in E as [([] & d2 & E2 & E) | (? & E2 & ->)].
    + assert (H2 : vtables d2 = vtables db1).
      { revert E2. apply attempt_same_vtables. run_keeps_vtables. }
      apply and_then_inv in E as [(row & d3 & E3 & E) | (? & E3 & ->)].
      * assert (H3 : vtables d3 = vtables d2).
        { revert E3. apply attempt_same_vtables. run_keeps_vtables. }
        assert (d3 = db') as <- by (destruct row; cbv [ret throw] in E; congruence).
        congruence.
      * assert (H3 : vtables db' = vtables d2).
        { revert E3. apply attempt_same_vtables. run_keeps_vtables. }
        congruence.
    + assert (H2 : vtables db' = vtables db1).
      { revert E2. apply attempt_same_vtables. run_keeps_vtables. }
      congruence.
Qed.

Lemma getOrCreateIdForKey_quiet b key payload db :
  quiet env -> is_Some (items_tables db !! VecBackend.itemsTable b) ->
  exists i db', VecBackend.getOrCreateIdForKey env b key payload db = (Normal i, db')
                /\ is_Some (items_tables db' !! VecBackend.itemsTable b).
Proof.
  intros Hq [rows Hr]. unfold VecBackend.getOrCreateIdForKey, upsert_item_returning.
  rewrite attempt_quiet by exact Hq. cbn [items_tables log]. rewrite Hr.
  destruct (find_item key rows); eexists _, _; (split; [reflexivity |]);
    cbn [items_tables set_items]; rewrite lookup_insert_eq; eauto.
Qed.

Lemma filter_replace_row_same i v rows :
  List.filter (fun r : Z * Float32Array => fst r =? i) (replace_row i v rows) = [(i, v)].
Proof.
  unfold replace_row. rewrite List.filter_app. cbn [List.filter fst]. rewrite Z.eqb_refl.
  replace (List.filter _ (List.filter _ rows)) with (@nil (Z * Float32Array)); [reflexivity |].
  induction rows as [|r rows IH]; [reflexivity |].
  cbn [List.filter]. destruct (fst r =? i) eqn:E; cbn [negb List.filter]; [exact IH |].
  rewrite E. exact IH.
Qed.

Lemma filter_replace_row_other i j v rows :
  i <> j ->
  List.filter (fun r : Z * Float32Array => fst r =? j) (replace_row i v rows)
  = List.filter (fun r => fst r =? j) rows.
Proof.
  intros Hij. unfold replace_row. rewrite List.filter_app. cbn [List.filter fst].
  apply Z.eqb_neq in Hij. rewrite Hij, app_nil_r.
  induction rows as [|r rows IH]; [reflexivity |].
  cbn [List.filter]. destruct (fst r =? i) eqn:E; cbn [negb List.filter].
  - apply Z.eqb_eq in E. rewrite E, Hij. exact IH.
  - destruct (fst r =? j); [f_equal |]; exact IH.
Qed.

Lemma length_replace_row i v rows :
  Z.of_nat (length (replace_row i v rows))
  = Z.of_nat (length rows)
    - Z.of_nat (length (List.filter (fun r : Z * Float32Array => fst r =? i) rows)) + 1.
Proof.
  unfold replace_row. rewrite length_app. cbn [length].
  induction rows as [|r rows IH]; [reflexivity |].
  cbn [List.filter]. destruct (fst r =? i); cbn [negb length] in *; lia.
Qed.

Lemma count_quiet b db vt :
  quiet env -> VecBackend.loaded b = true ->
  vtables db !! VecBackend.table b = Some vt ->
  fst (VecBackend.count env b db) = Z.of_nat (length (vt_rows vt)).
Proof.
  intros Hq Hl Hvt. unfold VecBackend.count, select_count. rewrite Hl. cbn [negb].
  rewrite attempt_quiet by exact Hq. cbn [vtables log]. rewrite Hvt. reflexivity.
Qed.

Lemma upsert_quiet id v b db vt :
  quiet env ->
  VecBackend.loaded b = true -> VecBackend.dim b = Some (Z.of_nat (length v)) ->
  0 <= id ->
  is_Some (items_tables db !! VecBackend.itemsTable b) ->
  vtables db !! VecBackend.table b = Some vt ->
  exists i db1,
    VecBackend.getOrCreateIdForKey env b (VecBackend.memory_key id) None db = (Normal i, db1)
    /\ VecBackend.upsert env id v b db
       = (Normal tt,
          set_vtable (VecBackend.table b)
            {| vt_module := vt_module vt; vt_dim := vt_dim vt;
               vt_rows := replace_row i v (vt_rows vt) |}
            (log (InsertOrReplaceVector (VecBackend.table b) i v) db1)).
Proof.
  intros Hq Hl Hd Hid Hit Hvt.
  destruct (getOrCreateIdForKey_quiet b (VecBackend.memory_key id) None db Hq Hit)
    as (i & db1 & E & _).
  exists i, db1. split; [exact E |].
  unfold VecBackend.upsert, VecBackend.upsert_body. rewrite Hl, Hd. cbn [negb].
  unfold and_then at 1, lift. unfold assertDim. rewrite Z.eqb_refl.
  unfold and_then at 1. apply Z.ltb_ge in Hid. rewrite Hid. unfold ret at 1.
  unfold and_then. rewrite E. unfold insert_or_replace_vector.
  rewrite attempt_quiet by exact Hq. cbn [vtables log].
  rewrite (getOrCreateIdForKey_vtables _ _ _ _ _ _ E), Hvt. reflexivity.
Qed.

Lemma internal_id_same_items db db' t key :
  items_tables db' = items_tables db -> internal_id db' t key = internal_id db t key.
Proof. intros H. unfold internal_id. rewrite H. reflexivity. Qed.

(** What an upsert leaves in the tables when nothing is rejected. *)
Lemma upsert_quiet_stores (id : Z) (v : Float32Array) (b : VecBackend.t) (db : Database) :
  quiet env ->
  VecBackend.loaded b = true -> VecBackend.dim b = Some (Z.of_nat (length v)) ->
  0 <= id ->
  is_Some (items_tables db !! VecBackend.itemsTable b) ->
  is_Some (vtables db !! VecBackend.table b) ->
  let db' := snd (VecBackend.upsert env id v b db) in
  fst (VecBackend.upsert env id v b db) = Normal tt
  /\ stored_vectors db' b id = [v]
  /\ 1 <= fst (VecBackend.count env b db') <= fst (VecBackend.count env b db) + 1
  /\ (is_Some (internal_id db (VecBackend.itemsTable b) (VecBackend.memory_key id)) ->
      fst (VecBackend.count env b db')
      = fst (VecBackend.count env b db) - Z.of_nat (length (stored_vectors db b id)) + 1).
Proof.
  intros Hq Hl Hd Hid Hit [vt Hvt] db'.
  destruct (upsert_quiet id v b db vt Hq Hl Hd Hid Hit Hvt) as (i & db1 & E & U).
  subst db'. rewrite U. cbn [fst snd].
  pose proof (getOrCreateIdForKey_mapped env _ _ _ _ _ _ E) as Hi.
  set (vt' := {| vt_module := vt_module vt; vt_dim := vt_dim vt;
                 vt_rows := replace_row i v (vt_rows vt) |}).
  set (db2 := set_vtable _ vt' _).
  assert (Hvt2 : vtables db2 !! VecBackend.table b = Some vt').
  { subst db2. cbn [vtables set_vtable]. apply lookup_insert_eq. }
  assert (Hi2 : internal_id db2 (VecBackend.itemsTable b) (VecBackend.memory_key id) = Some i).
  { rewrite <- Hi. apply internal_id_same_items. reflexivity. }
  rewrite (count_quiet b db2 vt' Hq Hl Hvt2), (count_quiet b db vt Hq Hl Hvt).
  subst vt'. cbn [vt_rows]. rewrite length_replace_row.
  split; [reflexivity | split; [| split]].
  - unfold stored_vectors. rewrite Hi2, Hvt2. cbn [vt_rows].
    rewrite filter_replace_row_same. reflexivity.
  - pose proof (List.filter_length_le (fun r : Z * Float32Array => fst r =? i) (vt_rows vt)).
    lia.
  - intros [i0 Hi0]. unfold stored_vectors. rewrite Hi0, Hvt.
    rewrite (getOrCreateIdForKey_of_mapped env _ _ _ _ _ _ _ Hi0 E).
    rewrite length_map. reflexivity.
Qed.

(** *** Unique row ids *)

Lemma le_fold_max x ids : In x ids -> x <= fold_right Z.max 0 ids.
Proof.
  induction ids as [|y ids IH]; [intros [] |].
  cbn [fold_right]. intros [-> | H]; [lia |]. specialize (IH H). lia.
Qed.

Lemma next_rowid_fresh ids : ~ In (next_rowid ids) ids.
Proof. intros H%le_fold_max. unfold next_rowid in H. lia. Qed.

Lemma map_item_id_update key payload rows :
  map item_id (map (update_payload key payload) rows) = map item_id rows.
Proof.
  rewrite map_map. apply map_ext. intros r. apply update_payload_fields.
Qed.

Lemma NoDup_snoc_fresh ids : NoDup ids -> NoDup (ids ++ [next_rowid ids]).
Proof.
  intros H. apply NoDup_app. split; [exact H | split; [| apply NoDup_singleton]].
  intros x Hx Hn. apply list_elem_of_singleton in Hn. subst x.
  apply list_elem_of_In in Hx. exact (next_rowid_fresh ids Hx).
Qed.

Lemma unique_item_ids_same db db' t :
  items_tables db' = items_tables db -> unique_item_ids db t -> unique_item_ids db' t.
Proof. intros H U rows. rewrite H. apply U. Qed.

Lemma unique_item_ids_set db t t' rows rows' :
  items_tables db !! t' = Some rows ->
  (NoDup (map item_id rows) -> NoDup (map item_id rows')) ->
  unique_item_ids db t -> unique_item_ids (set_items t' rows' db) t.
Proof.
  intros Hr Hn U rs. cbn [items_tables set_items].
  destruct (decide (t' = t)) as [->|Hne].
  - rewrite lookup_insert_eq. intros [= <-]. apply Hn, U, Hr.
  - rewrite lookup_insert_ne by exact Hne. apply U.
Qed.

Lemma upsert_item_returning_unique t' key payload db c db' t :
  upsert_item_returning env t' key payload db = (c, db') ->
  unique_item_ids db t -> unique_item_ids db' t.
Proof.
  unfold upsert_item_returning, attempt.
  destruct (native_error env _ db); [intros [= <- <-]; apply unique_item_ids_same; reflexivity |].
  cbn [items_tables log].
  destruct (items_tables db !! t') as [rows|] eqn:Hr;
    [| intros [= <- <-]; apply unique_item_ids_same; reflexivity].
  destruct (find_item key rows); intros [= <- <-] U.
  - apply (unique_item_ids_set (log _ db) t t' rows); [exact Hr | | exact U].
    rewrite map_item_id_update. auto.
  - apply (unique_item_ids_set (log _ db) t t' rows); [exact Hr | | exact U].
    rewrite map_app. cbn [map item_id]. apply NoDup_snoc_fresh.
Qed.

Lemma insert_item_or_ignore_unique t' key payload db c db' t :
  insert_item_or_ignore env t' key payload db = (c, db') ->
  unique_item_ids db t -> unique_item_ids db' t.
Proof.
  unfold insert_item_or_ignore, attempt.
  destruct (native_error env _ db); [intros [= <- <-]; apply unique_item_ids_same; reflexivity |].
  cbn [items_tables log].
  destruct (items_tables db !! t') as [rows|] eqn:Hr;
    [| intros [= <- <-]; apply unique_item_ids_same; reflexivity].
  destruct (find_item key rows); intros [= <- <-] U.
  - revert U. apply unique_item_ids_same. reflexivity.
  - apply (unique_item_ids_set (log _ db) t t' rows); [exact Hr | | exact U].
    rewrite map_app. cbn [map item_id]. apply NoDup_snoc_fresh.
Qed.

Lemma select_item_id_unique t' key db c db' t :
  select_item_id env t' key db = (c, db') ->
  unique_item_ids db t -> unique_item_ids db' t.
Proof.
  intros E. apply unique_item_ids_same. revert E.
  apply attempt_same_items. intros d. cbn.
  destruct (items_tables d !! t'); reflexivity.
Qed.

Lemma getOrCreateIdForKey_unique b key payload db c db' t :
  VecBackend.getOrCreateIdForKey env b key payload db = (c, db') ->
  unique_item_ids db t -> unique_item_ids db' t.
Proof.
  unfold VecBackend.getOrCreateIdForKey.
  destruct (upsert_item_returning _ _ _ _ _) as [[i|e] db1] eqn:E1.
  - intros [= <- <-]. eapply upsert_item_returning_unique; eassumption.
  - intros E U. apply (upsert_item_returning_unique _ _ _ _ _ _ t E1) in U.
    revert E U. apply (and_then_preserves (fun x => unique_item_ids x t)).
    + intros *. apply insert_item_or_ignore_unique.
    + intros []. apply (and_then_preserves (fun x => unique_item_ids x t)).
      * intros *. apply select_item_id_unique.
      * intros [i|] d c0 d'; cbv [ret throw]; intros [= <- <-]; auto.
Qed.

(** *** Reading back *)

Lemma insert_by_distance_In {A} (x y : A * Q) l :
  x = y \/ In x l -> In x (insert_by_distance y l).
Proof.
  induction l as [|z l IH]; cbn [insert_by_distance].
  - intros [-> | []]. left. reflexivity.
  - destruct (Qle_bool _ _).
    + intros [-> | H]; [left | right]; auto.
    + intros [-> | [-> | H]]; [right; apply IH; left | left | right; apply IH; right]; auto.
Qed.

Lemma order_by_distance_In {A} (x : A * Q) l :
  In x l -> In x (order_by_distance l).
Proof.
  induction l as [|y l IH]; [intros [] |].
  intros [-> | H]; cbn [order_by_distance fold_right]; apply insert_by_distance_In;
    [left; reflexivity | right; apply IH; exact H].
Qed.

Lemma length_insert_by_distance {A} (x : A * Q) l :
  length (insert_by_distance x l) = S (length l).
Proof.
  induction l as [|y l IH]; [reflexivity |].
  cbn [insert_by_distance]. destruct (Qle_bool _ _); cbn [length]; [reflexivity |].
  rewrite IH. reflexivity.
Qed.

Lemma length_order_by_distance {A} (l : list (A * Q)) :
  length (order_by_distance l) = length l.
Proof.
  induction l as [|y l IH]; [reflexivity |].
  cbn [order_by_distance fold_right]. rewrite length_insert_by_distance.
  cbn [length]. f_equal. exact IH.
Qed.

Lemma sql_limit_all {A} (k : Z) (l : list A) :
  Z.of_nat (length l) <= k -> sql_limit k l = l.
Proof.
  intros H. unfold sql_limit. destruct (k <? 0) eqn:E; [reflexivity |].
  apply firstn_all2. lia.
Qed.

Lemma filter_none {A} (f : A -> bool) l :
  (forall x, In x l -> f x = false) -> List.filter f l = [].
Proof.
  induction l as [|x l IH]; [reflexivity |].
  intros H. cbn [List.filter]. rewrite (H x (or_introl eq_refl)).
  apply IH. intros y Hy. apply H. right. exact Hy.
Qed.

Lemma filter_item_id_unique i rows :
  NoDup (map item_id rows) ->
  (length (List.filter (fun r => Z.eqb (item_id r) i) rows) <= 1)%nat.
Proof.
  induction rows as [|r rows IH]; [cbn; lia |].
  cbn [map]. intros [Hn Hd]%NoDup_cons. cbn [List.filter].
  destruct (item_id r =? i) eqn:E; [| auto].
  apply Z.eqb_eq in E. cbn [length].
  replace (List.filter _ rows) with (@nil ItemRow); [cbn; lia |].
  symmetry. apply filter_none. intros r' Hr'.
  apply Z.eqb_neq. intros E'. apply Hn. apply list_elem_of_In.
  rewrite E, <- E'. apply in_map. exact Hr'.
Qed.

Lemma length_flat_map_le {A B} (f : A -> list B) l :
  (forall x, In x l -> (length (f x) <= 1)%nat) ->
  (length (flat_map f l) <= length l)%nat.
Proof.
  induction l as [|x l IH]; [cbn; lia |].
  intros H. cbn [flat_map]. rewrite length_app. cbn [length].
  pose proof (H x (or_introl eq_refl)). 
  assert ((length (flat_map f l) <= length l)%nat) by (apply IH; intros; apply H; right; auto).
  lia.
Qed.

(** *** A native side that rejects replacements *)

Lemma quiet_accepts_new_rows : quiet env -> accepts_new_rows env.
Proof. intros H s db _. apply H. Qed.

Lemma attempt_accepted {A} (s : Stmt) (run : Sql A) db :
  native_error env s db = None -> attempt env s run db = run (log s db).
Proof. intros H. unfold attempt. rewrite H. reflexivity. Qed.

(** The statement with [RETURNING] is accepted: the id is the one the key
    has, or the next row id of the mapping table. *)
Lemma getOrCreateIdForKey_accepted b key payload db rows :
  accepts_new_rows env ->
  items_tables db !! VecBackend.itemsTable b = Some rows ->
  exists i rows',
    VecBackend.getOrCreateIdForKey env b key payload db
    = (Normal i, set_items (VecBackend.itemsTable b) rows'
                   (log (UpsertItemReturning (VecBackend.itemsTable b) key) db))
    /\ (forall j, In j (map item_id rows) -> In j (map item_id rows'))
    /\ match find_item key rows with
       | Some r => i = item_id r
       | None => i = next_rowid (map item_id rows)
       end.
Proof.
  intros Ha Hr. unfold VecBackend.getOrCreateIdForKey, upsert_item_returning.
  rewrite attempt_accepted by (apply Ha; reflexivity).
  cbn [items_tables log]. rewrite Hr.
  destruct (find_item key rows) as [r|]; eexists _, _; (split; [reflexivity |]); split;
    try reflexivity.
  - intros j Hj. rewrite map_map.
    rewrite (map_ext (fun x => item_id (update_payload key payload x)) item_id); [exact Hj |].
    intros x. unfold update_payload. destruct (String.eqb _ _); reflexivity.
  - intros j Hj. rewrite map_app. apply in_or_app. left. exact Hj.
Qed.

Lemma count_accepted b db vt :
  accepts_new_rows env -> VecBackend.loaded b = true ->
  vtables db !! VecBackend.table b = Some vt ->
  fst (VecBackend.count env b db) = Z.of_nat (length (vt_rows vt)).
Proof.
  intros Ha Hl Hvt. unfold VecBackend.count, select_count. rewrite Hl. cbn [negb].
  rewrite attempt_accepted by (apply Ha; reflexivity).
  cbn [vtables log]. rewrite Hvt. reflexivity.
Qed.

Lemma existsb_filter_nil {A} (f : A -> bool) l :
  List.filter f l = [] -> existsb f l = false.
Proof.
  induction l as [|x l IH]; [reflexivity |].
  cbn [List.filter existsb]. destruct (f x); [discriminate | exact IH].
Qed.

Lemma filter_nil_fresh (i : Z) (rows : list (Z * Float32Array)) :
  ~ In i (map fst rows) -> List.filter (fun r => fst r =? i) rows = [].
Proof.
  intros Hn. apply filter_none. intros r Hr. apply Z.eqb_neq. intros E.
  apply Hn. rewrite <- E. apply in_map. exact Hr.
Qed.

(** An upsert under an id that holds no vector writes a new row: the
    native side is not asked to replace one. *)
Lemma upsert_new_row id v b db vt rows :
  accepts_new_rows env ->
  VecBackend.loaded b = true -> VecBackend.dim b = Some (Z.of_nat (length v)) ->
  0 <= id ->
  items_tables db !! VecBackend.itemsTable b = Some rows ->
  vtables db !! VecBackend.table b = Some vt ->
  vectors_mapped db b -> stored_vectors db b id = [] ->
  exists i rows',
    VecBackend.upsert env id v b db
    = (Normal tt,
       set_vtable (VecBackend.table b)
         {| vt_module := vt_module vt; vt_dim := vt_dim vt;
            vt_rows := replace_row i v (vt_rows vt) |}
         (log (InsertOrReplaceVector (VecBackend.table b) i v)
            (set_items (VecBackend.itemsTable b) rows'
               (log (UpsertItemReturning (VecBackend.itemsTable b)
                       (VecBackend.memory_key id)) db))))
    /\ (forall j, In j (map item_id rows) -> In j (map item_id rows'))
    /\ item_id <$> find_item (VecBackend.memory_key id) rows' = Some i
    /\ List.filter (fun r : Z * Float32Array => fst r =? i) (vt_rows vt) = [].
Proof.
  intros Ha Hl Hd Hid Hrows Hvt Hm Hs.
  destruct (getOrCreateIdForKey_accepted b (VecBackend.memory_key id) None db rows Ha Hrows)
    as (i & rows' & E & Hsub & Hi).
  pose proof (getOrCreateIdForKey_mapped env _ _ _ _ _ _ E) as Hmap.
  unfold internal_id in Hmap. cbn [items_tables set_items] in Hmap.
  rewrite lookup_insert_eq in Hmap.
  assert (Hf : List.filter (fun r : Z * Float32Array => fst r =? i) (vt_rows vt) = []).
  { unfold stored_vectors, internal_id in Hs. rewrite Hrows, Hvt in Hs.
    destruct (find_item (VecBackend.memory_key id) rows) as [r|] eqn:F.
    - cbn [fmap option_fmap option_map] in Hs. subst i.
      destruct (List.filter _ (vt_rows vt)); [reflexivity | discriminate Hs].
    - subst i. apply filter_nil_fresh. intros Hin.
      apply in_map_iff in Hin as (r & Er & Hr).
      apply (next_rowid_fresh (map item_id rows)). rewrite <- Er.
      exact (Hm vt rows Hvt Hrows r Hr). }
  exists i, rows'. split; [| split; [exact Hsub | split; [exact Hmap | exact Hf]]].
  unfold VecBackend.upsert, VecBackend.upsert_body. rewrite Hl, Hd. cbn [negb].
  unfold and_then at 1, lift. unfold assertDim. rewrite Z.eqb_refl.
  unfold and_then at 1. apply Z.ltb_ge in Hid. rewrite Hid. unfold ret at 1.
  unfold and_then. rewrite E. unfold insert_or_replace_vector.
  rewrite attempt_accepted.
  - cbn [vtables log set_items]. rewrite Hvt. reflexivity.
  - apply Ha. cbn [replaces vtables log set_items]. rewrite Hvt.
    apply existsb_filter_nil. exact Hf.
Qed.

(** X4.  On a native side that rejects nothing but, as sqlite-vec does,
    the replacement of a row, and on tables where every vector is under a
    mapped id: an upsert of a vector of the table's dimension under an id
    [id >= 0] that holds no vector completes, and afterwards the table
    holds exactly that vector for [id], the count has grown by 1, and
    every vector is still under a mapped id. *)
Theorem upsert_stores_vector (id : Z) (v : Float32Array) (b : VecBackend.t) (db : Database) :
  accepts_new_rows env ->
  VecBackend.loaded b = true -> VecBackend.dim b = Some (Z.of_nat (length v)) ->
  0 <= id ->
  is_Some (items_tables db !! VecBackend.itemsTable b) ->
  is_Some (vtables db !! VecBackend.table b) ->
  vectors_mapped db b ->
  stored_vectors db b id = [] ->
  let db' := snd (VecBackend.upsert env id v b db) in
  fst (VecBackend.upsert env id v b db) = Normal tt
  /\ stored_vectors db' b id = [v]
  /\ fst (VecBackend.count env b db') = fst (VecBackend.count env b db) + 1
  /\ vectors_mapped db' b.
Proof.
  intros Ha Hl Hd Hid [rows Hrows] [vt Hvt] Hm Hs db'.
  destruct (upsert_new_row id v b db vt rows Ha Hl Hd Hid Hrows Hvt Hm Hs)
    as (i & rows' & U & Hsub & Hi & Hf).
  subst db'. rewrite U. cbn [fst snd].
  set (vt' := {| vt_module := vt_module vt; vt_dim := vt_dim vt;
                 vt_rows := replace_row i v (vt_rows vt) |}).
  set (db2 := set_vtable _ vt' _).
  assert (Hvt2 : vtables db2 !! VecBackend.table b = Some vt').
  { subst db2. cbn [vtables set_vtable]. apply lookup_insert_eq. }
  assert (Hrows2 : items_tables db2 !! VecBackend.itemsTable b = Some rows').
  { subst db2. cbn [items_tables set_vtable log set_items]. apply lookup_insert_eq. }
  split; [reflexivity | split; [| split]].
  - unfold stored_vectors, internal_id. rewrite Hrows2, Hi, Hvt2.
    subst vt'. cbn [vt_rows]. rewrite filter_replace_row_same. reflexivity.
  - rewrite (count_accepted b db2 vt' Ha Hl Hvt2), (count_accepted b db vt Ha Hl Hvt).
    subst vt'. cbn [vt_rows]. rewrite length_replace_row, Hf. cbn [length]. lia.
  - intros vt0 rows0 Hvt0 Hrows0 r Hr.
    rewrite Hvt2 in Hvt0. rewrite Hrows2 in Hrows0.
    injection Hvt0 as <-. injection Hrows0 as <-.
    subst vt'. cbn [vt_rows] in Hr. unfold replace_row in Hr.
    apply in_app_or in Hr as [Hr | [<- | []]].
    + apply filter_In in Hr as [Hr _]. apply Hsub. exact (Hm vt rows Hvt Hrows r Hr).
    + cbn [fst]. destruct (find_item (VecBackend.memory_key id) rows') as [r0|] eqn:F;
        [| discriminate Hi].
      injection Hi as <-. apply in_map.
      unfold find_item in F. apply List.find_some in F. tauto.
Qed.

(** *** Distinct external ids *)

Lemma memory_key_inj (n m : Z) :
  VecBackend.memory_key n = VecBackend.memory_key m -> n = m.
Proof. unfold VecBackend.memory_key. intros [= H]. apply Number_toString_inj. exact H. Qed.

Lemma NoDup_map_In_inj {A B} (f : A -> B) l x y :
  NoDup (map f l) -> In x l -> In y l -> f x = f y -> x = y.
Proof.
  induction l as [|z l IH]; [intros _ [] |].
  cbn [map]. intros [Hn Hd]%NoDup_cons [-> | Hx] [-> | Hy] E; auto.
  - exfalso. apply Hn. apply list_elem_of_In. rewrite E. apply in_map. exact Hy.
  - exfalso. apply Hn. apply list_elem_of_In. rewrite <- E. apply in_map. exact Hx.
Qed.

Lemma internal_id_inj db t k1 k2 i :
  unique_item_ids db t ->
  internal_id db t k1 = Some i -> internal_id db t k2 = Some i -> k1 = k2.
Proof.
  intros U. unfold internal_id.
  destruct (items_tables db !! t) as [rows|] eqn:Hr; [| discriminate].
  destruct (find_item k1 rows) as [r1|] eqn:E1; [| discriminate].
  destruct (find_item k2 rows) as [r2|] eqn:E2; [| discriminate].
  cbn. intros [= H1] [= H2].
  rewrite <- (find_item_key _ _ _ E1), <- (find_item_key _ _ _ E2).
  f_equal. apply (NoDup_map_In_inj item_id rows); [apply U; exact Hr | | | congruence].
  - unfold find_item in E1. apply List.find_some in E1. tauto.
  - unfold find_item in E2. apply List.find_some in E2. tauto.
Qed.

Lemma find_item_app_other key key' rows id payload :
  key <> key' ->
  find_item key (rows ++ [{| item_id := id; item_key := key'; item_payload := payload |}])
  = find_item key rows.
Proof.
  intros Hne. unfold find_item. induction rows as [|r rows IH]; cbn [app List.find].
  - cbn [item_key]. destruct (String.eqb_spec key' key); [congruence | reflexivity].
  - destruct (String.eqb _ _); [reflexivity | exact IH].
Qed.

Lemma internal_id_set_other db t t' key rows rows' :
  items_tables db !! t' = Some rows ->
  item_id <$> find_item key rows' = item_id <$> find_item key rows ->
  internal_id (set_items t' rows' db) t key = internal_id db t key.
Proof.
  intros Hr H. unfold internal_id. cbn [items_tables set_items].
  destruct (decide (t' = t)) as [->|Hne].
  - rewrite lookup_insert_eq, Hr. exact H.
  - rewrite lookup_insert_ne by exact Hne. reflexivity.
Qed.

Lemma upsert_item_returning_other t' key' payload db c db' t key :
  key <> key' ->
  upsert_item_returning env t' key' payload db = (c, db') ->
  internal_id db' t key = internal_id db t key.
Proof.
  intros Hne. unfold upsert_item_returning, attempt.
  destruct (native_error env _ db); [intros [= <- <-]; reflexivity |].
  cbn [items_tables log].
  destruct (items_tables db !! t') as [rows|] eqn:Hr; [| intros [= <- <-]; reflexivity].
  destruct (find_item key' rows); intros [= <- <-].
  - apply (internal_id_set_other (log _ db) t t' key rows); [exact Hr |].
    apply find_item_update_other.
  - apply (internal_id_set_other (log _ db) t t' key rows); [exact Hr |].
    rewrite find_item_app_other by exact Hne. reflexivity.
Qed.

Lemma insert_item_or_ignore_other t' key' payload db c db' t key :
  key <> key' ->
  insert_item_or_ignore env t' key' payload db = (c, db') ->
  internal_id db' t key = internal_id db t key.
Proof.
  intros Hne. unfold insert_item_or_ignore, attempt.
  destruct (native_error env _ db); [intros [= <- <-]; reflexivity |].
  cbn [items_tables log].
  destruct (items_tables db !! t') as [rows|] eqn:Hr; [| intros [= <- <-]; reflexivity].
  destruct (find_item key' rows); intros [= <- <-]; [reflexivity |].
  apply (internal_id_set_other (log _ db) t t' key rows); [exact Hr |].
  rewrite find_item_app_other by exact Hne. reflexivity.
Qed.

Lemma select_item_id_other t' key' db c db' t key :
  select_item_id env t' key' db = (c, db') ->
  internal_id db' t key = internal_id db t key.
Proof.
  intros E. apply internal_id_same_items. revert E.
  apply attempt_same_items. intros d. cbn. destruct (items_tables d !! t'); reflexivity.
Qed.

Lemma getOrCreateIdForKey_other b key' payload db c db' t key :
  key <> key' ->
  VecBackend.getOrCreateIdForKey env b key' payload db = (c, db') ->
  internal_id db' t key = internal_id db t key.
Proof.
  intros Hne. unfold VecBackend.getOrCreateIdForKey.
  destruct (upsert_item_returning _ _ _ _ _) as [[i|e] db1] eqn:E1;
    apply (upsert_item_returning_other _ _ _ _ _ _ t key Hne) in E1.
  - intros [= <- <-]. exact E1.
  - intros E.
    apply and_then_inv in E as [([] & d2 & E2 & E) | (? & E2 & ->)];
      apply (insert_item_or_ignore_other _ _ _ _ _ _ t key Hne) in E2; [| congruence].
    apply and_then_inv in E as [(row & d3 & E3 & E) | (? & E3 & ->)];
      apply (select_item_id_other _ _ _ _ _ t key) in E3; [| congruence].
    assert (d3 = db') as <- by (destruct row; cbv [ret throw] in E; congruence).
    congruence.
Qed.

Lemma stored_vectors_same db db' b id :
  items_tables db' = items_tables db -> vtables db' = vtables db ->
  stored_vectors db' b id = stored_vectors db b id.
Proof.
  intros H1 H2. unfold stored_vectors.
  rewrite (internal_id_same_items db db' _ _ H1), H2. reflexivity.
Qed.

Lemma insert_or_replace_vector_items t i v db c db' :
  insert_or_replace_vector env t i v db = (c, db') -> items_tables db' = items_tables db.
Proof.
  apply attempt_same_items. intros d. cbn. destruct (vtables d !! t); reflexivity.
Qed.

Lemma upsert_unique id v b db t :
  unique_item_ids db t -> unique_item_ids (snd (VecBackend.upsert env id v b db)) t.
Proof.
  intros U. unfold VecBackend.upsert.
  destruct (VecBackend.loaded b); cbn [negb]; [| exact U].
  destruct (VecBackend.dim b) as [d|]; [| exact U].
  assert (Hbody : forall c db2, VecBackend.upsert_body env id v b d db = (c, db2) ->
            unique_item_ids db2 t).
  { unfold VecBackend.upsert_body. intros c db2 E. revert E U.
    apply (and_then_preserves (fun x => unique_item_ids x t)).
    - intros *. unfold lift. intros [= _ <-]. auto.
    - intros []. apply (and_then_preserves (fun x => unique_item_ids x t)).
      + intros d0 c0 d1. destruct (id <? 0); cbv [ret throw]; intros [= _ <-]; auto.
      + intros []. apply (and_then_preserves (fun x => unique_item_ids x t)).
        * intros *. apply getOrCreateIdForKey_unique.
        * intros i d0 c0 d1 E. apply unique_item_ids_same.
          eapply insert_or_replace_vector_items. exact E. }
  destruct (VecBackend.upsert_body env id v b d db) as [[[]|e] db2] eqn:B;
    [| destruct (includes e "dimension")]; cbn [snd]; eapply Hbody; reflexivity.
Qed.

(** X5.  Insert and look up: after an upsert of [v] under an id [id] below
    1e21 that held no vector, on tables whose mapping ids are unique and
    whose vectors are under mapped ids, and on a native side that rejects
    nothing but the replacement of a row, a query of the same dimension
    that asks for at least as many neighbours as the table has rows
    returns a hit with the id [id] and the distance of the query to [v]. *)
Theorem upsert_then_queryNearest (id : Z) (v q : Float32Array) (k : Z)
    (b : VecBackend.t) (db : Database) :
  accepts_new_rows env ->
  VecBackend.loaded b = true -> VecBackend.dim b = Some (Z.of_nat (length v)) ->
  length q = length v -> 0 <= id < 10 ^ 21 ->
  is_Some (items_tables db !! VecBackend.itemsTable b) ->
  is_Some (vtables db !! VecBackend.table b) ->
  unique_item_ids db (VecBackend.itemsTable b) ->
  vectors_mapped db b ->
  stored_vectors db b id = [] ->
  let db' := snd (VecBackend.upsert env id v b db) in
  fst (VecBackend.count env b db') <= k ->
  In {| hit_id := Int id; hit_distance := distance env q v |}
     (fst (VecBackend.queryNearest env q k b db')).
Proof.
  intros Ha Hl Hd Hlen Hid [rows0 Hrows0] [vt Hvt] Hu Hm Hs db'.
  assert (Hid0 : 0 <= id) by lia.
  destruct (upsert_new_row id v b db vt rows0 Ha Hl Hd Hid0 Hrows0 Hvt Hm Hs)
    as (i & rows & U & _ & Hi & _).
  pose proof (upsert_unique id v b db _ Hu) as Hu1.
  subst db'. rewrite U in Hu1 |- *. cbn [snd] in Hu1 |- *.
  set (vt' := {| vt_module := vt_module vt; vt_dim := vt_dim vt;
                 vt_rows := replace_row i v (vt_rows vt) |}) in *.
  set (db2 := set_vtable _ vt' _) in *.
  assert (Hvt2 : vtables db2 !! VecBackend.table b = Some vt').
  { subst db2. cbn [vtables set_vtable]. apply lookup_insert_eq. }
  assert (Hrows : items_tables db2 !! VecBackend.itemsTable b = Some rows).
  { subst db2. cbn [items_tables set_vtable log set_items]. apply lookup_insert_eq. }
  rewrite (count_accepted b db2 vt' Ha Hl Hvt2). intros Hk.
  destruct (find_item (VecBackend.memory_key id) rows) as [r|] eqn:Hr; [| discriminate].
  injection Hi as Hi.
  pose proof (find_item_key _ _ _ Hr) as Hkey.
  assert (Hin : In r rows) by (unfold find_item in Hr; apply List.find_some in Hr; tauto).
  unfold VecBackend.queryNearest. rewrite Hl, Hd. cbn [negb].
  unfold and_then, lift, assertDim. rewrite Hlen, Z.eqb_refl.
  unfold select_knn_join_items. rewrite attempt_accepted by (apply Ha; reflexivity).
  cbn [vtables items_tables log]. rewrite Hvt2, Hrows. cbn [fst].
  set (hits := nearest env vt' q k).
  assert (Hhits : In (i, distance env q v) hits).
  { subst hits. unfold nearest. rewrite firstn_all2.
    - apply order_by_distance_In.
      apply (in_map (fun r0 => (fst r0, distance env q (snd r0))) _ (i, v)).
      subst vt'. cbn [vt_rows]. unfold replace_row. apply in_or_app. right. left. reflexivity.
    - rewrite length_order_by_distance, length_map. lia. }
  assert (Hlenh : (length hits <= length (vt_rows vt'))%nat).
  { subst hits. unfold nearest. rewrite length_firstn, length_order_by_distance, length_map. lia. }
  apply in_map_iff. exists (VecBackend.memory_key id, distance env q v). split.
  - unfold VecBackend.hit_of_row. cbn [fst snd]. f_equal.
    rewrite replace_memory_key. apply parseInt_Number_toString. exact Hid.
  - rewrite sql_limit_all.
    + apply order_by_distance_In. apply in_flat_map.
      exists (i, distance env q v). split; [exact Hhits |]. cbn [fst snd].
      apply in_map_iff. exists r. split; [rewrite Hkey; reflexivity |].
      apply List.filter_In. split; [exact Hin | apply Z.eqb_eq; exact Hi].
    + rewrite length_order_by_distance.
      assert ((length (flat_map (fun h : Z * Q =>
                 map (fun r0 : ItemRow => (item_key r0, snd h))
                   (List.filter (fun r0 : ItemRow => Z.eqb (item_id r0) (fst h)) rows)) hits)
               <= length hits)%nat).
      { apply length_flat_map_le. intros h _. rewrite length_map.
        apply filter_item_id_unique. apply Hu1. exact Hrows. }
      lia.
Qed.

(** X28.  On a native side that rejects the replacement of a row, as
    sqlite-vec does, an upsert under an id that already holds a vector
    replaces nothing: the call completes without an error, the id keeps
    the vector it had, and the count is unchanged. *)
Theorem upsert_held_id_keeps_vector (id : Z) (v : Float32Array) (b : VecBackend.t)
    (db : Database) :
  accepts_new_rows env -> rejects_replacements env ->
  VecBackend.loaded b = true -> VecBackend.dim b = Some (Z.of_nat (length v)) ->
  0 <= id ->
  stored_vectors db b id <> [] ->
  let db' := snd (VecBackend.upsert env id v b db) in
  fst (VecBackend.upsert env id v b db) = Normal tt
  /\ stored_vectors db' b id = stored_vectors db b id
  /\ fst (VecBackend.count env b db') = fst (VecBackend.count env b db).
Proof.
  intros Ha Hrej Hl Hd Hid Hs db'.
  unfold stored_vectors in Hs.
  destruct (internal_id db (VecBackend.itemsTable b) (VecBackend.memory_key id))
    as [j|] eqn:Hj; [| exfalso; apply Hs; reflexivity].
  destruct (vtables db !! VecBackend.table b) as [vt|] eqn:Hvt;
    [| exfalso; apply Hs; reflexivity].
  pose proof Hj as Hj'. unfold internal_id in Hj'.
  destruct (items_tables db !! VecBackend.itemsTable b) as [rows|] eqn:Hrows; [| discriminate].
  destruct (getOrCreateIdForKey_accepted b (VecBackend.memory_key id) None db rows Ha Hrows)
    as (i & rows' & E & _ & _).
  pose proof (getOrCreateIdForKey_mapped env _ _ _ _ _ _ E) as Hmap.
  pose proof (getOrCreateIdForKey_of_mapped env _ _ _ _ _ _ _ Hj E) as ->.
  set (db1 := set_items _ rows' _) in *.
  assert (Hrep : replaces (InsertOrReplaceVector (VecBackend.table b) j v) db1 = true).
  { cbn [replaces]. change (vtables db1) with (vtables db). rewrite Hvt.
    destruct (List.filter (fun r : Z * Float32Array => fst r =? j) (vt_rows vt))
      as [|r l] eqn:F; [exfalso; apply Hs; reflexivity |].
    apply existsb_exists. exists r.
    assert (Hr : In r (List.filter (fun r : Z * Float32Array => fst r =? j) (vt_rows vt)))
      by (rewrite F; left; reflexivity).
    apply filter_In in Hr. exact Hr. }
  destruct (Hrej _ _ Hrep) as (msg & Hmsg & Hdim).
  assert (U : VecBackend.upsert env id v b db
              = (Normal tt, log (InsertOrReplaceVector (VecBackend.table b) j v) db1)).
  { unfold VecBackend.upsert, VecBackend.upsert_body. rewrite Hl, Hd. cbn [negb].
    unfold and_then at 1, lift. unfold assertDim. rewrite Z.eqb_refl.
    unfold and_then at 1. apply Z.ltb_ge in Hid. rewrite Hid. unfold ret at 1.
    unfold and_then. rewrite E. unfold insert_or_replace_vector, attempt.
    rewrite Hmsg, Hdim. reflexivity. }
  subst db'. rewrite U. cbn [fst snd].
  split; [reflexivity | split].
  - unfold stored_vectors.
    change (internal_id (log _ db1)) with (internal_id db1).
    change (vtables (log _ db1)) with (vtables db).
    rewrite Hmap, Hj, Hvt. reflexivity.
  - rewrite (count_accepted b _ vt Ha Hl), (count_accepted b db vt Ha Hl Hvt); [reflexivity |].
    exact Hvt.
Qed.

(** X29.  On a native side without [RETURNING], [getOrCreateIdForKey]
    takes the older path and still gets or creates: it returns the id the
    key has, or the next row id of the mapping table when the key is new;
    the table holds that id for the key from then on, the ids of the other
    keys are as they were, and the vector tables are untouched. *)
Theorem getOrCreateIdForKey_without_returning (b : VecBackend.t) (key : string)
    (payload : option string) (db : Database) (rows : list ItemRow) :
  without_returning env ->
  items_tables db !! VecBackend.itemsTable b = Some rows ->
  exists i db',
    VecBackend.getOrCreateIdForKey env b key payload db = (Normal i, db')
    /\ match find_item key rows with
       | Some r => i = item_id r
       | None => i = next_rowid (map item_id rows)
       end
    /\ internal_id db' (VecBackend.itemsTable b) key = Some i
    /\ (forall key', key' <> key ->
          internal_id db' (VecBackend.itemsTable b) key'
          = internal_id db (VecBackend.itemsTable b) key')
    /\ vtables db' = vtables db.
Proof.
  intros (Hr & Hi & Hs) Hrows.
  assert (E : exists i db',
            VecBackend.getOrCreateIdForKey env b key payload db = (Normal i, db')
            /\ match find_item key rows with
               | Some r => i = item_id r
               | None => i = next_rowid (map item_id rows)
               end).
  { unfold VecBackend.getOrCreateIdForKey, upsert_item_returning. unfold attempt at 1.
    destruct (native_error env (UpsertItemReturning (VecBackend.itemsTable b) key) db)
      as [msg|] eqn:E; [| exfalso; exact (Hr _ _ _ E)].
    unfold and_then, insert_item_or_ignore. rewrite attempt_accepted by apply Hi.
    cbn [items_tables log]. rewrite Hrows.
    destruct (find_item key rows) as [r|] eqn:F.
    - unfold select_item_id. rewrite attempt_accepted by apply Hs.
      cbn [items_tables log]. rewrite Hrows, F. cbn. eauto.
    - unfold select_item_id. rewrite attempt_accepted by apply Hs.
      cbn [items_tables log set_items]. rewrite lookup_insert_eq.
      rewrite (find_item_app_new key rows _ _ F). cbn. eauto. }
  destruct E as (i & db' & E & M). exists i, db'.
  split; [exact E | split; [exact M | split; [| split]]].
  - exact (getOrCreateIdForKey_mapped env _ _ _ _ _ _ E).
  - intros key' Hne. exact (getOrCreateIdForKey_other _ _ _ _ _ _ _ _ Hne E).
  - exact (getOrCreateIdForKey_vtables _ _ _ _ _ _ E).
Qed.

(** X6.  An upsert under one id leaves the vectors stored under every other
    id as they were, whatever the native side does, and keeps the ids of
    the mapping table unique. *)
Theorem upsert_keeps_other_ids (id id' : Z) (v : Float32Array) (b : VecBackend.t)
    (db : Database) :
  id <> id' ->
  unique_item_ids db (VecBackend.itemsTable b) ->
  stored_vectors (snd (VecBackend.upsert env id' v b db)) b id = stored_vectors db b id
  /\ unique_item_ids (snd (VecBackend.upsert env id' v b db)) (VecBackend.itemsTable b).
Proof.
  intros Hne U. split; [| apply upsert_unique; exact U].
  assert (Hk : VecBackend.memory_key id <> VecBackend.memory_key id')
    by (intros H%memory_key_inj; contradiction).
  unfold VecBackend.upsert.
  destruct (VecBackend.loaded b); cbn [negb]; [| reflexivity].
  destruct (VecBackend.dim b) as [d|]; [| reflexivity].
  assert (Hbody : forall c db2, VecBackend.upsert_body env id' v b d db = (c, db2) ->
            stored_vectors db2 b id = stored_vectors db b id).
  { unfold VecBackend.upsert_body. intros c db2 E.
    apply and_then_inv in E as [([] & d0 & E0 & E) | (? & E0 & ->)];
      unfold lift in E0; injection E0 as _ <-; [| reflexivity].
    apply and_then_inv in E as [([] & d1 & E0 & E) | (? & E0 & ->)];
      [| destruct (id' <? 0); cbv [ret throw] in E0; injection E0 as _ <-; reflexivity].
    assert (d1 = db) as -> by (destruct (id' <? 0); cbv [ret throw] in E0; congruence).
    clear E0.
    apply and_then_inv in E as [(i' & d2 & E2 & E) | (? & E2 & ->)].
    - pose proof (getOrCreateIdForKey_other _ _ _ _ _ _ (VecBackend.itemsTable b) _ Hk E2) as Ho.
      pose proof (getOrCreateIdForKey_vtables _ _ _ _ _ _ E2) as Hv.
      pose proof (getOrCreateIdForKey_mapped env _ _ _ _ _ _ E2) as Hi'.
      pose proof (getOrCreateIdForKey_unique _ _ _ _ _ _ _ E2 U) as U2.
      unfold insert_or_replace_vector, attempt in E.
      destruct (native_error env _ d2).
      { injection E as _ <-. unfold stored_vectors.
        change (internal_id (log _ d2)) with (internal_id d2).
        cbn [vtables log]. rewrite Ho, Hv. reflexivity. }
      cbn [vtables log] in E.
      destruct (vtables d2 !! VecBackend.table b) as [vt|] eqn:Hvt.
      + injection E as _ <-. unfold stored_vectors.
        change (internal_id (set_vtable _ _ (log _ d2))) with (internal_id d2).
        rewrite Ho. cbn [vtables set_vtable log]. rewrite lookup_insert_eq, <- Hv, Hvt.
        destruct (internal_id db _ _) as [i|] eqn:Hi; [| reflexivity].
        cbn [vt_rows]. rewrite filter_replace_row_other; [reflexivity |].
        intros ->. apply Hk.
        exact (internal_id_inj d2 _ _ _ _ U2 Ho Hi').
      + injection E as _ <-. unfold stored_vectors.
        change (internal_id (log _ d2)) with (internal_id d2).
        cbn [vtables log]. rewrite Ho, Hv. reflexivity.
    - unfold stored_vectors.
      rewrite (getOrCreateIdForKey_other _ _ _ _ _ _ _ _ Hk E2),
        (getOrCreateIdForKey_vtables _ _ _ _ _ _ E2). reflexivity. }
  destruct (VecBackend.upsert_body env id' v b d db) as [[[]|e] db2] eqn:B;
    [| destruct (includes e "dimension")]; cbn [snd]; eapply Hbody; reflexivity.
Qed.

End Store.

Section Ordering.
Variable env : Env.

Lemma insert_by_distance_sorted {A} (x : A * Q) l :
  StronglySorted by_distance l -> StronglySorted by_distance (insert_by_distance x l).
Proof.
  induction 1 as [|y l Hs IH Hf]; cbn [insert_by_distance].
  - repeat constructor.
  - destruct (Qle_bool (snd x) (snd y)) eqn:E.
    + apply Qle_bool_iff in E. constructor; [constructor; assumption |].
      constructor; [exact E |].
      eapply Forall_impl; [exact Hf |]. intros z Hz. unfold by_distance in *.
      eapply Qle_trans; eassumption.
    + constructor; [exact IH |].
      apply List.Forall_forall. intros z Hz.
      apply In_insert_by_distance in Hz as [-> | Hz].
      * unfold by_distance. apply Qlt_le_weak. apply Qnot_le_lt.
        intros H%Qle_bool_iff. congruence.
      * rewrite List.Forall_forall in Hf. auto.
Qed.

Lemma order_by_distance_sorted {A} (l : list (A * Q)) :
  StronglySorted by_distance (order_by_distance l).
Proof.
  induction l as [|x l IH]; [constructor |].
  cbn [order_by_distance fold_right]. apply insert_by_distance_sorted. exact IH.
Qed.

Lemma firstn_sorted {A} (R : A -> A -> Prop) n l :
  StronglySorted R l -> StronglySorted R (firstn n l).
Proof.
  intros H. revert n. induction H as [|x l Hs IH Hf]; intros [|n]; cbn [firstn];
    try constructor; [apply IH |].
  apply List.Forall_forall. intros y Hy%In_firstn_list. rewrite List.Forall_forall in Hf. auto.
Qed.

Lemma sql_limit_sorted {A} (R : A -> A -> Prop) k l :
  StronglySorted R l -> StronglySorted R (sql_limit k l).
Proof.
  intros H. unfold sql_limit. destruct (k <? 0); [exact H | apply firstn_sorted; exact H].
Qed.

Lemma map_sorted {A B} (R : A -> A -> Prop) (R' : B -> B -> Prop) (f : A -> B) l :
  (forall x y, R x y -> R' (f x) (f y)) ->
  StronglySorted R l -> StronglySorted R' (map f l).
Proof.
  intros Hf. induction 1 as [|x l Hs IH Hx]; cbn [map]; constructor; [exact IH |].
  apply Forall_map. eapply Forall_impl; [exact Hx |]. intros y. apply Hf.
Qed.

Lemma length_sql_limit {A} k (l : list A) :
  0 <= k -> Z.of_nat (length (sql_limit k l)) <= k.
Proof.
  intros Hk. unfold sql_limit. apply Z.ltb_ge in Hk. rewrite Hk.
  rewrite length_firstn. lia.
Qed.

Lemma VecBackend_queryNearest_sorted q k b db :
  StronglySorted nearer (fst (VecBackend.queryNearest env q k b db))
  /\ (0 <= k -> Z.of_nat (length (fst (VecBackend.queryNearest env q k b db))) <= k).
Proof.
  unfold VecBackend.queryNearest.
  destruct (negb _); [split; [constructor | cbn; lia] |].
  destruct (VecBackend.dim b) as [d|]; [| split; [constructor | cbn; lia]].
  unfold and_then, lift. destruct (assertDim q d) as [[]|e]; [| split; [constructor | cbn; lia]].
  unfold select_knn_join_items, attempt.
  destruct (native_error env _ db); [split; [constructor | cbn; lia] |].
  cbn [vtables items_tables log].
  destruct (vtables db !! VecBackend.table b) as [vt|]; [| split; [constructor | cbn; lia]].
  destruct (items_tables db !! VecBackend.itemsTable b) as [rows|];
    [| split; [constructor | cbn; lia]].
  cbn [fst]. split.
  - apply (map_sorted by_distance); [intros x y H; exact H |].
    apply sql_limit_sorted, order_by_distance_sorted.
  - intros Hk. rewrite length_map. apply length_sql_limit. exact Hk.
Qed.

Lemma VssBackend_queryNearest_sorted q k b db :
  StronglySorted nearer (fst (VssBackend.queryNearest env q k b db))
  /\ (0 <= k -> Z.of_nat (length (fst (VssBackend.queryNearest env q k b db))) <= k).
Proof.
  unfold VssBackend.queryNearest.
  destruct (negb _); [split; [constructor | cbn; lia] |].
  destruct (VssBackend.dim b) as [d|]; [| split; [constructor | cbn; lia]].
  unfold select_knn, attempt.
  destruct (native_error env _ db); [split; [constructor | cbn; lia] |].
  cbn [vtables log].
  destruct (vtables db !! VssBackend.table b) as [vt|]; [| split; [constructor | cbn; lia]].
  cbn [fst]. split.
  - apply (map_sorted by_distance); [intros x y H; exact H |].
    apply sql_limit_sorted, order_by_distance_sorted.
  - intros Hk. rewrite length_map. apply length_sql_limit. exact Hk.
Qed.

(** X7.  The hits of [queryNearest] come nearest first, by ascending
    distance, and there are at most [topk] of them when [topk] is not
    negative; this holds for both native backends, for a handle with no
    backend and when the query fails. *)
Theorem queryNearest_nearest_first (q : Float32Array) (k : Z)
    (u : UnifiedVectorBackend.t) (db : Database) :
  StronglySorted nearer (fst (UnifiedVectorBackend.queryNearest env q k u db))
  /\ (0 <= k ->
      Z.of_nat (length (fst (UnifiedVectorBackend.queryNearest env q k u db))) <= k).
Proof.
  unfold UnifiedVectorBackend.queryNearest.
  destruct (UnifiedVectorBackend.activeBackend u) as [[b|b]|].
  - apply VecBackend_queryNearest_sorted.
  - apply VssBackend_queryNearest_sorted.
  - split; [constructor | cbn; lia].
Qed.

End Ordering.

Section Failures.
Variable env : Env.

(** X8.  On a loaded sqlite-vss backend, when the native side rejects the
    insert of a row, [upsert] still completes normally, the handle is no
    longer available, and no later call changes the handle or the
    database: one failed write disables the vector store for the rest of
    the session. *)
Theorem failed_vss_upsert_switches_off (id : Z) (v : Float32Array) (b : VssBackend.t)
    (db : Database) (msg : string) :
  VssBackend.loaded b = true -> VssBackend.dim b <> None ->
  native_error env (InsertOrReplaceVector (VssBackend.table b) id v) db = Some msg ->
  let u := {| UnifiedVectorBackend.activeBackend := Some (UnifiedVectorBackend.Vss b) |} in
  let st := call env (u, db) (Upsert id v) in
  fst (UnifiedVectorBackend.upsert env id v u db) = Normal tt
  /\ UnifiedVectorBackend.isAvailable (fst st) = false
  /\ forall cs, calls env cs st = st.
Proof.
  intros Hl Hd He u st.
  assert (Hst : UnifiedVectorBackend.upsert env id v u db
                = (Normal tt,
                   ({| UnifiedVectorBackend.activeBackend :=
                         Some (UnifiedVectorBackend.Vss (VssBackend.set_loaded false b)) |},
                    log (InsertOrReplaceVector (VssBackend.table b) id v) db))).
  { unfold UnifiedVectorBackend.upsert, u. cbn [UnifiedVectorBackend.activeBackend].
    unfold VssBackend.upsert. rewrite Hl. cbn [negb].
    destruct (VssBackend.dim b); [| congruence].
    unfold insert_or_replace_vector, attempt. rewrite He. reflexivity. }
  subst st. unfold call. cbn [fst snd]. rewrite Hst. cbn [fst snd].
  split; [reflexivity | split; [reflexivity |]].
  intros cs. induction cs as [|c cs IH]; [reflexivity |].
  unfold calls. cbn [fold_left]. rewrite call_unavailable by reflexivity. exact IH.
Qed.

End Failures.

Lemma failed_vss_upsert_switches_off_witness :
  let b := VssBackend.set_dim (Some 3)
             (VssBackend.set_loaded true (VssBackend.new "memory_vectors_vss" None)) in
  let u := {| UnifiedVectorBackend.activeBackend := Some (UnifiedVectorBackend.Vss b) |} in
  let st := call win32_failing_insert_env (u, empty_db) (Upsert 1 [1; 2; 3]%Q) in
  fst (UnifiedVectorBackend.upsert win32_failing_insert_env 1 [1; 2; 3]%Q u empty_db) = Normal tt
  /\ UnifiedVectorBackend.isAvailable (fst st) = false
  /\ forall cs, calls win32_failing_insert_env cs st = st.
Proof.
  exact (failed_vss_upsert_switches_off win32_failing_insert_env 1 [1; 2; 3]%Q
           (VssBackend.set_dim (Some 3)
              (VssBackend.set_loaded true (VssBackend.new "memory_vectors_vss" None)))
           empty_db "disk I/O error" eq_refl ltac:(discriminate) eq_refl).
Defined.

Section SelfTestSentinel.
Variable env : Env.
Hypothesis Hq : quiet env.

Lemma create_tables_quiet b d db :
  exists db', VecBackend.create_tables env b d db = (Normal tt, db')
              /\ is_Some (items_tables db' !! VecBackend.itemsTable b)
              /\ is_Some (vtables db' !! VecBackend.table b).
Proof.
  unfold VecBackend.create_tables, and_then, pragma, create_items_table, create_virtual_table.
  rewrite !attempt_quiet by exact Hq. cbn [items_tables vtables log].
  destruct (items_tables db !! VecBackend.itemsTable b) as [rows|] eqn:Hi.
  - rewrite attempt_quiet by exact Hq. cbn [items_tables vtables log].
    destruct (vtables db !! VecBackend.table b) as [vt|] eqn:Hv; eexists; split; try reflexivity.
    + cbn [items_tables vtables log]. rewrite Hi, Hv. eauto.
    + cbn [items_tables vtables log set_vtable]. rewrite Hi, lookup_insert_eq. eauto.
  - rewrite attempt_quiet by exact Hq. cbn [items_tables vtables log set_items].
    destruct (vtables db !! VecBackend.table b) as [vt|] eqn:Hv; eexists; split; try reflexivity.
    + cbn [items_tables vtables log set_items]. rewrite lookup_insert_eq, Hv. eauto.
    + cbn [items_tables vtables log set_vtable set_items]. rewrite !lookup_insert_eq. eauto.
Qed.

Lemma ensureTable_quiet b d db :
  VecBackend.loaded b = true -> VecBackend.dim b = None ->
  let r := VecBackend.ensureTable env d b db in
  fst r = VecBackend.set_dim (Some d) b
  /\ is_Some (items_tables (snd r) !! VecBackend.itemsTable b)
  /\ is_Some (vtables (snd r) !! VecBackend.table b).
Proof.
  intros Hl Hd. unfold VecBackend.ensureTable, VecBackend.dim_is. rewrite Hl, Hd. cbn [negb].
  destruct (create_tables_quiet b d db) as (db' & -> & H1 & H2). cbn. auto.
Qed.

Lemma count_same_tables b db :
  items_tables (snd (VecBackend.count env b db)) = items_tables db
  /\ vtables (snd (VecBackend.count env b db)) = vtables db.
Proof.
  unfold VecBackend.count. destruct (negb _); [auto |].
  unfold select_count, attempt. destruct (native_error env _ db); [auto |].
  cbn [vtables log]. destruct (vtables db !! VecBackend.table b); auto.
Qed.

Lemma selfTest_quiet b db :
  VecBackend.loaded b = true -> VecBackend.dim b = None ->
  let r := VecBackend.selfTest env b db in
  fst r = VecBackend.set_dim (Some 384) b
  /\ stored_vectors (snd r) b 999999 = [testVec]
  /\ 1 <= fst (VecBackend.count env (fst r) (snd r)).
Proof.
  intros Hl Hd. unfold VecBackend.selfTest.
  destruct (ensureTable_quiet b 384 db Hl Hd) as (Hb & Hi & Hv).
  destruct (VecBackend.ensureTable env 384 b db) as [b1 db1]. cbn [fst snd] in *. subst b1.
  destruct (upsert_quiet_stores env 999999 testVec (VecBackend.set_dim (Some 384) b) db1)
    as (Hc & Hs & Hn & _); try assumption; try reflexivity; [lia |].
  destruct (VecBackend.upsert _ _ _ _ _) as [c db2]. cbn [fst snd] in *. subst c.
  destruct (count_same_tables (VecBackend.set_dim (Some 384) b) db2) as [C1 C2].
  destruct (VecBackend.count env _ db2) as [n db3] eqn:E3. cbn [fst snd] in *.
  split; [reflexivity | split].
  - unfold stored_vectors in *.
    cbn [VecBackend.itemsTable VecBackend.table VecBackend.set_dim] in *.
    rewrite (internal_id_same_items db2 db3 _ _ C1), C2. exact Hs.
  - assert (Hvt : is_Some (vtables db2 !! VecBackend.table b)).
    { clear -Hs. unfold stored_vectors in Hs.
      cbn [VecBackend.itemsTable VecBackend.table VecBackend.set_dim] in Hs.
      destruct (internal_id _ _ _); [| discriminate].
      destruct (vtables db2 !! _) eqn:E; [eauto | discriminate]. }
    destruct Hvt as [vt Hvt].
    rewrite (count_quiet env (VecBackend.set_dim (Some 384) b) db3 vt Hq Hl)
      by (rewrite C2; exact Hvt).
    pose proof (count_quiet env (VecBackend.set_dim (Some 384) b) db2 vt Hq Hl Hvt) as Hc2.
    rewrite E3 in Hc2. cbn [fst] in Hc2. lia.
Qed.

(** X9.  The self-test of [VecBackend.tryLoad] does not clean up: when the
    native side rejects no statement and a backend is returned, the test
    vector is stored under the id 999999 and [count()] is at least 1
    before the caller has stored anything. *)
Theorem tryLoad_leaves_sentinel (root : string) (db : Database) (b : VecBackend.t)
    (db' : Database) :
  VecBackend.tryLoad env root db = (Some b, db') ->
  stored_vectors db' b 999999 = [testVec]
  /\ 1 <= fst (VecBackend.count env b db').
Proof.
  assert (Hst : forall b0 d0, VecBackend.loaded b0 = true -> VecBackend.dim b0 = None ->
            VecBackend.loaded_or_null (VecBackend.selfTest env b0 d0) = (Some b, db') ->
            stored_vectors db' b 999999 = [testVec]
            /\ 1 <= fst (VecBackend.count env b db')).
  { intros b0 d0 Hl Hd [E L]%loaded_or_null_some.
    destruct (selfTest_quiet b0 d0 Hl Hd) as (Hb & Hs & Hn).
    rewrite E in Hb, Hs, Hn. cbn [fst snd] in *. split; [| exact Hn].
    rewrite <- Hs. subst b. reflexivity. }
  unfold VecBackend.tryLoad, VecBackend.tryLoad_npm.
  repeat match goal with
         | |- context [if existsSync env ?p then _ else _] => destruct (existsSync env p)
         | |- context [match loadExtension env ?p ?d with _ => _ end] =>
             destruct (loadExtension env p d) as [[[]|?] ?]
         end; try discriminate; apply Hst; reflexivity.
Qed.

End SelfTestSentinel.

Lemma quiet_env_quiet : quiet quiet_env.
Proof. intros s db. reflexivity. Qed.

Lemma keymap_unique : unique_item_ids (snd keymap_backend) "memory_items".
Proof. intros rows H. vm_compute in H. injection H as <-. constructor. Qed.

Lemma unavailable_backend_is_inert_witness :
  let u := {| UnifiedVectorBackend.activeBackend :=
                Some (UnifiedVectorBackend.Vss (VssBackend.new "memory_vectors_vss" None)) |} in
  calls quiet_env [EnsureTable 3; Upsert 1 [1; 2; 3]%Q; Count] (u, empty_db) = (u, empty_db)
  /\ (forall id v, fst (UnifiedVectorBackend.upsert quiet_env id v u empty_db) = Normal tt)
  /\ (forall q k, fst (UnifiedVectorBackend.queryNearest quiet_env q k u empty_db) = [])
  /\ fst (UnifiedVectorBackend.count quiet_env u empty_db) = 0.
Proof.
  exact (unavailable_backend_is_inert quiet_env
           {| UnifiedVectorBackend.activeBackend :=
                Some (UnifiedVectorBackend.Vss (VssBackend.new "memory_vectors_vss" None)) |}
           empty_db [EnsureTable 3; Upsert 1 [1; 2; 3]%Q; Count] eq_refl).
Defined.

Lemma vec0_env_accepts_new_rows : accepts_new_rows vec0_env.
Proof. intros s db H. cbn. unfold rejects_replacement. rewrite H. reflexivity. Qed.

Lemma vec0_env_rejects_replacements : rejects_replacements vec0_env.
Proof.
  intros s db H. eexists. split.
  - cbn. unfold rejects_replacement. rewrite H. reflexivity.
  - vm_compute. reflexivity.
Qed.

Lemma vec0_db_unique : unique_item_ids vec0_db "memory_items".
Proof.
  intros rows H. vm_compute in H. injection H as <-. repeat constructor.
  intros H%list_elem_of_In. destruct H.
Qed.

Lemma vec0_db_mapped : vectors_mapped vec0_db (fst vec0_backend).
Proof.
  intros vt rows Hvt Hrows r Hr. vm_compute in Hvt, Hrows.
  injection Hvt as <-. injection Hrows as <-.
  destruct Hr as [<- | []]. left. reflexivity.
Qed.

Lemma upsert_stores_vector_witness :
  let db' := snd (VecBackend.upsert vec0_env 7 [4; 5; 6]%Q (fst vec0_backend) vec0_db) in
  fst (VecBackend.upsert vec0_env 7 [4; 5; 6]%Q (fst vec0_backend) vec0_db) = Normal tt
  /\ stored_vectors db' (fst vec0_backend) 7 = [[4; 5; 6]%Q]
  /\ fst (VecBackend.count vec0_env (fst vec0_backend) db')
     = fst (VecBackend.count vec0_env (fst vec0_backend) vec0_db) + 1
  /\ vectors_mapped db' (fst vec0_backend).
Proof.
  apply (upsert_stores_vector vec0_env 7 [4; 5; 6]%Q (fst vec0_backend) vec0_db).
  - exact vec0_env_accepts_new_rows.
  - reflexivity.
  - reflexivity.
  - lia.
  - vm_compute. eauto.
  - vm_compute. eauto.
  - exact vec0_db_mapped.
  - vm_compute. reflexivity.
Defined.

Lemma upsert_then_queryNearest_witness :
  In {| hit_id := Int 7; hit_distance := squared_distance [4; 5; 8]%Q [4; 5; 6]%Q |}
     (fst (VecBackend.queryNearest vec0_env [4; 5; 8]%Q 5 (fst vec0_backend)
             (snd (VecBackend.upsert vec0_env 7 [4; 5; 6]%Q (fst vec0_backend) vec0_db)))).
Proof.
  apply (upsert_then_queryNearest vec0_env 7 [4; 5; 6]%Q [4; 5; 8]%Q 5
           (fst vec0_backend) vec0_db).
  - exact vec0_env_accepts_new_rows.
  - reflexivity.
  - reflexivity.
  - reflexivity.
  - lia.
  - vm_compute. eauto.
  - vm_compute. eauto.
  - exact vec0_db_unique.
  - exact vec0_db_mapped.
  - vm_compute. reflexivity.
  - vm_compute. discriminate.
Defined.

Lemma upsert_held_id_keeps_vector_witness :
  let db' := snd (VecBackend.upsert vec0_env 42 [7; 8; 9]%Q (fst vec0_backend) vec0_db) in
  fst (VecBackend.upsert vec0_env 42 [7; 8; 9]%Q (fst vec0_backend) vec0_db) = Normal tt
  /\ stored_vectors db' (fst vec0_backend) 42 = stored_vectors vec0_db (fst vec0_backend) 42
  /\ fst (VecBackend.count vec0_env (fst vec0_backend) db')
     = fst (VecBackend.count vec0_env (fst vec0_backend) vec0_db).
Proof.
  apply (upsert_held_id_keeps_vector vec0_env 42 [7; 8; 9]%Q (fst vec0_backend) vec0_db).
  - exact vec0_env_accepts_new_rows.
  - exact vec0_env_rejects_replacements.
  - reflexivity.
  - reflexivity.
  - lia.
  - vm_compute. discriminate.
Defined.

Lemma old_sqlite_env_without_returning : without_returning old_sqlite_env.
Proof. split; [| split]; intros t k db; cbn; [discriminate | reflexivity | reflexivity]. Qed.

Lemma getOrCreateIdForKey_without_returning_witness :
  (exists i db',
      VecBackend.getOrCreateIdForKey old_sqlite_env (fst vec0_backend) "memory_7" None vec0_db
      = (Normal i, db')
      /\ i = 2
      /\ internal_id db' "memory_items" "memory_7" = Some i
      /\ (forall key', key' <> "memory_7"%string ->
            internal_id db' "memory_items" key' = internal_id vec0_db "memory_items" key')
      /\ vtables db' = vtables vec0_db)
  /\ (exists i db',
        VecBackend.getOrCreateIdForKey old_sqlite_env (fst vec0_backend) "memory_42" None vec0_db
        = (Normal i, db')
        /\ i = 1
        /\ internal_id db' "memory_items" "memory_42" = Some i
        /\ (forall key', key' <> "memory_42"%string ->
              internal_id db' "memory_items" key' = internal_id vec0_db "memory_items" key')
        /\ vtables db' = vtables vec0_db).
Proof.
  split.
  - exact (getOrCreateIdForKey_without_returning old_sqlite_env (fst vec0_backend)
             "memory_7" None vec0_db
             [{| item_id := 1; item_key := "memory_42"; item_payload := None |}]
             old_sqlite_env_without_returning eq_refl).
  - exact (getOrCreateIdForKey_without_returning old_sqlite_env (fst vec0_backend)
             "memory_42" None vec0_db
             [{| item_id := 1; item_key := "memory_42"; item_payload := None |}]
             old_sqlite_env_without_returning eq_refl).
Defined.

Lemma upsert_keeps_other_ids_witness :
  stored_vectors (snd (VecBackend.upsert quiet_env 7 [4; 5; 6]%Q (fst keymap_backend) keymap_db))
    (fst keymap_backend) 42
  = [[1; 2; 3]%Q].
Proof.
  destruct (upsert_keeps_other_ids quiet_env 42 7 [4; 5; 6]%Q (fst keymap_backend) keymap_db)
    as [H _].
  - lia.
  - intros rows H. vm_compute in H. injection H as <-. repeat constructor.
    intros H%list_elem_of_In. destruct H.
  - rewrite H. vm_compute. reflexivity.
Defined.

Lemma queryNearest_nearest_first_witness :
  let u := {| UnifiedVectorBackend.activeBackend :=
                Some (UnifiedVectorBackend.Vec (fst keymap_backend)) |} in
  StronglySorted nearer (fst (UnifiedVectorBackend.queryNearest quiet_env [1; 2; 3]%Q 5 u keymap_db))
  /\ Z.of_nat (length (fst (UnifiedVectorBackend.queryNearest quiet_env [1; 2; 3]%Q 5 u keymap_db)))
     <= 5.
Proof.
  destruct (queryNearest_nearest_first quiet_env [1; 2; 3]%Q 5
              {| UnifiedVectorBackend.activeBackend :=
                   Some (UnifiedVectorBackend.Vec (fst keymap_backend)) |} keymap_db) as [H1 H2].
  split; [exact H1 | apply H2; lia].
Defined.

Lemma win32_env_quiet : quiet win32_env.
Proof. intros s db. reflexivity. Qed.

Lemma tryLoad_leaves_sentinel_witness :
  let r := VecBackend.tryLoad win32_env "/project" empty_db in
  fst r = Some win32_vec
  /\ stored_vectors (snd r) win32_vec 999999 = [testVec]
  /\ 1 <= fst (VecBackend.count win32_env win32_vec (snd r)).
Proof.
  assert (E : VecBackend.tryLoad win32_env "/project" empty_db
              = (Some win32_vec, snd (VecBackend.tryLoad win32_env "/project" empty_db)))
    by (vm_compute; reflexivity).
  split; [rewrite E; reflexivity |].
  exact (tryLoad_leaves_sentinel win32_env win32_env_quiet "/project" empty_db win32_vec _ E).
Defined.


(** ** Re-indexing a file *)

Section Reindex.
Import HybridSearchDatabase.
Variable h : Host.

Lemma find_path_map (upd : CodeFile -> CodeFile) path l :
  (forall g, cf_path (upd g) = cf_path g) ->
  List.find (fun f => String.eqb (cf_path f) path) (map upd l)
  = upd <$> List.find (fun f => String.eqb (cf_path f) path) l.
Proof.
  intros Hp. induction l as [|g l IH]; [reflexivity |].
  cbn [map List.find]. rewrite Hp. destruct (String.eqb _ _); [reflexivity | exact IH].
Qed.

Lemma find_app_none {A} (p : A -> bool) l x :
  List.find p l = None -> List.find p (l ++ [x]) = if p x then Some x else None.
Proof.
  induction l as [|y l IH]; [reflexivity |].
  cbn [app List.find]. destruct (p y); [discriminate | exact IH].
Qed.

(** After [upsertFile] the row of the path carries the id it returned. *)
Lemma upsertFile_found path sha t fid t1 :
  upsertFile h path sha t = (Normal fid, t1) ->
  cf_id <$> List.find (fun f => String.eqb (cf_path f) path) (code_files t1) = Some fid.
Proof.
  unfold upsertFile. intros [(e & [=] & _) | E]%guarded_inv.
  destruct (List.find _ (code_files t)) as [f|] eqn:F; injection E as <- <-;
    cbn [code_files set_files].
  - rewrite find_path_map by (intros g; destruct (String.eqb _ _); reflexivity).
    rewrite F. cbn. apply List.find_some in F as [_ ->]. reflexivity.
  - rewrite find_app_none by exact F. cbn. rewrite String.eqb_refl. reflexivity.
Qed.

(** On a path that has a row, [upsertFile] returns its id and adds no row. *)
Lemma upsertFile_known path sha t fid c t' :
  cf_id <$> List.find (fun f => String.eqb (cf_path f) path) (code_files t) = Some fid ->
  upsertFile h path sha t = (c, t') ->
  (forall id, c = Normal id -> id = fid)
  /\ map cf_id (code_files t') = map cf_id (code_files t)
  /\ map cf_path (code_files t') = map cf_path (code_files t)
  /\ code_symbols t' = code_symbols t.
Proof.
  intros Hf. unfold upsertFile. intros [(e & -> & ->) | E]%guarded_inv;
    [repeat split; discriminate |].
  destruct (List.find _ (code_files t)) as [f|] eqn:F; [| discriminate].
  injection Hf as <-. injection E as <- <-. cbn [code_files code_symbols set_files].
  rewrite !map_map. repeat split.
  - congruence.
  - apply map_ext. intros g. destruct (String.eqb _ _); reflexivity.
  - apply map_ext. intros g. destruct (String.eqb _ _); reflexivity.
Qed.

Lemma same_key_iff fid s r :
  same_key fid s r = true <-> symbol_key r = (fid, name s, kind s, start_byte s).
Proof.
  split; [apply same_key_spec |].
  unfold same_key, symbol_key. intros [= -> -> -> ->].
  rewrite !Z.eqb_refl, String.eqb_refl. unfold Kind_eqb. rewrite String.eqb_refl. reflexivity.
Qed.

Lemma symbol_key_update s r : symbol_key (update_symbol s r) = symbol_key r.
Proof. reflexivity. Qed.

(** On a key that has a row, [upsertSymbol] adds no row and moves no id. *)
Lemma upsertSymbol_known fid s t c t' :
  In (fid, name s, kind s, start_byte s) (map symbol_key (code_symbols t)) ->
  upsertSymbol h fid s t = (c, t') ->
  map cs_id (code_symbols t') = map cs_id (code_symbols t)
  /\ map symbol_key (code_symbols t') = map symbol_key (code_symbols t)
  /\ code_files t' = code_files t.
Proof.
  intros Hk. unfold upsertSymbol. intros [(e & -> & ->) | E]%guarded_inv; [auto |].
  destruct (List.find _ (code_symbols t)) as [r0|] eqn:F.
  - injection E as <- <-. cbn [code_files code_symbols set_symbols set_fts fts_trigger].
    rewrite !map_map. repeat split; apply map_ext; intros r; destruct (same_key _ _ _); reflexivity.
  - exfalso. apply in_map_iff in Hk as (r & Hr & Hin).
    apply (List.find_none _ _ F) in Hin. apply same_key_iff in Hr. congruence.
Qed.

Lemma upsertEmbedding_tables id e t c t' :
  upsertEmbedding h id e t = (c, t') ->
  code_symbols t' = code_symbols t /\ code_files t' = code_files t.
Proof.
  unfold upsertEmbedding. intros [(? & _ & ->) | [= _ <-]]%guarded_inv; auto.
Qed.

Lemma upsertFts_tables id a b c0 t c t' :
  upsertFts h id a b c0 t = (c, t') ->
  code_symbols t' = code_symbols t /\ code_files t' = code_files t.
Proof.
  unfold upsertFts. intros [(? & _ & ->) | [= _ <-]]%guarded_inv; auto.
Qed.

Lemma index_symbol_known content fid s t c t' :
  In (fid, name s, kind s, start_byte s) (map symbol_key (code_symbols t)) ->
  index_symbol h content fid s t = (c, t') ->
  map cs_id (code_symbols t') = map cs_id (code_symbols t)
  /\ map symbol_key (code_symbols t') = map symbol_key (code_symbols t)
  /\ code_files t' = code_files t.
Proof.
  intros Hk. unfold index_symbol. intros E.
  apply and_then_inv in E as [(sid & t1 & E1 & E) | (? & E1 & ->)];
    apply (upsertSymbol_known _ _ _ _ _ Hk) in E1 as (I1 & K1 & F1); [| auto].
  apply and_then_inv in E as [([] & t2 & E2 & E) | (? & E2 & ->)].
  - assert (code_symbols t2 = code_symbols t1 /\ code_files t2 = code_files t1) as [S2 F2].
    { destruct (embedding s); [eapply upsertEmbedding_tables; eassumption |].
      cbv [ret] in E2. injection E2 as <-. auto. }
    apply upsertFts_tables in E as [S3 F3].
    rewrite S3, S2, F3, F2. auto.
  - assert (code_symbols t' = code_symbols t1 /\ code_files t' = code_files t1) as [S2 F2].
    { destruct (embedding s); [eapply upsertEmbedding_tables; eassumption |].
      cbv [ret] in E2. discriminate E2. }
    rewrite S2, F2. auto.
Qed.

Lemma index_symbols_known content fid symbols n t c t' :
  (forall s, In s symbols ->
     In (fid, name s, kind s, start_byte s) (map symbol_key (code_symbols t))) ->
  index_symbols h content fid symbols n t = (c, t') ->
  map cs_id (code_symbols t') = map cs_id (code_symbols t)
  /\ map symbol_key (code_symbols t') = map symbol_key (code_symbols t)
  /\ code_files t' = code_files t.
Proof.
  revert n t. induction symbols as [|s rest IH]; intros n t Hk E; cbn [index_symbols] in E.
  - cbv [ret] in E. injection E as _ <-. auto.
  - apply and_then_inv in E as [([] & t1 & E1 & E) | (? & E1 & ->)];
      apply index_symbol_known in E1 as (I1 & K1 & F1); auto using in_eq.
    apply IH in E as (I2 & K2 & F2).
    + rewrite I2, K2, F2. auto.
    + intros s' Hs'. rewrite K1. apply Hk. right. exact Hs'.
Qed.

Lemma upsertSymbol_files fid s t c t' :
  upsertSymbol h fid s t = (c, t') -> code_files t' = code_files t.
Proof.
  unfold upsertSymbol. intros [(e & -> & ->) | E]%guarded_inv; [reflexivity |].
  destruct (List.find _ (code_symbols t)); injection E as <- <-; reflexivity.
Qed.

Lemma index_symbol_files content fid s t c t' :
  index_symbol h content fid s t = (c, t') -> code_files t' = code_files t.
Proof.
  unfold index_symbol. intros E.
  apply and_then_inv in E as [(sid & t1 & E1 & E) | (? & E1 & ->)];
    apply upsertSymbol_files in E1; [| exact E1].
  assert (forall c2 t2, match embedding s with
                        | Some e => upsertEmbedding h sid e
                        | None => ret tt
                        end t1 = (c2, t2) -> code_files t2 = code_files t1) as Hemb.
  { intros c2 t2. destruct (embedding s); [intros H; eapply upsertEmbedding_tables; exact H |].
    cbv [ret]. intros [= _ <-]. reflexivity. }
  apply and_then_inv in E as [([] & t2 & E2 & E) | (? & E2 & ->)];
    apply Hemb in E2; [| congruence].
  apply upsertFts_tables in E as [_ F3]. congruence.
Qed.

Lemma index_symbols_files content fid symbols n t c t' :
  index_symbols h content fid symbols n t = (c, t') -> code_files t' = code_files t.
Proof.
  revert n t. induction symbols as [|s rest IH]; intros n t E; cbn [index_symbols] in E.
  - cbv [ret] in E. injection E as _ <-. reflexivity.
  - apply and_then_inv in E as [([] & t1 & E1 & E) | (? & E1 & ->)];
      apply index_symbol_files in E1; [| exact E1].
    apply IH in E. congruence.
Qed.

(** X10.  Re-indexing a file with the symbols it was indexed with, even with
    another content, adds no file row and no symbol row and leaves every
    id and key where it was; it returns the same number of symbols. *)
Theorem indexFile_again_adds_no_row (filePath content content' : string)
    (symbols : list SymbolInput) (t t1 t2 : Tables) (n n' : Z) :
  indexFile h filePath content symbols t = (Normal n, t1) ->
  indexFile h filePath content' symbols t1 = (Normal n', t2) ->
  n' = n
  /\ map cs_id (code_symbols t2) = map cs_id (code_symbols t1)
  /\ map symbol_key (code_symbols t2) = map symbol_key (code_symbols t1)
  /\ map cf_id (code_files t2) = map cf_id (code_files t1)
  /\ map cf_path (code_files t2) = map cf_path (code_files t1).
Proof.
  unfold indexFile, transaction. intros E1 E2.
  destruct (and_then _ _ t) as [[m|e] u1] eqn:R1; [| discriminate]. injection E1 as -> ->.
  destruct (and_then _ _ t1) as [[m|e] u2] eqn:R2; [| discriminate]. injection E2 as -> ->.
  apply and_then_inv in R1 as [(fid & a1 & F1 & S1) | (? & _ & [=])].
  apply and_then_inv in R2 as [(fid' & a2 & F2 & S2) | (? & _ & [=])].
  pose proof (upsertFile_found _ _ _ _ _ F1) as Hfound.
  pose proof (index_symbols_spec h _ _ _ _ _ _ _ S1) as (Hn & _ & Hkeys).
  rewrite <- (index_symbols_files _ _ _ _ _ _ _ S1) in Hfound.
  destruct (upsertFile_known _ _ _ _ _ _ Hfound F2) as (Hid & Hfi & Hfp & Hsy).
  specialize (Hid fid' eq_refl). subst fid'.
  pose proof (index_symbols_spec h _ _ _ _ _ _ _ S2) as (Hn' & _ & _).
  apply index_symbols_known in S2 as (I2 & K2 & F3).
  - rewrite I2, K2, F3, Hsy. repeat split; try assumption. lia.
  - intros s Hs. rewrite Hsy. destruct (Hkeys s Hs) as (r & Hr & Hk).
    rewrite <- Hk. apply in_map. exact Hr.
Qed.

End Reindex.

(** ** What [indexFile] writes beside the symbol rows *)

Section IndexedText.
Import HybridSearchDatabase.
Variable h : Host.

Lemma and_then_keeps {S A B} (P : S -> Prop) (m : Eff S A) (k : A -> Eff S B) :
  (forall s c s', m s = (c, s') -> P s -> P s') ->
  (forall a s c s', k a s = (c, s') -> P s -> P s') ->
  forall s c s', and_then m k s = (c, s') -> P s -> P s'.
Proof.
  intros Hm Hk s c s' E Hs.
  apply and_then_inv in E as [(a & s1 & E1 & E2) | (e & E1 & _)]; eauto.
Qed.

Lemma length_substring n m s : (String.length (String.substring n m s) <= m)%nat.
Proof.
  revert n m. induction s as [|c s IH]; intros [|n] [|m]; cbn; try lia.
  - specialize (IH 0%nat m). lia.
  - specialize (IH n 0%nat). cbn in IH. exact IH.
  - apply IH.
Qed.

Lemma String_slice_body content a e :
  0 <= e ->
  (String.length (String_slice content a (Z.min e (a + 2000))) <= 2000)%nat.
Proof.
  intros He. unfold String_slice.
  set (len := Z.of_nat (String.length content)).
  destruct (_ <? _) eqn:E; [| cbn; lia].
  etransitivity; [apply length_substring |].
  assert (0 <= len) by (subst len; lia).
  unfold clamp_index in *.
  destruct (a <? 0) eqn:Ea; destruct (Z.min e (a + 2000) <? 0) eqn:Eb; lia.
Qed.

Lemma bodies_within_insert n t i r :
  bodies_within n t -> (String.length (fts_body r) <= n)%nat ->
  bodies_within n (set_fts (<[i := r]> (code_symbols_fts t)) t).
Proof.
  intros Hb Hr j r'. cbn [code_symbols_fts set_fts].
  intros [[-> <-] | [_ H]]%lookup_insert_Some; [exact Hr | eapply Hb; exact H].
Qed.

Lemma bodies_within_same n t t' :
  code_symbols_fts t' = code_symbols_fts t -> bodies_within n t -> bodies_within n t'.
Proof. intros H Hb i r. rewrite H. apply Hb. Qed.

Lemma upsertSymbol_bodies n fid s t c t' :
  upsertSymbol h fid s t = (c, t') -> bodies_within n t -> bodies_within n t'.
Proof.
  unfold upsertSymbol. intros [(e & -> & ->) | E]%guarded_inv; [auto |].
  destruct (List.find _ (code_symbols t)); injection E as <- <-; intros Hb;
    unfold fts_trigger;
    apply (bodies_within_insert n (set_symbols _ t)); try exact Hb; cbn; lia.
Qed.

Lemma index_symbol_bodies content fid s t c t' :
  0 <= end_byte s ->
  index_symbol h content fid s t = (c, t') ->
  bodies_within 2000 t -> bodies_within 2000 t'.
Proof.
  intros He. unfold index_symbol.
  apply (and_then_keeps (bodies_within 2000)).
  - intros *. apply upsertSymbol_bodies.
  - intros sid. apply (and_then_keeps (bodies_within 2000)).
    + intros t0 c0 t1. destruct (embedding s).
      * unfold upsertEmbedding. intros [(? & _ & ->) | [= _ <-]]%guarded_inv; auto.
      * cbv [ret]. intros [= _ <-]. auto.
    + intros [] t0 c0 t1. unfold upsertFts.
      intros [(? & _ & ->) | [= _ <-]]%guarded_inv Hb; [exact Hb |].
      apply bodies_within_insert; [exact Hb |]. cbn [fts_body].
      apply String_slice_body. exact He.
Qed.

Lemma index_symbols_bodies content fid symbols n t c t' :
  (forall s, In s symbols -> 0 <= end_byte s) ->
  index_symbols h content fid symbols n t = (c, t') ->
  bodies_within 2000 t -> bodies_within 2000 t'.
Proof.
  revert n t c t'. induction symbols as [|s rest IH]; intros n t c t' He; cbn [index_symbols].
  - cbv [ret]. intros [= _ <-]. auto.
  - apply (and_then_keeps (bodies_within 2000)).
    + intros t0 c0 t1. apply index_symbol_bodies. apply He. left. reflexivity.
    + intros [] t0 c0 t1. apply IH. intros s' Hs'. apply He. right. exact Hs'.
Qed.

(** X11.  [indexFile] never writes a body of more than 2000 characters to the
    full-text table, provided no symbol has a negative [end_byte] (a
    negative end counts from the end of the content and lifts the
    bound). *)
Theorem indexFile_bodies_within_2000 (filePath content : string)
    (symbols : list SymbolInput) (t : Tables) :
  (forall s, In s symbols -> 0 <= end_byte s) ->
  bodies_within 2000 t ->
  bodies_within 2000 (snd (indexFile h filePath content symbols t)).
Proof.
  intros He Hb. unfold indexFile, transaction.
  destruct (and_then _ _ t) as [[n|e] t'] eqn:E; cbn [snd]; [| exact Hb].
  revert E Hb. apply (and_then_keeps (bodies_within 2000)).
  - intros t0 c0 t1. unfold upsertFile.
    intros [(? & _ & ->) | E]%guarded_inv; [auto |].
    destruct (List.find _ (code_files t0)); injection E as _ <-; auto.
  - intros fid t0 c0 t1. apply index_symbols_bodies. exact He.
Qed.

Lemma index_symbol_embedding content fid s t c t' :
  embedding s = None ->
  index_symbol h content fid s t = (c, t') ->
  code_symbols_embedding t' = code_symbols_embedding t.
Proof.
  intros He. unfold index_symbol. rewrite He. intros E.
  apply and_then_inv in E as [(sid & t1 & E1 & E) | (? & E1 & ->)].
  - assert (H1 : code_symbols_embedding t1 = code_symbols_embedding t).
    { revert E1. unfold upsertSymbol. intros [(? & _ & ->) | E1]%guarded_inv; [reflexivity |].
      destruct (List.find _ (code_symbols t)); injection E1 as _ <-; reflexivity. }
    apply and_then_inv in E as [([] & t2 & [= <-] & E) | (? & [=] & _)].
    revert E. unfold upsertFts. intros [(? & _ & ->) | [= _ <-]]%guarded_inv; exact H1.
  - revert E1. unfold upsertSymbol. intros [(? & _ & ->) | E1]%guarded_inv; [reflexivity |].
    destruct (List.find _ (code_symbols t)); injection E1 as _ <-; reflexivity.
Qed.

(** X12.  [indexFile] with symbols that carry no embedding leaves the table of
    embeddings as it was, whether it completes or is rolled back. *)
Theorem indexFile_without_embeddings (filePath content : string)
    (symbols : list SymbolInput) (t : Tables) :
  (forall s, In s symbols -> embedding s = None) ->
  code_symbols_embedding (snd (indexFile h filePath content symbols t))
  = code_symbols_embedding t.
Proof.
  intros He. unfold indexFile, transaction.
  destruct (and_then _ _ t) as [[n|e] t'] eqn:E; cbn [snd]; [| reflexivity].
  apply and_then_inv in E as [(fid & t0 & E0 & E) | (? & _ & [=])].
  assert (H0 : code_symbols_embedding t0 = code_symbols_embedding t).
  { revert E0. unfold upsertFile. intros [(? & [=] & _) | E0]%guarded_inv.
    destruct (List.find _ (code_files t)); injection E0 as _ <-; reflexivity. }
  rewrite <- H0. clear H0 E0. revert He t0 E. generalize 0 as m.
  induction symbols as [|s rest IH]; intros m He t0 E; cbn [index_symbols] in E.
  - cbv [ret] in E. injection E as _ <-. reflexivity.
  - apply and_then_inv in E as [([] & t1 & E1 & E) | (? & _ & [=])].
    apply index_symbol_embedding in E1; [| apply He; left; reflexivity].
    rewrite <- E1. eapply IH; [| exact E]. intros s' Hs'. apply He. right. exact Hs'.
Qed.

End IndexedText.

(** ** The order and the size of a result *)

Section ResultOrder.
Import HybridSearchDatabase.

Lemma insert_desc_sorted {A} (score : A -> Q) (x : A) l :
  StronglySorted (fun a b => (score b <= score a)%Q) l ->
  StronglySorted (fun a b => (score b <= score a)%Q) (insert_desc score x l).
Proof.
  induction 1 as [|y l Hs IH Hf]; cbn [insert_desc].
  - repeat constructor.
  - destruct (Qle_bool (score y) (score x)) eqn:E.
    + apply Qle_bool_iff in E. constructor; [constructor; assumption |].
      constructor; [exact E |].
      eapply Forall_impl; [exact Hf |]. intros z Hz. cbn in *.
      eapply Qle_trans; eassumption.
    + constructor; [exact IH |].
      apply List.Forall_forall. intros z Hz.
      apply In_insert_desc in Hz as [-> | Hz].
      * apply Qlt_le_weak. apply Qnot_le_lt. intros H%Qle_bool_iff. congruence.
      * rewrite List.Forall_forall in Hf. auto.
Qed.

Lemma order_desc_sorted {A} (score : A -> Q) (l : list A) :
  StronglySorted (fun a b => (score b <= score a)%Q) (order_desc score l).
Proof.
  induction l as [|x l IH]; [constructor |].
  cbn [order_desc fold_right]. apply insert_desc_sorted. exact IH.
Qed.

Lemma null_leb_trans (a b c : option Q) :
  null_leb a b = true -> null_leb b c = true -> null_leb a c = true.
Proof.
  destruct a as [x|], b as [y|], c as [z|]; cbn; try congruence.
  intros H1%Qle_bool_iff H2%Qle_bool_iff. apply Qle_bool_iff.
  eapply Qle_trans; eassumption.
Qed.

Lemma null_leb_total (a b : option Q) :
  null_leb a b = false -> null_leb b a = true.
Proof.
  destruct a as [x|], b as [y|]; cbn; try congruence.
  intros H. apply Qle_bool_iff, Qlt_le_weak, Qnot_le_lt.
  intros H'%Qle_bool_iff. congruence.
Qed.

Lemma insert_desc_null_sorted {A} (score : A -> option Q) (x : A) l :
  StronglySorted (fun a b => null_leb (score b) (score a) = true) l ->
  StronglySorted (fun a b => null_leb (score b) (score a) = true)
    (insert_desc_null score x l).
Proof.
  induction 1 as [|y l Hs IH Hf]; cbn [insert_desc_null].
  - repeat constructor.
  - destruct (null_leb (score y) (score x)) eqn:E.
    + constructor; [constructor; assumption |].
      constructor; [exact E |].
      eapply Forall_impl; [exact Hf |]. intros z Hz. cbn in *.
      eapply null_leb_trans; eassumption.
    + constructor; [exact IH |].
      apply List.Forall_forall. intros z Hz.
      apply In_insert_desc_null in Hz as [-> | Hz].
      * apply null_leb_total. exact E.
      * rewrite List.Forall_forall in Hf. auto.
Qed.

Lemma order_desc_null_sorted {A} (score : A -> option Q) (l : list A) :
  StronglySorted (fun a b => null_leb (score b) (score a) = true) (order_desc_null score l).
Proof.
  induction l as [|x l IH]; [constructor |].
  cbn [order_desc_null fold_right]. apply insert_desc_null_sorted. exact IH.
Qed.

(** X13.  The rows [hybridSearch] returns, from the hybrid statement or,
    when it throws, from the text-only search, come best first, by
    descending hybrid score (a score that is [NULL] last), and there are
    at most [topK] of them (20 when the option is left out) when that
    limit is not negative. *)
Theorem hybridSearch_best_first (h : Host) (t : Tables) (query : string)
    (queryEmbedding : Float32Array) (options : SearchOptions) :
  StronglySorted best_first (hybridSearch h t query queryEmbedding options)
  /\ (0 <= value_or (topK options) 20 ->
      Z.of_nat (length (hybridSearch h t query queryEmbedding options))
      <= value_or (topK options) 20).
Proof.
  unfold hybridSearch, hybridSearch_try, hybridSearchStmt, textOnlySearch, textOnlyStmt.
  cbn [value_or].
  destruct (fts_match h t _) as [trows|e].
  - destruct (vec_search h t _ _) as [vrows|e].
    + split.
      * apply sql_limit_sorted. apply (order_desc_null_sorted hybrid_score).
      * apply length_sql_limit.
    + split.
      * apply sql_limit_sorted. apply (order_desc_null_sorted hybrid_score).
      * apply length_sql_limit.
  - split; [constructor | cbn; lia].
Qed.

End ResultOrder.

Lemma hybridSearch_best_first_witness :
  map HybridSearchDatabase.id
    (HybridSearchDatabase.hybridSearch (text_only_host [(1, bm25_of_f); (2, (2 * bm25_of_f)%Q)])
       two_symbol_tables "f" [] no_search_options) = [2; 1]
  /\ StronglySorted best_first
       (HybridSearchDatabase.hybridSearch (text_only_host [(1, bm25_of_f); (2, (2 * bm25_of_f)%Q)])
          two_symbol_tables "f" [] no_search_options)
  /\ Z.of_nat (length
       (HybridSearchDatabase.hybridSearch (text_only_host [(1, bm25_of_f); (2, (2 * bm25_of_f)%Q)])
          two_symbol_tables "f" [] no_search_options)) <= 20.
Proof.
  destruct (hybridSearch_best_first (text_only_host [(1, bm25_of_f); (2, (2 * bm25_of_f)%Q)])
              two_symbol_tables "f" [] no_search_options) as [H1 H2].
  split; [vm_compute; reflexivity |].
  split; [exact H1 | apply H2; vm_compute; discriminate].
Defined.

Lemma indexFile_again_adds_no_row_witness :
  1 = 1
  /\ map HybridSearchDatabase.cs_id (HybridSearchDatabase.code_symbols
       (snd (HybridSearchDatabase.indexFile plain_host "a.ts" "function f() { }"
               [symbol_at "f" HybridSearchDatabase.KFunction 0 15] one_symbol_tables)))
     = map HybridSearchDatabase.cs_id (HybridSearchDatabase.code_symbols one_symbol_tables)
  /\ map symbol_key (HybridSearchDatabase.code_symbols
       (snd (HybridSearchDatabase.indexFile plain_host "a.ts" "function f() { }"
               [symbol_at "f" HybridSearchDatabase.KFunction 0 15] one_symbol_tables)))
     = map symbol_key (HybridSearchDatabase.code_symbols one_symbol_tables)
  /\ map HybridSearchDatabase.cf_id (HybridSearchDatabase.code_files
       (snd (HybridSearchDatabase.indexFile plain_host "a.ts" "function f() { }"
               [symbol_at "f" HybridSearchDatabase.KFunction 0 15] one_symbol_tables)))
     = map HybridSearchDatabase.cf_id (HybridSearchDatabase.code_files one_symbol_tables)
  /\ map HybridSearchDatabase.cf_path (HybridSearchDatabase.code_files
       (snd (HybridSearchDatabase.indexFile plain_host "a.ts" "function f() { }"
               [symbol_at "f" HybridSearchDatabase.KFunction 0 15] one_symbol_tables)))
     = map HybridSearchDatabase.cf_path (HybridSearchDatabase.code_files one_symbol_tables).
Proof.
  apply (indexFile_again_adds_no_row plain_host "a.ts" "function f() {}" "function f() { }"
           [symbol_at "f" HybridSearchDatabase.KFunction 0 15]
           HybridSearchDatabase.empty_tables one_symbol_tables _ 1 1).
  - vm_compute. reflexivity.
  - vm_compute. reflexivity.
Defined.

Lemma empty_tables_bodies n : bodies_within n HybridSearchDatabase.empty_tables.
Proof. intros i r H. cbn in H. rewrite lookup_empty in H. discriminate H. Qed.

Lemma indexFile_bodies_within_2000_witness :
  bodies_within 2000 one_symbol_tables.
Proof.
  apply (indexFile_bodies_within_2000 plain_host "a.ts" "function f() {}"
           [symbol_at "f" HybridSearchDatabase.KFunction 0 15] HybridSearchDatabase.empty_tables).
  - intros s [<- | []]. cbn. lia.
  - apply empty_tables_bodies.
Defined.

Lemma indexFile_without_embeddings_witness :
  HybridSearchDatabase.code_symbols_embedding one_symbol_tables
  = HybridSearchDatabase.code_symbols_embedding HybridSearchDatabase.empty_tables.
Proof.
  apply (indexFile_without_embeddings plain_host "a.ts" "function f() {}"
           [symbol_at "f" HybridSearchDatabase.KFunction 0 15] HybridSearchDatabase.empty_tables).
  intros s [<- | []]. reflexivity.
Defined.


(** ** [sanitizeQuery] *)

Section SanitizeQuery.
Import HybridSearchDatabase.

Lemma collapse_char_not_operator c : not_operator (collapse_char c) = true.
Proof.
  unfold collapse_char. fold operator_chars.
  destruct (existsb (Ascii.eqb c) operator_chars) eqn:E; [reflexivity |].
  unfold not_operator. rewrite E. reflexivity.
Qed.

Lemma map_string_not_operator s : string_all not_operator (map_string collapse_char s) = true.
Proof.
  induction s as [|c s IH]; [reflexivity |].
  cbn [map_string string_all]. rewrite collapse_char_not_operator. exact IH.
Qed.

Lemma collapse_spaces_all p s :
  p " "%char = true -> string_all p s = true -> string_all p (collapse_spaces s) = true.
Proof.
  intros Hsp. induction s as [|c s IH]; [reflexivity |].
  cbn [string_all]. intros [Hc Hs]%andb_true_iff. specialize (IH Hs).
  cbn [collapse_spaces]. destruct (is_space c).
  - destruct s as [|d s']; [cbn; rewrite Hsp; reflexivity |].
    destruct (is_space d); [exact IH |].
    cbn [string_all]. rewrite Hsp. exact IH.
  - cbn [string_all]. rewrite Hc. exact IH.
Qed.

Lemma trimStart_all p s : string_all p s = true -> string_all p (trimStart s) = true.
Proof.
  induction s as [|c s IH]; [reflexivity |].
  cbn [trimStart]. destruct (is_space c); [| auto].
  cbn [string_all]. intros [_ Hs]%andb_true_iff. auto.
Qed.

Lemma trimEnd_all p s : string_all p s = true -> string_all p (trimEnd s) = true.
Proof.
  induction s as [|c s IH]; [reflexivity |].
  cbn [string_all trimEnd]. intros [Hc Hs]%andb_true_iff. specialize (IH Hs).
  destruct (trimEnd s) as [|d t].
  - destruct (is_space c); [reflexivity |]. cbn. rewrite Hc. reflexivity.
  - cbn [string_all] in *. rewrite Hc. exact IH.
Qed.

Lemma join_and_all p s :
  string_all p " AND " = true -> string_all p s = true -> string_all p (join_and s) = true.
Proof.
  intros Hand. induction s as [|c s IH]; [reflexivity |].
  cbn [string_all join_and]. intros [Hc Hs]%andb_true_iff. specialize (IH Hs).
  destruct (Ascii.eqb c " ").
  - rewrite string_all_app, Hand. exact IH.
  - cbn [string_all]. rewrite Hc. exact IH.
Qed.

Lemma sanitizeQuery_all query : string_all not_operator (sanitizeQuery query) = true.
Proof.
  unfold sanitizeQuery, trim.
  assert (H : string_all not_operator
                (trimEnd (trimStart (collapse_spaces (map_string collapse_char query)))) = true).
  { apply trimEnd_all, trimStart_all, collapse_spaces_all; [reflexivity |].
    apply map_string_not_operator. }
  destruct (includes _ _); [| exact H].
  apply join_and_all; [reflexivity | exact H].
Qed.

Lemma includes_char_all c s :
  string_all (fun d => negb (Ascii.eqb d c)) s = true ->
  includes s (String c EmptyString) = false.
Proof.
  induction s as [|d s IH]; [reflexivity |].
  cbn [string_all includes startsWith]. intros [Hd Hs]%andb_true_iff.
  rewrite Ascii.eqb_sym. apply negb_true_iff in Hd. rewrite Hd. auto.
Qed.

(** X14.  The result of [sanitizeQuery] holds none of the six characters it
    replaces: the double, the single and the back quote, the star, the
    caret and the tilde. *)
Theorem sanitizeQuery_strips_operators (query : string) (c : ascii) :
  In c operator_chars ->
  includes (sanitizeQuery query) (String c EmptyString) = false.
Proof.
  intros Hc. apply includes_char_all.
  eapply string_all_impl; [| apply sanitizeQuery_all].
  intros d Hd. apply negb_true_iff. apply negb_true_iff in Hd.
  destruct (Ascii.eqb_spec d c) as [->|]; [| reflexivity].
  rewrite <- Hd. symmetry. apply existsb_exists. exists c. split; [exact Hc |].
  apply Ascii.eqb_refl.
Qed.

(** *** Terms separated by one space *)

Lemma plain_term_inv w :
  plain_term w = true ->
  exists c w', w = String c w' /\ is_space c = false /\ not_operator c = true
               /\ string_all term_char w' = true.
Proof.
  unfold plain_term. intros [Hne Hall]%andb_true_iff.
  destruct w as [|c w']; [discriminate |].
  cbn [string_all] in Hall. unfold term_char at 1 in Hall.
  apply andb_true_iff in Hall as [[[H1 H2]%andb_true_iff _]%andb_true_iff Hall].
  apply negb_true_iff in H1. eauto 10.
Qed.

Lemma not_operator_collapse c : not_operator c = true -> collapse_char c = c.
Proof.
  unfold not_operator, collapse_char. fold operator_chars.
  intros H%negb_true_iff. rewrite H. reflexivity.
Qed.

Lemma not_space_not_blank c : is_space c = false -> Ascii.eqb c " " = false.
Proof.
  intros H. destruct (Ascii.eqb_spec c " ") as [->|]; [discriminate H | reflexivity].
Qed.

(** The three passes on a run of characters that are neither white space
    nor operators. *)
Lemma map_string_term w rest :
  string_all term_char w = true ->
  map_string collapse_char (w +:+ rest) = w +:+ map_string collapse_char rest.
Proof.
  induction w as [|c w IH]; [reflexivity |].
  cbn [string_all]. unfold term_char at 1.
  intros [[[_ H2]%andb_true_iff _]%andb_true_iff Hw]%andb_true_iff.
  change (String c w +:+ rest) with (String c (w +:+ rest)).
  cbn [map_string]. rewrite (not_operator_collapse c H2), IH by exact Hw. reflexivity.
Qed.

Lemma collapse_spaces_term w rest :
  string_all term_char w = true ->
  collapse_spaces (w +:+ rest) = w +:+ collapse_spaces rest.
Proof.
  induction w as [|c w IH]; [reflexivity |].
  cbn [string_all]. unfold term_char at 1.
  intros [[[H1%negb_true_iff _]%andb_true_iff _]%andb_true_iff Hw]%andb_true_iff.
  change (String c w +:+ rest) with (String c (w +:+ rest)).
  cbn [collapse_spaces]. rewrite H1, IH by exact Hw. reflexivity.
Qed.

Lemma join_and_term w rest :
  string_all term_char w = true ->
  join_and (w +:+ rest) = w +:+ join_and rest.
Proof.
  induction w as [|c w IH]; [reflexivity |].
  cbn [string_all]. unfold term_char at 1.
  intros [[[H1%negb_true_iff _]%andb_true_iff _]%andb_true_iff Hw]%andb_true_iff.
  change (String c w +:+ rest) with (String c (w +:+ rest)).
  cbn [join_and]. rewrite (not_space_not_blank c H1), IH by exact Hw. reflexivity.
Qed.

Lemma append_empty (s : string) : s +:+ EmptyString = s.
Proof.
  induction s as [|c s IH]; [reflexivity |].
  change (String c s +:+ EmptyString) with (String c (s +:+ EmptyString)).
  f_equal. exact IH.
Qed.

(** A list of terms joined by single spaces is empty, or starts with a
    character that is not white space. *)
Lemma concat_terms_head w ws :
  plain_term w = true ->
  exists c r, String.concat " " (w :: ws) = String c r /\ is_space c = false.
Proof.
  intros (c & w' & -> & H1 & _)%plain_term_inv.
  cbn [String.concat]. destruct ws; eexists c, _; (split; [reflexivity | exact H1]).
Qed.

Lemma plain_term_all w :
  plain_term w = true ->
  string_all term_char w = true.
Proof. unfold plain_term. intros [_ H]%andb_true_iff. exact H. Qed.

(** A pass that goes through a term unchanged and writes [sep] for the
    space before the next term maps the terms joined by spaces to the
    terms joined by [sep]. *)
Lemma pass_terms (f : string -> string) (sep : string) ws :
  f EmptyString = EmptyString ->
  (forall w rest, string_all term_char w = true ->
     f (w +:+ rest) = w +:+ f rest) ->
  (forall c r, is_space c = false -> f (String " " (String c r)) = sep +:+ f (String c r)) ->
  Forall (fun w => plain_term w = true) ws ->
  f (String.concat " " ws) = String.concat sep ws.
Proof.
  intros Hnil Hterm Hsep. induction 1 as [|w ws Hw Hws IH]; [exact Hnil |].
  pose proof (plain_term_all w Hw) as Hall.
  cbn [String.concat]. destruct ws as [|w2 ws].
  - rewrite <- (append_empty w) at 1. rewrite Hterm, Hnil by exact Hall. apply append_empty.
  - change (w ++ " " ++ String.concat " " (w2 :: ws))%string
      with (w +:+ String " " (String.concat " " (w2 :: ws))).
    rewrite Hterm by exact Hall.
    apply Forall_cons in Hws as [Hw2 _].
    destruct (concat_terms_head w2 ws Hw2) as (c & r & E & Hc).
    rewrite E in IH |- *. rewrite Hsep, IH by exact Hc. reflexivity.
Qed.

Lemma join_and_no_space s : includes s " " = false -> join_and s = s.
Proof.
  induction s as [|c s IH]; [reflexivity |].
  cbn [includes startsWith join_and].
  destruct (Ascii.eqb_spec " " c) as [<-|Hne]; [discriminate |].
  intros H. rewrite Ascii.eqb_sym.
  destruct (Ascii.eqb_spec " " c); [contradiction |]. rewrite IH by exact H. reflexivity.
Qed.

Lemma trimStart_head c r : is_space c = false -> trimStart (String c r) = String c r.
Proof. intros H. cbn [trimStart]. rewrite H. reflexivity. Qed.

Lemma trimEnd_term w pre :
  plain_term w = true -> trimEnd (pre +:+ w) = pre +:+ w.
Proof.
  intros Hw. induction pre as [|c pre IH].
  - change (EmptyString +:+ w) with w.
    destruct (plain_term_inv w Hw) as (c & w' & -> & H1 & _ & Hall). clear Hw.
    revert c H1. induction w' as [|d w' IHw]; intros c H1.
    + cbn [trimEnd]. rewrite H1. reflexivity.
    + cbn [string_all] in Hall. unfold term_char at 1 in Hall.
      apply andb_true_iff in Hall
        as [[[Hd%negb_true_iff _]%andb_true_iff _]%andb_true_iff Hall].
      specialize (IHw Hall d Hd).
      change (trimEnd (String c (String d w')))
        with (match trimEnd (String d w') with
              | EmptyString => if is_space c then EmptyString else String c EmptyString
              | t => String c t
              end).
      rewrite IHw. reflexivity.
  - change (String c pre +:+ w) with (String c (pre +:+ w)).
    cbn [trimEnd]. rewrite IH.
    destruct (pre +:+ w) eqn:E; [| reflexivity].
    exfalso. destruct (plain_term_inv w Hw) as (d & w' & -> & _).
    destruct pre; discriminate E.
Qed.

Lemma append_assoc (a b c : string) : (a +:+ b) +:+ c = a +:+ (b +:+ c).
Proof.
  induction a as [|x a IH]; [reflexivity |].
  change (String x (a +:+ b) +:+ c = String x (a +:+ (b +:+ c))).
  change (String x ((a +:+ b) +:+ c) = String x (a +:+ (b +:+ c))).
  f_equal. exact IH.
Qed.

Lemma concat_terms_last w ws :
  Forall (fun w => plain_term w = true) (w :: ws) ->
  exists pre wl, String.concat " " (w :: ws) = pre +:+ wl /\ plain_term wl = true.
Proof.
  revert w. induction ws as [|w2 ws IH]; intros w [Hw Hws]%Forall_cons.
  - exists EmptyString, w. auto.
  - destruct (IH w2 Hws) as (pre & wl & E & Hl).
    exists (w +:+ String " " pre), wl. split; [| exact Hl].
    cbn [String.concat] in *. 
    change (w ++ " " ++ ?x)%string with (w +:+ String " " x).
    rewrite E, append_assoc. reflexivity.
Qed.

Lemma trimEnd_terms ws :
  Forall (fun w => plain_term w = true) ws ->
  trimEnd (String.concat " " ws) = String.concat " " ws.
Proof.
  destruct ws as [|w ws]; [reflexivity |].
  intros (pre & wl & -> & Hl)%concat_terms_last. apply trimEnd_term. exact Hl.
Qed.

Lemma trimStart_terms ws :
  Forall (fun w => plain_term w = true) ws ->
  trimStart (String.concat " " ws) = String.concat " " ws.
Proof.
  destruct ws as [|w ws]; [reflexivity |].
  intros [Hw _]%Forall_cons.
  destruct (concat_terms_head w ws Hw) as (c & r & -> & Hc).
  apply trimStart_head. exact Hc.
Qed.

(** X15.  On terms separated by single spaces, each a non-empty run of ASCII
    characters without white space and without the six replaced
    characters, [sanitizeQuery] returns the terms joined by [ AND ]; one
    term comes back as it is and no term gives the empty string. *)
Theorem sanitizeQuery_joins_terms (ws : list string) :
  Forall (fun w => plain_term w = true) ws ->
  sanitizeQuery (String.concat " " ws) = String.concat " AND " ws.
Proof.
  intros Hws. unfold sanitizeQuery, trim.
  rewrite (pass_terms (map_string collapse_char) " " ws); try assumption;
    [| reflexivity | apply map_string_term | reflexivity].
  rewrite (pass_terms collapse_spaces " " ws); try assumption;
    [| reflexivity | apply collapse_spaces_term
     | intros c r Hc; cbn [collapse_spaces]; rewrite Hc; reflexivity].
  rewrite trimStart_terms, trimEnd_terms by assumption.
  assert (Hj : join_and (String.concat " " ws) = String.concat " AND " ws).
  { apply (pass_terms join_and " AND " ws); try assumption;
      [reflexivity | apply join_and_term | reflexivity]. }
  destruct (includes _ _) eqn:E; [exact Hj |].
  rewrite <- Hj. symmetry. apply join_and_no_space. exact E.
Qed.

End SanitizeQuery.

Lemma sanitizeQuery_joins_terms_witness :
  HybridSearchDatabase.sanitizeQuery "parse config file" = "parse AND config AND file"%string.
Proof.
  apply (sanitizeQuery_joins_terms ["parse"; "config"; "file"]%string).
  repeat constructor.
Defined.

Lemma sanitizeQuery_strips_operators_witness :
  includes (HybridSearchDatabase.sanitizeQuery "foo* 'bar'") "*" = false.
Proof.
  apply (sanitizeQuery_strips_operators "foo* 'bar'" "*"%char). cbn. tauto.
Defined.


(** ** The re-ranking of [handleSearchCode] *)

Section Rerank.
Import SearchCode.

Lemma skipn_sorted {A} (R : A -> A -> Prop) n l :
  StronglySorted R l -> StronglySorted R (skipn n l).
Proof.
  intros H. revert n. induction H as [|x l Hs IH Hf]; intros [|n]; cbn [skipn];
    try constructor; auto.
Qed.

Lemma slice_sorted {A} (R : A -> A -> Prop) l i j :
  StronglySorted R l -> StronglySorted R (slice l i j).
Proof. intros H. unfold slice. apply firstn_sorted, skipn_sorted, H. Qed.

Lemma slice_prefix {A} (l : list A) (k : Z) :
  0 <= k -> slice l 0 (Z.min k (Z.of_nat (length l))) = firstn (Z.to_nat k) l.
Proof.
  intros Hk. unfold slice, clamp_index.
  change (0 <? 0) with false. cbv iota.
  destruct (Z.min k (Z.of_nat (length l)) <? 0) eqn:E; [apply Z.ltb_lt in E; lia |].
  replace (Z.to_nat (Z.min 0 (Z.of_nat (length l)))) with 0%nat by lia.
  change (skipn 0 l) with l.
  replace (Z.min (Z.min k (Z.of_nat (length l))) (Z.of_nat (length l)) - Z.min 0 (Z.of_nat (length l)))
    with (Z.min k (Z.of_nat (length l))) by lia.
  destruct (Z.le_ge_cases k (Z.of_nat (length l))).
  - rewrite Z.min_l by assumption. reflexivity.
  - rewrite Z.min_r by assumption. rewrite Nat2Z.id.
    rewrite firstn_all. symmetry. apply firstn_all2. lia.
Qed.

Lemma length_insert_desc {A} (score : A -> Q) (x : A) l :
  length (HybridSearchDatabase.insert_desc score x l) = S (length l).
Proof.
  induction l as [|y l IH]; [reflexivity |].
  cbn [HybridSearchDatabase.insert_desc]. destruct (Qle_bool _ _); cbn [length]; [reflexivity |].
  rewrite IH. reflexivity.
Qed.

Lemma length_order_desc {A} (score : A -> Q) (l : list A) :
  length (HybridSearchDatabase.order_desc score l) = length l.
Proof.
  induction l as [|x l IH]; [reflexivity |].
  cbn [HybridSearchDatabase.order_desc fold_right]. rewrite length_insert_desc.
  cbn [length]. f_equal. exact IH.
Qed.

(** X16.  The re-ranking of [handleSearchCode] keeps [min(topk, results)]
    results; without neighbours from the vector search it keeps the first
    ones in the order of the text search, and with neighbours it returns
    them by descending fused score. *)
Theorem rerank_best_first (topk : Z) (vssKnn : list (Z * Q)) (results : list Memory) :
  0 <= topk ->
  length (rerank topk vssKnn results) = Nat.min (Z.to_nat topk) (length results)
  /\ (vssKnn = [] -> rerank topk vssKnn results = firstn (Z.to_nat topk) results)
  /\ (vssKnn <> [] -> StronglySorted more_relevant (rerank topk vssKnn results)).
Proof.
  intros Hk. unfold rerank. split; [| split].
  - destruct vssKnn.
    + rewrite slice_prefix by exact Hk. apply length_firstn.
    + replace (length results) with (length (sort_by_relevance (scored (p :: vssKnn) results)))
        by (unfold sort_by_relevance, scored; rewrite length_order_desc, length_map; reflexivity).
      rewrite slice_prefix by exact Hk. apply length_firstn.
  - intros ->. apply slice_prefix. exact Hk.
  - destruct vssKnn; [congruence |]. intros _.
    apply slice_sorted. unfold sort_by_relevance.
    apply (order_desc_sorted (fun r => or_else (relevance r) 0)).
Qed.

Lemma cosineSim_antitone (d1 d2 : Q) :
  (0 <= d1)%Q -> (d1 <= d2)%Q -> (cosineSim d2 <= cosineSim d1)%Q.
Proof.
  intros H1 H2. assert (H0 : (0 <= d2)%Q) by (eapply Qle_trans; eassumption).
  rewrite (cosineSim_pos d1 H1), (cosineSim_pos d2 H0).
  apply Qle_shift_div_l; [lra |].
  assert (E : (1 / (1 + d2) * (1 + d1) == (1 + d1) / (1 + d2))%Q) by (field; lra).
  rewrite E.
  apply Qle_shift_div_r; lra.
Qed.

(** The distance the fusion uses for a memory: the neighbour's, or 999. *)
Lemma fused_distance_hit (vssMap : gmap Z Q) (r : Memory) (d : Q) :
  vssMap !! id r = Some d -> (0 < d)%Q ->
  (fusedScore vssMap r == (5 # 10) * or_else (relevance r) 0 + (5 # 10) * cosineSim d)%Q.
Proof.
  intros H Hd. unfold fusedScore. rewrite H, (or_else_nonzero d 999 Hd). reflexivity.
Qed.

Lemma fused_distance_miss (vssMap : gmap Z Q) (r : Memory) :
  vssMap !! id r = None ->
  (fusedScore vssMap r == (5 # 10) * or_else (relevance r) 0 + (5 # 10) * cosineSim 999)%Q.
Proof. intros H. unfold fusedScore. rewrite H. reflexivity. Qed.

(** X17.  The fused score is monotone: a result that is at least as relevant
    to the text search as another and at most as far from the query, at a
    positive distance, has a fused score at least as high; a result
    without a neighbour counts as at distance 999. *)
Theorem fusedScore_nearer_first (vssMap : gmap Z Q) (r1 r2 : Memory) (d1 : Q) :
  vssMap !! id r1 = Some d1 -> (0 < d1)%Q ->
  (or_else (relevance r2) 0 <= or_else (relevance r1) 0)%Q ->
  match vssMap !! id r2 with
  | Some d2 => (d1 <= d2)%Q
  | None => (d1 <= 999)%Q
  end ->
  (fusedScore vssMap r2 <= fusedScore vssMap r1)%Q.
Proof.
  intros H1 Hd1 Hrel H2.
  rewrite (fused_distance_hit vssMap r1 d1 H1 Hd1).
  destruct (vssMap !! id r2) as [d2|] eqn:E2.
  - rewrite (fused_distance_hit vssMap r2 d2 E2) by (eapply Qlt_le_trans; eassumption).
    pose proof (cosineSim_antitone d1 d2 (Qlt_le_weak _ _ Hd1) H2). lra.
  - rewrite (fused_distance_miss vssMap r2 E2).
    pose proof (cosineSim_antitone d1 999 (Qlt_le_weak _ _ Hd1) H2). lra.
Qed.

End Rerank.

Lemma rerank_best_first_witness :
  length (SearchCode.rerank 1 [(1%Z, 3%Q)] [memory_1]) = Nat.min (Z.to_nat 1) (length [memory_1])
  /\ ([(1%Z, 3%Q)] = [] -> SearchCode.rerank 1 [(1%Z, 3%Q)] [memory_1] = firstn (Z.to_nat 1) [memory_1])
  /\ ([(1%Z, 3%Q)] <> [] -> StronglySorted more_relevant (SearchCode.rerank 1 [(1%Z, 3%Q)] [memory_1])).
Proof.
  apply (rerank_best_first 1 [(1%Z, 3%Q)] [memory_1]). lia.
Defined.

Lemma fusedScore_nearer_first_witness :
  (SearchCode.fusedScore (SearchCode.vssMap_of [(1%Z, 3%Q)])
     {| SearchCode.id := 2; SearchCode.content := "g"; SearchCode.relevance := Some (4 # 10)%Q |}
   <= SearchCode.fusedScore (SearchCode.vssMap_of [(1%Z, 3%Q)]) memory_1)%Q.
Proof.
  apply (fusedScore_nearer_first (SearchCode.vssMap_of [(1%Z, 3%Q)]) memory_1
           {| SearchCode.id := 2; SearchCode.content := "g";
              SearchCode.relevance := Some (4 # 10)%Q |} 3%Q).
  - vm_compute. reflexivity.
  - reflexivity.
  - vm_compute. discriminate.
  - vm_compute. discriminate.
Defined.


(** ** Chunks *)

Section Chunks.
Import EnhancedCodeIndexer.

Lemma split_lines_length s : (1 <= length (split_lines s))%nat.
Proof.
  destruct s as [|c s]; [cbn; lia |].
  cbn [split_lines]. destruct (Ascii.eqb c "010"); [cbn [length]; lia |].
  destruct s as [|d s]; [cbn [length]; lia |].
  destruct (_ && _); [cbn [length]; lia |].
  destruct (split_lines (String d s)); cbn [length]; lia.
Qed.

Lemma windows_tile fuel rel language lines i maxLines cs :
  1 <= maxLines -> 0 <= i ->
  windows fuel rel language lines i maxLines = Some cs ->
  (i < Z.of_nat (length lines) -> tiles (i + 1) (Z.of_nat (length lines)) (map chunk_range cs))
  /\ (Z.of_nat (length lines) <= i -> cs = [])
  /\ Forall (fun c => snd (chunk_range c) - fst (chunk_range c) + 1 <= maxLines
                      /\ text c = lines_text lines (chunk_range c)) cs.
Proof.
  intros Hm. revert i cs. induction fuel as [|fuel IH]; intros i cs Hi; cbn [windows].
  - destruct (_ <=? i) eqn:L; [| discriminate]. apply Z.leb_le in L.
    intros [= <-]. split; [lia | split; [reflexivity | constructor]].
  - destruct (_ <=? i) eqn:L.
    + apply Z.leb_le in L. intros [= <-]. split; [lia | split; [reflexivity | constructor]].
    + apply Z.leb_gt in L.
      destruct (windows fuel rel language lines (i + maxLines) maxLines) as [rest|] eqn:E;
        [| discriminate].
      intros [= <-]. destruct (IH (i + maxLines) rest ltac:(lia) E) as (T & N & F).
      split; [| split; [lia |]].
      * intros _. cbn [map tiles]. unfold chunk_range at 1. cbn [meta lineStart lineEnd].
        split; [reflexivity | split; [lia |]].
        destruct (Z.lt_ge_cases (i + maxLines) (Z.of_nat (length lines))) as [Hlt | Hge].
        -- rewrite Z.min_l by lia. apply T. exact Hlt.
        -- rewrite Z.min_r by lia. rewrite (N ltac:(lia)). cbn [map tiles]. reflexivity.
      * constructor; [| exact F].
        unfold chunk_range, lines_text. cbn [meta lineStart lineEnd fst snd text].
        split; [lia |]. replace (i + 1 - 1) with i by lia. reflexivity.
Qed.

(** X18.  With [maxChunkLines >= 1] (200 when left out) the line-window
    chunking returns chunks whose line ranges follow one another from line
    1 to the last line without a gap or an overlap, each of at most
    [maxChunkLines] lines, and the text of each chunk is the text of its
    lines. *)
Theorem line_windows_tile_the_file (relativeFile : string) (language : option string)
    (text0 : string) (options : EnhancedIndexOptions) :
  let maxLines := HybridSearchDatabase.value_or (maxChunkLines options) 200 in
  let lines := split_lines text0 in
  1 <= maxLines ->
  exists cs,
    chunks (fallbackToHeuristicChunking relativeFile language text0 options) = Some cs
    /\ tiles 1 (Z.of_nat (length lines)) (map chunk_range cs)
    /\ Forall (fun c => snd (chunk_range c) - fst (chunk_range c) + 1 <= maxLines
                        /\ text c = lines_text lines (chunk_range c)) cs.
Proof.
  intros maxLines lines Hm. unfold fallbackToHeuristicChunking. cbn [chunks].
  fold lines. fold maxLines.
  destruct (windows (length lines) relativeFile language lines 0 maxLines) as [cs|] eqn:E.
  - exists cs. split; [reflexivity |].
    destruct (windows_tile _ _ _ _ _ _ _ Hm (Z.le_refl 0) E) as (T & _ & F).
    split; [| exact F]. apply T.
    pose proof (split_lines_length text0). subst lines. lia.
  - exfalso. revert E. apply windows_terminate; [exact Hm | lia].
Qed.

Lemma windows_no_progress fuel rel language lines i maxLines :
  maxLines <= 0 -> i < Z.of_nat (length lines) ->
  windows fuel rel language lines i maxLines = None.
Proof.
  intros Hm. revert i. induction fuel as [|fuel IH]; intros i Hi; cbn [windows];
    destruct (_ <=? i) eqn:L; try (apply Z.leb_le in L; lia); [reflexivity |].
  rewrite IH by lia. reflexivity.
Qed.

(** X19.  With [maxChunkLines <= 0] the loop of the line-window chunking makes
    no progress: no number of turns is enough for it to end, on any file,
    and the chunking does not return. *)
Theorem line_windows_never_end (relativeFile : string) (language : option string)
    (text0 : string) (options : EnhancedIndexOptions) :
  HybridSearchDatabase.value_or (maxChunkLines options) 200 <= 0 ->
  (forall fuel,
     windows fuel relativeFile language (split_lines text0) 0
       (HybridSearchDatabase.value_or (maxChunkLines options) 200) = None)
  /\ chunks (fallbackToHeuristicChunking relativeFile language text0 options) = None.
Proof.
  intros Hm. pose proof (split_lines_length text0) as Hl.
  split; [intros fuel |]; apply windows_no_progress; try exact Hm; lia.
Qed.

(** Every symbol of the heuristic tier is made by [mk_symbol] from the
    index of its first line and the index of its last. *)
Lemma heuristic_symbol_shape text0 language s :
  In s (extractSymbolsHeuristically text0 language) ->
  exists nm ty i e sig, s = mk_symbol (split_lines text0) nm ty i e sig.
Proof.
  unfold extractSymbolsHeuristically.
  destruct language as [lang|]; [| intros []].
  destruct (_ || _).
  - unfold extractTypeScriptSymbols. intros (j & line & _ & H)%for_lines_In.
    unfold typescript_line in H.
    repeat match type of H with
           | In _ (match ?x with _ => _ end) => destruct x
           | In _ (if ?x then _ else _) => destruct x
           end; cbn [In] in H; first [contradiction | destruct H as [<- | []]; eauto 10].
  - destruct (String.eqb lang "python"); [| intros []].
    unfold extractPythonSymbolsHeuristic. intros (j & line & _ & H)%for_lines_In.
    unfold python_line in H.
    repeat match type of H with
           | In _ (match ?x with _ => _ end) => destruct x
           end; cbn [In] in H; first [contradiction | destruct H as [<- | []]; eauto 10].
Qed.

(** X20.  Every chunk [chunkFileWithTreeSitter] returns, from a symbol or from
    a line window, carries as text exactly the lines [lineStart ..
    lineEnd] of the file that its metadata names. *)
Theorem chunk_text_is_its_lines (relativeFile : string) (language : option string)
    (text0 : string) (options : EnhancedIndexOptions) (cs : list Chunk) (c : Chunk) :
  chunks (chunkFileWithTreeSitter relativeFile language text0 options) = Some cs ->
  In c cs ->
  text c = lines_text (split_lines text0) (chunk_range c).
Proof.
  unfold chunkFileWithTreeSitter, enhancedHeuristicChunking.
  destruct (extractSymbolsHeuristically text0 language) as [|s0 ss] eqn:E; cbn [chunks].
  - unfold fallbackToHeuristicChunking. cbn [chunks]. intros W Hc.
    destruct (Z.le_gt_cases 1 (HybridSearchDatabase.value_or (maxChunkLines options) 200))
      as [Hm | Hm].
    + destruct (windows_tile _ _ _ _ _ _ _ Hm (Z.le_refl 0) W) as (_ & _ & F).
      rewrite List.Forall_forall in F. apply (F c Hc).
    + rewrite windows_no_progress in W; [discriminate | lia |].
      pose proof (split_lines_length text0). lia.
  - intros [= <-] Hc.
    change (In c (map (chunk_of_symbol relativeFile language) (s0 :: ss))) in Hc.
    apply in_map_iff in Hc as (s & <- & Hs). rewrite <- E in Hs.
    apply heuristic_symbol_shape in Hs as (nm & ty & i & e & sig & ->).
    unfold chunk_of_symbol, chunk_range, lines_text, mk_symbol, block.
    cbn [text meta lineStart lineEnd content startLine endLine fst snd].
    replace (i + 1 - 1) with i by lia. reflexivity.
Qed.

End Chunks.

Lemma line_windows_tile_the_file_witness :
  exists cs,
    EnhancedCodeIndexer.chunks
      (EnhancedCodeIndexer.fallbackToHeuristicChunking "notes.txt" None "two
lines" no_options) = Some cs
    /\ tiles 1 2 (map chunk_range cs)
    /\ Forall (fun c => snd (chunk_range c) - fst (chunk_range c) + 1 <= 200
                        /\ EnhancedCodeIndexer.text c
                           = lines_text ["two"; "lines"]%string (chunk_range c)) cs.
Proof.
  apply (line_windows_tile_the_file "notes.txt" None "two
lines" no_options). vm_compute. discriminate.
Defined.

Lemma line_windows_never_end_witness :
  EnhancedCodeIndexer.chunks
    (EnhancedCodeIndexer.fallbackToHeuristicChunking "notes.txt" None "two
lines"
       {| EnhancedCodeIndexer.maxChunkLines := Some 0;
          EnhancedCodeIndexer.useTreeSitter := None;
          EnhancedCodeIndexer.symbolsOnly := None;
          EnhancedCodeIndexer.includeDocstrings := None;
          EnhancedCodeIndexer.includeSignatures := None;
          EnhancedCodeIndexer.astFallback := None |}) = None.
Proof.
  apply (line_windows_never_end "notes.txt" None "two
lines"
           {| EnhancedCodeIndexer.maxChunkLines := Some 0;
              EnhancedCodeIndexer.useTreeSitter := None;
              EnhancedCodeIndexer.symbolsOnly := None;
              EnhancedCodeIndexer.includeDocstrings := None;
              EnhancedCodeIndexer.includeSignatures := None;
              EnhancedCodeIndexer.astFallback := None |}).
  vm_compute. discriminate.
Defined.

Lemma chunk_text_is_its_lines_witness :
  EnhancedCodeIndexer.text (EnhancedCodeIndexer.chunk_of_symbol "a.ts" (Some "typescript"%string) symbol_f)
  = lines_text (split_lines "function f() {}")
      (chunk_range (EnhancedCodeIndexer.chunk_of_symbol "a.ts" (Some "typescript"%string) symbol_f)).
Proof.
  apply (chunk_text_is_its_lines "a.ts" (Some "typescript"%string) "function f() {}" no_options
           [EnhancedCodeIndexer.chunk_of_symbol "a.ts" (Some "typescript"%string) symbol_f]).
  - vm_compute. reflexivity.
  - left. reflexivity.
Defined.


(** ** The symbols of the heuristic tier *)

Section HeuristicSymbols.
Import Regex EnhancedCodeIndexer.

Lemma captures_star cls : captures (fun w => string_all cls w = true) (star cls).
Proof.
  intros s. induction s as [|c s IH]; intros m; cbn [star].
  - intros [<- | []]. reflexivity.
  - destruct (cls c) eqn:E.
    + intros [H | [<- | []]]%in_app_or; [| reflexivity].
      apply in_map_iff in H as (m' & <- & Hm'). cbn [fst string_all].
      rewrite E. exact (IH m' Hm').
    + intros [<- | []]. reflexivity.
Qed.

Lemma captures_plus cls :
  captures (fun w => w <> EmptyString /\ string_all cls w = true) (plus cls).
Proof.
  intros s m. unfold plus. destruct s as [|c s]; [intros [] |].
  destruct (cls c) eqn:E; [| intros []].
  intros (m' & <- & Hm')%in_map_iff. cbn [fst string_all]. split; [discriminate |].
  rewrite E. exact (captures_star cls s m' Hm').
Qed.

Lemma captures_bind {A B} (Q : A -> Prop) (P : B -> Prop) (r : Re A) (k : A -> Re B) :
  captures Q r -> (forall a, Q a -> captures P (k a)) -> captures P (bind r k).
Proof.
  intros Hr Hk s m. unfold bind. intros (m' & Hm' & Hm)%in_flat_map.
  exact (Hk (fst m') (Hr s m' Hm') (snd m') m Hm).
Qed.

Lemma captures_then {A} (P : A -> Prop) (r : Re unit) (k : Re A) :
  captures P k -> captures P (then_ r k).
Proof.
  intros Hk. unfold then_. apply (captures_bind (fun _ => True)); [intros s m _; exact I |].
  intros _ _. exact Hk.
Qed.

Lemma captures_pure {A} (P : A -> Prop) (a : A) : P a -> captures P (pure a).
Proof. intros H s m [<- | []]. exact H. Qed.

Lemma captures_first_match {A} (P : A -> Prop) (r : Re A) s a :
  captures P r -> first_match r s = Some a -> P a.
Proof.
  intros H. unfold first_match. destruct (r s) as [|m ms] eqn:E; [discriminate |].
  intros [= <-]. apply (H s m). rewrite E. left. reflexivity.
Qed.

Lemma funcMatch_identifier : captures identifier funcMatch.
Proof. repeat apply captures_then. apply captures_plus. Qed.

Lemma classMatch_identifier : captures identifier classMatch.
Proof. repeat apply captures_then. apply captures_plus. Qed.

Lemma interfaceMatch_identifier : captures identifier interfaceMatch.
Proof. repeat apply captures_then. apply captures_plus. Qed.

Lemma methodMatch_identifier : captures identifier methodMatch.
Proof.
  unfold methodMatch. repeat apply captures_then.
  apply (captures_bind identifier); [apply captures_plus |].
  intros w Hw. repeat apply captures_then. apply captures_pure. exact Hw.
Qed.

Lemma defMatch_identifier : captures identifier defMatch.
Proof. repeat apply captures_then. apply captures_plus. Qed.

Lemma pyClassMatch_identifier : captures identifier pyClassMatch.
Proof. repeat apply captures_then. apply captures_plus. Qed.

Lemma typescript_line_names lines i line s :
  In s (typescript_line lines i line) ->
  identifier (name s)
  /\ (type s = TMethod -> existsb (String.eqb (name s)) control_words = false).
Proof.
  unfold typescript_line.
  destruct (first_match funcMatch _) as [nm|] eqn:E1.
  { intros [<- | []]. cbn [mk_symbol name type]. split; [| discriminate].
    exact (captures_first_match _ _ _ _ funcMatch_identifier E1). }
  destruct (first_match classMatch _) as [nm|] eqn:E2.
  { intros [<- | []]. cbn [mk_symbol name type]. split; [| discriminate].
    exact (captures_first_match _ _ _ _ classMatch_identifier E2). }
  destruct (first_match interfaceMatch _) as [nm|] eqn:E3.
  { intros [<- | []]. cbn [mk_symbol name type]. split; [| discriminate].
    exact (captures_first_match _ _ _ _ interfaceMatch_identifier E3). }
  destruct (first_match methodMatch _) as [nm|] eqn:E4; [| intros []].
  destruct (_ && _) eqn:G; [| intros []].
  intros [<- | []]. cbn [mk_symbol name type]. split.
  - exact (captures_first_match _ _ _ _ methodMatch_identifier E4).
  - intros _. apply andb_true_iff in G as [_ G]. apply negb_true_iff in G. exact G.
Qed.

Lemma python_line_names lines i line s :
  In s (python_line lines i line) -> identifier (name s).
Proof.
  unfold python_line.
  destruct (first_match defMatch _) as [nm|] eqn:E1.
  { intros [<- | []]. cbn [mk_symbol name].
    exact (captures_first_match _ _ _ _ defMatch_identifier E1). }
  destruct (first_match pyClassMatch _) as [nm|] eqn:E2; [| intros []].
  intros [<- | []]. cbn [mk_symbol name].
  exact (captures_first_match _ _ _ _ pyClassMatch_identifier E2).
Qed.

(** X21.  Every symbol the regular expressions find has a name made of one or
    more word characters, and outside Python a method is never named by
    one of the control words the method pattern excludes. *)
Theorem heuristic_names_are_identifiers (text0 : string) (language : option string)
    (s : Symbol) :
  In s (extractSymbolsHeuristically text0 language) ->
  identifier (name s)
  /\ (language <> Some "python"%string -> type s = TMethod ->
      ~ In (name s) control_words).
Proof.
  unfold extractSymbolsHeuristically.
  destruct language as [lang|]; [| intros []].
  destruct (_ || _).
  - unfold extractTypeScriptSymbols. intros (j & line & _ & H)%for_lines_In.
    apply typescript_line_names in H as [H1 H2]. split; [exact H1 |].
    intros _ Ht Hin. specialize (H2 Ht).
    assert (existsb (String.eqb (name s)) control_words = true); [| congruence].
    apply existsb_exists. exists (name s). split; [exact Hin | apply String.eqb_refl].
  - destruct (String.eqb_spec lang "python") as [->|Hne]; [| intros []].
    unfold extractPythonSymbolsHeuristic. intros (j & line & _ & H)%for_lines_In.
    apply python_line_names in H. split; [exact H | congruence].
Qed.

(** *** One symbol per line, in the order of the lines *)

Lemma for_lines_ascending {A} (key : A -> Z) (body : Z -> string -> list A) rest i :
  (forall j line s, In s (body j line) -> key s = j + 1) ->
  (forall j line, (length (body j line) <= 1)%nat) ->
  StronglySorted (fun a b => key a < key b) (for_lines body rest i)
  /\ Forall (fun s => i + 1 <= key s) (for_lines body rest i).
Proof.
  intros Hkey Hone. revert i. induction rest as [|l rest IH]; intros i; cbn [for_lines].
  - split; constructor.
  - destruct (IH (i + 1)) as [S F].
    specialize (Hone i l). pose proof (Hkey i l) as Hk.
    destruct (body i l) as [|x [|y b]]; cbn [length] in Hone; [| | lia]; cbn [app].
    + split; [exact S |]. eapply Forall_impl; [exact F |]. cbn. intros; lia.
    + specialize (Hk x (or_introl eq_refl)). split.
      * constructor; [exact S |]. eapply Forall_impl; [exact F |]. cbn. intros; lia.
      * constructor; [lia |]. eapply Forall_impl; [exact F |]. cbn. intros; lia.
Qed.

Lemma typescript_line_one lines i line :
  (length (typescript_line lines i line) <= 1)%nat
  /\ forall s, In s (typescript_line lines i line) -> startLine s = i + 1.
Proof.
  unfold typescript_line.
  repeat match goal with
         | |- context [match ?x with _ => _ end] => destruct x
         end; (split; [cbn; lia | intros sy Hsy; cbn [In] in Hsy;
                                  first [contradiction | destruct Hsy as [<- | []]; reflexivity]]).
Qed.

Lemma python_line_one lines i line :
  (length (python_line lines i line) <= 1)%nat
  /\ forall s, In s (python_line lines i line) -> startLine s = i + 1.
Proof.
  unfold python_line.
  repeat match goal with
         | |- context [match ?x with _ => _ end] => destruct x
         end; (split; [cbn; lia | intros sy Hsy; cbn [In] in Hsy;
                                  first [contradiction | destruct Hsy as [<- | []]; reflexivity]]).
Qed.

(** X22.  The heuristic tier finds at most one symbol per line and returns
    the symbols in the order of the lines, by strictly ascending start
    line. *)
Theorem heuristic_symbols_follow_the_lines (text0 : string) (language : option string) :
  StronglySorted (fun a b => startLine a < startLine b)
    (extractSymbolsHeuristically text0 language)
  /\ (length (extractSymbolsHeuristically text0 language) <= length (split_lines text0))%nat.
Proof.
  assert (Hlen : forall {A} (body : Z -> string -> list A) rest i,
            (forall j line, (length (body j line) <= 1)%nat) ->
            (length (for_lines body rest i) <= length rest)%nat).
  { intros A body rest. induction rest as [|l rest IH]; intros i H; cbn [for_lines length];
      [lia |]. rewrite length_app. specialize (IH (i + 1) H). specialize (H i l). lia. }
  unfold extractSymbolsHeuristically.
  destruct language as [lang|]; [| split; [constructor | cbn; lia]].
  destruct (_ || _).
  - unfold extractTypeScriptSymbols. split.
    + apply (for_lines_ascending startLine).
      * intros j line s. apply typescript_line_one.
      * intros j line. apply typescript_line_one.
    + apply Hlen. intros. apply typescript_line_one.
  - destruct (String.eqb lang "python"); [| split; [constructor | cbn; lia]].
    unfold extractPythonSymbolsHeuristic. split.
    + apply (for_lines_ascending startLine).
      * intros j line s. apply python_line_one.
      * intros j line. apply python_line_one.
    + apply Hlen. intros. apply python_line_one.
Qed.

End HeuristicSymbols.

Lemma heuristic_names_are_identifiers_witness :
  identifier (EnhancedCodeIndexer.name symbol_f)
  /\ (Some "typescript"%string <> Some "python"%string ->
      EnhancedCodeIndexer.type symbol_f = TMethod ->
      ~ In (EnhancedCodeIndexer.name symbol_f) EnhancedCodeIndexer.control_words).
Proof.
  apply (heuristic_names_are_identifiers "function f() {}" (Some "typescript"%string) symbol_f).
  vm_compute. left. reflexivity.
Defined.


(** ** The syntax-tree tier and the enclosing class *)

Section AstParents.
Import TreeSitterLoader.

Lemma str_or_name nm : nm <> EmptyString -> str_or (Some nm) None = Some nm.
Proof. destruct nm; [congruence | reflexivity]. Qed.

Lemma classify_parent n lang nm st p :
  classify n lang None = (Some nm, Some st, p) -> nm <> EmptyString ->
  (st = TClass -> p = Some nm)
  /\ (st <> TClass -> p = None)
  /\ (lang = "python"%string -> st <> TMethod).
Proof.
  unfold classify. intros E Hne.
  destruct (is_ts lang) eqn:Ets.
  - assert (Hpy : lang <> "python"%string) by (intros ->; discriminate Ets).
    repeat match type of E with
           | (if ?c then _ else _) = _ => destruct c
           end; try discriminate E; injection E as E1 E2 E3; subst st p;
      try rewrite E1; try rewrite (str_or_name nm Hne); repeat split; congruence.
  - destruct (String.eqb lang "python"); [| discriminate E].
    repeat match type of E with
           | (if ?c then _ else _) = _ => destruct c
           end; try discriminate E; injection E as E1 E2 E3; subst st p;
      try rewrite E1; try rewrite (str_or_name nm Hne); cbn [str_or];
      repeat split; congruence.
Qed.

Lemma extractSymbolFromNode_parent n lines lang fp s :
  In s (extractSymbolFromNode n lines lang fp None) ->
  (type s = TClass -> parent s = Some (name s))
  /\ (type s <> TClass -> parent s = None)
  /\ (lang = "python"%string -> type s <> TMethod).
Proof.
  destruct n as [ty sr er tx cs]. unfold extractSymbolFromNode.
  destruct (_ || _); [intros [] |].
  destruct (classify _ lang None) as [[[nm|] [st|]] p] eqn:E; try (intros []).
  destruct (String.eqb_spec nm EmptyString) as [->|Hne]; [intros [] |].
  intros [<- | []]. cbn [type parent name].
  exact (classify_parent _ _ _ _ _ E Hne).
Qed.

Lemma traverseTreeSitterNode_parent n lines lang fp s :
  In s (traverseTreeSitterNode n lines lang fp None) ->
  (type s = TClass -> parent s = Some (name s))
  /\ (type s <> TClass -> parent s = None)
  /\ (lang = "python"%string -> type s <> TMethod).
Proof.
  revert n. fix IH 1. intros [ty sr er tx cs]. cbn [traverseTreeSitterNode].
  intros [H | H]%in_app_or; [eapply extractSymbolFromNode_parent; exact H |].
  induction cs as [|c cs IHcs]; [destruct H |].
  cbn [flat_map] in H. apply in_app_or in H as [H | H].
  - exact (IH c H).
  - exact (IHcs H).
Qed.

(** X23.  The syntax-tree tier never records the enclosing class of a symbol:
    the parent set while a class is handled is not handed to its members,
    so a class has its own name as parent, every other symbol has no
    parent, and a Python function is never classified as a method. *)
Theorem ast_symbols_name_no_enclosing_class (language : option string)
    (parse : string -> completion (option SyntaxNode)) (filePath content0 : string)
    (s : SymbolInfo) :
  In s (extractSymbols language parse filePath content0) ->
  (type s = TClass -> parent s = Some (name s))
  /\ (type s <> TClass -> parent s = None)
  /\ (language = Some "python"%string -> type s <> TMethod).
Proof.
  unfold extractSymbols. destruct language as [lang|]; [| intros []].
  destruct (parse content0) as [[root|]|e]; try (intros []).
  intros H%traverseTreeSitterNode_parent. destruct H as (H1 & H2 & H3).
  split; [exact H1 | split; [exact H2 |]]. intros [= ->]. apply H3. reflexivity.
Qed.

End AstParents.

Lemma ast_symbols_name_no_enclosing_class_witness :
  In symbol_m
     (TreeSitterLoader.extractSymbols (Some "python"%string) parse_class_A
        "a.py" class_A_source)
  /\ ((TreeSitterLoader.type symbol_m = TClass ->
       TreeSitterLoader.parent symbol_m = Some (TreeSitterLoader.name symbol_m))
      /\ (TreeSitterLoader.type symbol_m <> TClass -> TreeSitterLoader.parent symbol_m = None)
      /\ (Some "python"%string = Some "python"%string ->
          TreeSitterLoader.type symbol_m <> TMethod)).
Proof.
  assert (H : In symbol_m
                 (TreeSitterLoader.extractSymbols (Some "python"%string) parse_class_A
                    "a.py" class_A_source))
    by (vm_compute; right; left; reflexivity).
  split; [exact H |].
  exact (ast_symbols_name_no_enclosing_class _ _ _ _ _ H).
Defined.


(** ** TreeSitterIndexer: what [chunkFile] returns *)

Section TreeSitterChunks.
Import TreeSitterIndexer.

Lemma or_anonymous_nonempty x : or_anonymous x <> EmptyString.
Proof. destruct x as [[|c s]|]; discriminate. Qed.

Lemma extractSymbolInfo_named n ancestors lang nm ty :
  extractSymbolInfo n ancestors lang = Some (nm, ty) ->
  nm <> EmptyString
  /\ In ty ["function"; "class"; "interface"; "type"; "enum"; "object"]%string.
Proof.
  unfold extractSymbolInfo.
  repeat match goal with
         | |- context [if ?c then _ else _] => destruct c
         | |- context [match findIdentifierName n with _ => _ end] =>
             destruct (findIdentifierName n) as [[|? ?]|]
         end; try discriminate; intros [= <- <-];
    (split; [first [apply or_anonymous_nonempty | discriminate] | cbn; tauto]).
Qed.

Lemma symbol_chunk_named types n ancestors content file0 lang c :
  In c (symbol_chunk types n ancestors content file0 lang) -> named_symbol c.
Proof.
  unfold symbol_chunk. destruct (existsb _ _); [| intros []].
  destruct (extractSymbolInfo n ancestors lang) as [[nm ty]|] eqn:E; [| intros []].
  destruct n as [t0 tx sr er si ei cs]. intros [<- | []].
  apply extractSymbolInfo_named in E as [H1 H2].
  split; [reflexivity |]. exists nm, ty. cbn [meta symbolName symbolType]. auto.
Qed.

Lemma extractSymbols_named types n ancestors content file0 lang c :
  In c (extractSymbols types n ancestors content file0 lang) -> named_symbol c.
Proof.
  revert n ancestors. fix IH 1. intros [t0 tx sr er si ei cs] ancestors.
  cbn [extractSymbols].
  intros [H | H]%in_app_or; [eapply symbol_chunk_named; exact H |].
  generalize dependent (Node t0 tx sr er si ei cs :: ancestors). intros anc H.
  induction cs as [|c0 cs IHcs]; [destruct H |].
  cbn [flat_map] in H. apply in_app_or in H as [H | H].
  - exact (IH c0 anc H).
  - exact (IHcs H).
Qed.

(** X24.  For a file it could read, [TreeSitterIndexer.chunkFile] returns
    either the whole file as one fallback chunk, or, when the path is not
    skipped and the parser of the language returned a tree, only chunks of
    the syntax tree, each with a non-empty symbol name and one of the six
    symbol types. *)
Theorem chunkFile_whole_file_or_symbols
    (parsers : string -> option (string -> completion SyntaxNode))
    (rel ext content : string) :
  chunkFile parsers rel ext (Normal content)
  = [fallback_chunk content rel (inferLanguage ext)]
  \/ (skipped rel = false
      /\ (exists parse root, parsers (inferLanguage ext) = Some parse
                             /\ parse content = Normal root)
      /\ Forall named_symbol (chunkFile parsers rel ext (Normal content))).
Proof.
  unfold chunkFile. destruct (skipped rel); [left; reflexivity |].
  destruct (parsers (inferLanguage ext)) as [parse|] eqn:P; [| left; reflexivity].
  unfold parseWithTreeSitter.
  destruct (parse content) as [root|e] eqn:R; [| left; reflexivity].
  right. split; [reflexivity |]. split; [eauto |].
  destruct (is_js _); [| destruct (String.eqb _ "python")].
  - apply List.Forall_forall. intros c. apply extractSymbols_named.
  - apply List.Forall_forall. intros c. apply extractSymbols_named.
  - constructor.
Qed.

(** *** Paths that are never parsed *)

Lemma toLowerCase_app a b : toLowerCase (a +:+ b) = toLowerCase a +:+ toLowerCase b.
Proof.
  induction a as [|c a IH]; [reflexivity |].
  change (String c a +:+ b) with (String c (a +:+ b)). cbn [toLowerCase].
  rewrite IH. reflexivity.
Qed.

Lemma startsWith_app p s : startsWith (p +:+ s) p = true.
Proof.
  induction p as [|c p IH]; [reflexivity |].
  change (String c p +:+ s) with (String c (p +:+ s)). cbn [startsWith].
  rewrite Ascii.eqb_refl. exact IH.
Qed.

Lemma endsWith_app p s : endsWith (s +:+ p) p = true.
Proof.
  induction s as [|c s IH].
  - change (EmptyString +:+ p) with p. destruct p; cbn [endsWith]; rewrite String.eqb_refl;
      reflexivity.
  - change (String c s +:+ p) with (String c (s +:+ p)). cbn [endsWith].
    rewrite IH. apply orb_true_r.
Qed.

(** X25.  A path under [dist/], [build/], [lib/] or [node_modules/], or one
    that ends in [.min.js], in any letter case, is never parsed:
    [chunkFile] returns the whole file as one fallback chunk whatever
    parsers are loaded. *)
Theorem chunkFile_skips_build_output
    (parsers : string -> option (string -> completion SyntaxNode))
    (dir rest ext content : string) :
  In (toLowerCase dir) ["dist/"; "build/"; "lib/"; "node_modules/"]%string
  \/ toLowerCase rest = ".min.js"%string ->
  chunkFile parsers (dir +:+ rest) ext (Normal content)
  = [fallback_chunk content (dir +:+ rest) (inferLanguage ext)].
Proof.
  intros H. unfold chunkFile.
  replace (skipped (dir +:+ rest)) with true; [reflexivity |].
  symmetry. unfold skipped. rewrite toLowerCase_app.
  destruct H as [H | H].
  - cbn [In] in H.
    destruct H as [<- | [<- | [<- | [<- | []]]]]; rewrite startsWith_app;
      rewrite ?orb_true_r; reflexivity.
  - rewrite H, endsWith_app. apply orb_true_r.
Qed.

End TreeSitterChunks.

Lemma chunkFile_skips_build_output_witness :
  (In (TreeSitterIndexer.toLowerCase "Dist/")
      ["dist/"; "build/"; "lib/"; "node_modules/"]%string
   \/ TreeSitterIndexer.toLowerCase "cli.js" = ".min.js"%string)
  /\ TreeSitterIndexer.chunkFile (fun _ => Some parse_one_function)
       ("Dist/" +:+ "cli.js") ".js" (Normal "function f() {}"%string)
     = [TreeSitterIndexer.fallback_chunk "function f() {}" ("Dist/" +:+ "cli.js")
          (TreeSitterIndexer.inferLanguage ".js")].
Proof.
  assert (H : In (TreeSitterIndexer.toLowerCase "Dist/")
                 ["dist/"; "build/"; "lib/"; "node_modules/"]%string
              \/ TreeSitterIndexer.toLowerCase "cli.js" = ".min.js"%string)
    by (left; left; reflexivity).
  split; [exact H |].
  exact (chunkFile_skips_build_output _ _ _ _ _ H).
Defined.


(** ** The statements of the schema migration *)

Section Migration.
Import HybridSearchMigration.

Lemma split_char_no_sep sep s piece :
  In piece (split_char sep s) ->
  string_all (fun c => negb (Ascii.eqb c sep)) piece = true.
Proof.
  revert piece. induction s as [|c s IH]; intros piece; cbn [split_char].
  - intros [<- | []]. reflexivity.
  - destruct (Ascii.eqb c sep) eqn:E.
    + intros [<- | H]; [reflexivity | auto].
    + destruct (split_char sep s) as [|p ps].
      * intros [<- | []]. cbn. rewrite E. reflexivity.
      * intros [<- | H].
        -- cbn [string_all]. rewrite E. apply IH. left. reflexivity.
        -- apply IH. right. exact H.
Qed.

Lemma trimEnd_idem s : trimEnd (trimEnd s) = trimEnd s.
Proof.
  induction s as [|c s IH]; [reflexivity |].
  cbn [trimEnd]. destruct (trimEnd s) as [|d t] eqn:E.
  - destruct (is_space c) eqn:Ec; [reflexivity |]. cbn [trimEnd]. rewrite Ec. reflexivity.
  - change (trimEnd (String c (String d t)))
      with (match trimEnd (String d t) with
            | EmptyString => if is_space c then EmptyString else String c EmptyString
            | t0 => String c t0
            end).
    rewrite IH. reflexivity.
Qed.

(** A string that is empty or starts with a character that is not white
    space keeps its start under [trimEnd]. *)
Lemma trimStart_trimEnd s : trimStart s = s -> trimStart (trimEnd s) = trimEnd s.
Proof.
  destruct s as [|c s]; [reflexivity |].
  cbn [trimStart]. destruct (is_space c) eqn:Ec.
  - (* the start is white space: [trimStart] is shorter *)
    intros H. exfalso.
    assert (Hlen : forall x, (String.length (trimStart x) <= String.length x)%nat).
    { induction x as [|d x IHx]; [cbn; lia |]. cbn [trimStart].
      destruct (is_space d); cbn [String.length] in *; lia. }
    specialize (Hlen s). rewrite H in Hlen. cbn [String.length] in Hlen. lia.
  - intros _. cbn [trimEnd]. destruct (trimEnd s); [rewrite Ec |]; cbn [trimStart];
      rewrite Ec; reflexivity.
Qed.

Lemma trimStart_idem s : trimStart (trimStart s) = trimStart s.
Proof.
  induction s as [|c s IH]; [reflexivity |].
  cbn [trimStart]. destruct (is_space c) eqn:Ec; [exact IH |].
  cbn [trimStart]. rewrite Ec. reflexivity.
Qed.

Lemma trim_idem s : trim (trim s) = trim s.
Proof.
  unfold trim. rewrite (trimStart_trimEnd (trimStart s)) by apply trimStart_idem.
  apply trimEnd_idem.
Qed.

(** X26.  Every statement the migration runs is a non-empty piece of the
    schema file between two semicolons, without white space at its ends
    and without a semicolon: a statement that holds semicolons, such as a
    trigger with a body, is run in pieces. *)
Theorem statements_are_trimmed_fragments (schemaSql statement : string) :
  In statement (statements schemaSql) ->
  statement <> EmptyString
  /\ includes statement ";" = false
  /\ trim statement = statement.
Proof.
  unfold statements. intros [H Hlen]%filter_In.
  apply in_map_iff in H as (piece & <- & Hp). split; [| split].
  - intros E. rewrite E in Hlen. discriminate Hlen.
  - apply includes_char_all. unfold trim. apply trimEnd_all, trimStart_all.
    apply (split_char_no_sep _ _ _ Hp).
  - apply trim_idem.
Qed.

(** *** Errors that stop the migration *)

Lemma exec_all_throws {Db} (exec : string -> Eff Db unit) stmts db e db' :
  exec_all exec stmts db = (Throw e, db') ->
  isExpectedError e = false
  /\ exists statement d, In statement stmts /\ exec statement d = (Throw e, db').
Proof.
  revert db. induction stmts as [|st rest IH]; intros db; cbn [exec_all].
  - discriminate.
  - destruct (exec st db) as [[[]|e0] d1] eqn:X.
    + intros (H1 & s & d & Hs & Hd)%IH. split; [exact H1 |].
      exists s, d. split; [right; exact Hs | exact Hd].
    + destruct (isExpectedError e0) eqn:E.
      * intros (H1 & s & d & Hs & Hd)%IH. split; [exact H1 |].
        exists s, d. split; [right; exact Hs | exact Hd].
      * intros [= <- <-]. split; [exact E |].
        exists st, db. split; [left; reflexivity | exact X].
Qed.

(** X27.  When the migration fails after the schema file was read, the error
    it throws was thrown by one of the statements and is none of the
    expected ones (its message holds neither [already exists] nor
    [duplicate column name] nor [table code_symbols has no column named]),
    and the transaction leaves the database as it was. *)
Theorem applyMigration_fails_only_on_unexpected_error {Db} (schemaSql : string)
    (exec : string -> Eff Db unit) (db db' : Db) (e : string) :
  applyMigration (Normal schemaSql) exec db = (Throw e, db') ->
  isExpectedError e = false
  /\ db' = db
  /\ exists statement d d',
       In statement (statements schemaSql) /\ exec statement d = (Throw e, d').
Proof.
  unfold applyMigration.
  destruct (exec_all exec (statements schemaSql) db) as [[[]|e0] d1] eqn:E; [discriminate |].
  intros [= <- <-]. apply exec_all_throws in E as (H1 & s & d & Hs & Hd).
  split; [exact H1 | split; [reflexivity |]]. exists s, d, d1. auto.
Qed.

End Migration.

Lemma statements_are_trimmed_fragments_witness :
  In "END"%string
     (HybridSearchMigration.statements
        "CREATE TRIGGER t AFTER INSERT ON a BEGIN DELETE FROM b; END; "%string)
  /\ ("END"%string <> EmptyString
      /\ includes "END" ";" = false
      /\ trim "END" = "END"%string).
Proof.
  assert (H : In "END"%string
                 (HybridSearchMigration.statements
                    "CREATE TRIGGER t AFTER INSERT ON a BEGIN DELETE FROM b; END; "%string))
    by (vm_compute; right; left; reflexivity).
  split; [exact H |].
  exact (statements_are_trimmed_fragments _ _ H).
Defined.

Lemma applyMigration_fails_only_on_unexpected_error_witness :
  HybridSearchMigration.applyMigration
    (Normal "CREATE TABLE a (x); CREATE TRIGGER t AFTER INSERT ON a BEGIN DELETE FROM b; END;"%string)
    exec_no_end [] = (Throw "near END: syntax error"%string, [])
  /\ (HybridSearchMigration.isExpectedError "near END: syntax error" = false
      /\ @nil string = []
      /\ exists statement d d',
           In statement
              (HybridSearchMigration.statements
                 "CREATE TABLE a (x); CREATE TRIGGER t AFTER INSERT ON a BEGIN DELETE FROM b; END;"%string)
           /\ exec_no_end statement d = (Throw "near END: syntax error"%string, d')).
Proof.
  assert (H : HybridSearchMigration.applyMigration
                (Normal "CREATE TABLE a (x); CREATE TRIGGER t AFTER INSERT ON a BEGIN DELETE FROM b; END;"%string)
                exec_no_end [] = (Throw "near END: syntax error"%string, []))
    by (vm_compute; reflexivity).
  split; [exact H |].
  exact (applyMigration_fails_only_on_unexpected_error _ _ _ _ _ H).
Defined.
